(** * D-Bus native client: wire codec and introspection proxy

    A shallow embedding of the TypeScript sources of the D-Bus protocol
    engine: the signature parser ([lib/signature]), the put-stream and its
    alignment helper ([lib/put], [lib/align]), the basic-type marshallers
    ([lib/marshallers]), the message codec ([lib/message]) and the
    introspection proxy ([lib/introspect]).

    Conventions of the embedding.
    - A JavaScript string is a [string]; a character of a signature is an
      [ascii] (every type code is ASCII).
    - A JavaScript number that the code treats as an integer is a [Z]; the
      32-bit operators ([>>], [<<], [&], [| 0]) have their wrap-around
      written out.
    - A [Buffer] is a list of bytes, each a [Z] in [0, 255].
    - [throw] is the [Throw] outcome; a recursive function that the source
      writes with unbounded recursion takes a fuel argument and a theorem
      shows which fuel is enough. *)

From Stdlib Require Import ZArith List Ascii String Bool Lia.
From stdpp Require Import gmap strings list.
Import ListNotations.

Local Open Scope Z_scope.

(** ** Outcomes of JavaScript code *)

(** One constructor for each [throw] site of the embedded sources. *)
Inductive Error : Type :=
| UnknownType (char : ascii)        (* Unknown type: "c" in signature "..." *)
| UnexpectedEnd                     (* Bad signature: unexpected end *)
| NotString                         (* Data: ... was not of type string *)
| NullByte                          (* String contains null byte *)
| SignatureTooLong                  (* ... is too long for signature type *)
| MaxNesting                        (* Maximum container type nesting exceeded *)
| NotNumber                         (* Data: ... was not of type number *)
| NotInteger                        (* Data: ... was not an integer *)
| OutsideRange                      (* Number outside range *)
| NotBoolean                        (* Data: ... was not of type boolean *)
| NotANumber                        (* Data: ... was not a number *)
| ConvertNumber                     (* Error converting number to 64bit integer *)
| ConvertString                     (* Error converting string to 64bit integer *)
| DidNotConvert (signed : bool)     (* ... did not convert correctly to (un)signed 64 bit *)
| ConvertObject                     (* Error converting object to 64bit integer *)
| UnsignedIntoSigned                (* Longjs object is unsigned, but marshalling into signed 64 bit field *)
| SignedIntoUnsigned                (* Longjs object is signed, but marshalling into unsigned 64 bit field *)
| OutOfRange64 (signed : bool)      (* ... was out of range (64-bit (un)signed) *)
| UnknownFormat                     (* Unknown data type format: ... *)
| BodyMismatch                      (* message body does not match message signature *)
| InvalidStruct                     (* Invalid struct data *)
| BadVariant                        (* variant data should be [signature, data] *)
| MissingSerial                     (* Missing or invalid serial *)
| RangeError                        (* Buffer.alloc with an invalid size *)
| TypeError.                        (* a property read on a non-object and the like *)

Inductive outcome (A : Type) : Type :=
| Done (a : A)
| Throw (e : Error)
| Fuel.
Arguments Done {A} a.
Arguments Throw {A} e.
Arguments Fuel {A}.

Definition bind {A B : Type} (m : outcome A) (k : A -> outcome B) : outcome B :=
  match m with
  | Done a => k a
  | Throw e => Throw e
  | Fuel => Fuel
  end.

Notation "'let*' x ':=' m 'in' k" := (bind m (fun x => k))
  (at level 10, x pattern, m at level 100, k at level 200).

(** ** Signature parser ([lib/signature]) *)

Module Signature.

(** [interface SignatureNode { type: string; child: SignatureNode[] }] *)
#[warnings="-register-all"]
Inductive SignatureNode : Type :=
| Node (type : ascii) (child : list SignatureNode).

Definition type (n : SignatureNode) : ascii := let (t, _) := n in t.
Definition child (n : SignatureNode) : list SignatureNode := let (_, c) := n in c.

(** [BRACKET_PAIRS]: the closing character of each opening bracket. *)
Definition BRACKET_PAIRS (char : ascii) : option ascii :=
  if Ascii.eqb char "{" then Some "}"%char
  else if Ascii.eqb char "(" then Some ")"%char
  else None.

(** [KNOWN_TYPES]: the characters of ["(){}ybnqiuxtdsogavh"]. *)
Definition KNOWN_TYPES (char : ascii) : bool :=
  existsb (Ascii.eqb char) (list_ascii_of_string "(){}ybnqiuxtdsogavh").

(** [parseOne] and the [while] loop of its struct case.  The closure variable
    [index] is represented by the suffix of the signature that is still
    unread, so [next()] is a match on that suffix.  Both functions return
    the suffix left after them. *)
Fixpoint parseOne (fuel : nat) (char : ascii) (input : list ascii)
  : outcome (SignatureNode * list ascii) :=
  match fuel with
  | O => Fuel
  | S fuel =>
    if negb (KNOWN_TYPES char) then Throw (UnknownType char)
    else if Ascii.eqb char "a" then
      match input with
      | [] => Throw UnexpectedEnd
      | element :: input =>
        let* (n, input) := parseOne fuel element input in
        Done (Node char [n], input)
      end
    else match BRACKET_PAIRS char with
    | Some closing =>
      let* (children, input) := parseChildren fuel closing input in
      Done (Node char children, input)
    | None => Done (Node char [], input)
    end
  end
with parseChildren (fuel : nat) (closing : ascii) (input : list ascii)
  : outcome (list SignatureNode * list ascii) :=
  match fuel with
  | O => Fuel
  | S fuel =>
    match input with
    | [] => Throw UnexpectedEnd
    | element :: input =>
      if Ascii.eqb element closing then Done ([], input)
      else
        let* (n, input) := parseOne fuel element input in
        let* (children, input) := parseChildren fuel closing input in
        Done (n :: children, input)
    end
  end.

(** The top-level loop [while ((char = next()) !== null) result.push(parseOne(char))]. *)
Fixpoint parseTop (fuel : nat) (input : list ascii) : outcome (list SignatureNode) :=
  match fuel with
  | O => Fuel
  | S fuel =>
    match input with
    | [] => Done []
    | char :: input =>
      let* (n, input) := parseOne fuel char input in
      let* result := parseTop fuel input in
      Done (n :: result)
    end
  end.

Definition enough (input : list ascii) : nat := 2 * List.length input + 2.

Definition parseSignature (signature : string) : outcome (list SignatureNode) :=
  let input := list_ascii_of_string signature in
  parseTop (enough input) input.

(** Rendering of a tree back to text: the type code, with the element after
    ['a'] and the children between the brackets of a struct or dict entry. *)
Fixpoint render (n : SignatureNode) : list ascii :=
  match n with
  | Node t children =>
    let inner := flat_map render children in
    if Ascii.eqb t "a" then t :: inner
    else match BRACKET_PAIRS t with
    | Some closing => t :: inner ++ [closing]
    | None => [t]
    end
  end.

Definition rendering (tree : list SignatureNode) : string :=
  string_of_list_ascii (flat_map render tree).

(** The errors of the parser: an unknown character or the end of the text. *)
Definition signature_error (e : Error) : Prop :=
  e = UnexpectedEnd \/ exists c, e = UnknownType c /\ KNOWN_TYPES c = false.

End Signature.

(** ** JavaScript numbers, 32-bit operators and buffers *)

(** A JavaScript number: an integer-valued double, a finite double with a
    fractional part (kept as its floor and the eight bytes of its IEEE-754
    encoding, all that the codec needs of it), [NaN] or an infinity. *)
Inductive number : Type :=
| Int (z : Z)
| NonInteger (floor : Z) (ieee754 : list Z)
| NaN
| Infinity (negative : bool).

(** [ToInt32] and the operators [x >> n], [x << n] and [x & y]. *)
Definition toInt32 (z : Z) : Z := (z + 2 ^ 31) mod 2 ^ 32 - 2 ^ 31.
Definition toUint32 (z : Z) : Z := z mod 2 ^ 32.
Definition sar (x n : Z) : Z := Z.shiftr (toInt32 x) (n mod 32).
Definition shl (x n : Z) : Z := toInt32 (Z.shiftl (toInt32 x) (n mod 32)).
Definition band (x y : Z) : Z := toInt32 (Z.land (toInt32 x) (toInt32 y)).

Module Buffer.

(** [Buffer.alloc(size)]: [size] zero bytes. *)
Definition alloc (size : Z) : list Z := repeat 0 (Z.to_nat size).

(** [source.copy(target, targetStart)] and the indexed stores
    [target[offset++] = b]: the bytes of [source] overwrite [target] from
    [targetStart] on; what falls outside [target] is dropped. *)
Fixpoint copy (source : list Z) (target : list Z) (targetStart : nat) : list Z :=
  match source with
  | [] => target
  | b :: source => copy source (<[targetStart := b]> target) (S targetStart)
  end.

(** [buf.writeInt16LE(v)], [buf.writeInt32LE(v)] and [buf.writeUInt32LE(v)]
    on a fresh buffer: the two's complement bytes, least significant first. *)
Definition bytesLE (count : nat) (v : Z) : list Z :=
  map (fun i => Z.land (Z.shiftr v (8 * Z.of_nat i)) 255) (seq 0 count).

(** [buf.writeDoubleLE(v)]: the IEEE-754 binary64 encoding.  An integer is
    encoded exactly when it is a double, which every JavaScript number is. *)
Definition binary64 (v : number) : Z :=
  match v with
  | Int 0 => 0
  | Int z =>
    let m := Z.abs z in
    let e := Z.log2 m in
    let fraction := (if e <=? 52 then m * 2 ^ (52 - e) else m / 2 ^ (e - 52)) - 2 ^ 52 in
    (if z <? 0 then 2 ^ 63 else 0) + (e + 1023) * 2 ^ 52 + fraction
  | NonInteger _ ieee754 =>
    fold_right (fun b acc => b + 256 * acc) 0 ieee754
  | NaN => 0x7ff8000000000000
  | Infinity negative => (if negative then 2 ^ 63 else 0) + 0x7ff0000000000000
  end.

Definition doubleLE (v : number) : list Z := bytesLE 8 (binary64 v).

(** [Buffer.from(s, "utf8")] for a string over the 8-bit alphabet. *)
Definition utf8_char (c : ascii) : list Z :=
  let n := Z.of_N (N_of_ascii c) in
  if n <? 128 then [n] else [Z.lor 192 (Z.shiftr n 6); Z.lor 128 (Z.land n 63)].

Definition utf8 (s : string) : list Z := flat_map utf8_char (list_ascii_of_string s).

(** [Buffer.from(s, "ascii")]: one byte for each character. *)
Definition ascii (s : string) : list Z :=
  map (fun c => Z.of_N (N_of_ascii c)) (list_ascii_of_string s).

End Buffer.

(** ** Put-stream ([lib/put]) *)

(** [interface Word]: either [{ buffer }] or [{ bytes, value }] (the
    [endian] field is always ["little"] and is not read). *)
Inductive Word : Type :=
| WBuffer (buffer : list Z)
| WValue (bytes : nat) (value : Z).

Record Put : Type := mkPut {
  words : list Word;
  _length : Z;
  _offset : Z
}.

(** [put()]: a new stream. *)
Definition newPut : Put := {| words := []; _length := 0; _offset := 0 |}.

Definition push (ps : Put) (w : Word) (size : Z) : Put :=
  {| words := words ps ++ [w]; _length := _length ps + size; _offset := _offset ps |}.

Definition put (ps : Put) (buffer : list Z) : Put :=
  push ps (WBuffer buffer) (Z.of_nat (List.length buffer)).
Definition word8 (ps : Put) (value : Z) : Put := push ps (WValue 1 value) 1.
Definition word16le (ps : Put) (value : Z) : Put := push ps (WValue 2 value) 2.
Definition word32le (ps : Put) (value : Z) : Put := push ps (WValue 4 value) 4.

(** [ps._offset += n] and [ps._offset = n]. *)
Definition advance (ps : Put) (n : Z) : Put :=
  {| words := words ps; _length := _length ps; _offset := _offset ps + n |}.
Definition setOffset (ps : Put) (n : Z) : Put :=
  {| words := words ps; _length := _length ps; _offset := n |}.

(** The bytes one word contributes: the buffer itself, or
    [(value >> i) & 0xff] for [i = 0, 8, ...] below [bytes * 8]. *)
Definition wordBytes (w : Word) : list Z :=
  match w with
  | WBuffer buffer => buffer
  | WValue bytes value =>
    map (fun i => band (sar value (8 * Z.of_nat i)) 255) (seq 0 bytes)
  end.

(** [buffer()]: allocate [_length] bytes and fill them word after word. *)
Definition buffer (ps : Put) : list Z :=
  fst (fold_left
         (fun '(result, offset) word =>
            (Buffer.copy (wordBytes word) result offset,
             (offset + List.length (wordBytes word))%nat))
         (words ps) (Buffer.alloc (_length ps), O)).

(** ** Alignment ([lib/align]) *)

(** [align(stream, alignment)].  The two copies of this function in the
    sources differ in the names of their variables only. *)
Definition align (ps : Put) (n : Z) : Put :=
  let pad := n - Z.rem (_offset ps) n in
  if (pad =? 0) || (pad =? n) then ps
  else
    let padBuff := Buffer.alloc pad in
    advance (put ps padBuff) pad.

(** The invariant of the class [Put]: the private field [_length] is the
    number of bytes of the words pushed so far. *)
Definition contents (ps : Put) : list Z := flat_map wordBytes (words ps).
Definition Put_wf (ps : Put) : Prop :=
  _length ps = Z.of_nat (List.length (contents ps)).

(** [ps'] continues a well-formed [ps]: as many bytes were appended as the
    offset advanced, between [lo] and [hi] of them. *)
Definition continues (ps ps' : Put) (lo hi : Z) : Prop :=
  Put_wf ps' /\ _length ps' - _offset ps' = _length ps - _offset ps /\
  _offset ps + lo <= _offset ps' <= _offset ps + hi.

(** ** Strings *)

(** The methods of [String] that [makeLong] uses.  Strings are taken over
    the 8-bit alphabet; a character above 127 stands for itself (none of
    them is a digit, a sign or white space but U+00A0). *)
Module Str.

Definition isWhiteSpace (c : ascii) : bool :=
  let n := N_of_ascii c in
  ((9 <=? n) && (n <=? 13) || (n =? 32) || (n =? 160))%N.

Fixpoint trimStart (s : list ascii) : list ascii :=
  match s with
  | c :: rest => if isWhiteSpace c then trimStart rest else s
  | [] => []
  end.

Definition trim (s : list ascii) : list ascii :=
  rev (trimStart (rev (trimStart s))).

Definition upper (c : ascii) : ascii :=
  let n := N_of_ascii c in
  if ((97 <=? n) && (n <=? 122))%N then ascii_of_N (n - 32) else c.

Definition lower (c : ascii) : ascii :=
  let n := N_of_ascii c in
  if ((65 <=? n) && (n <=? 90))%N then ascii_of_N (n + 32) else c.

Definition toUpperCase (s : list ascii) : list ascii := map upper s.

(** [s.substring(0, n) === p] for a [p] of [n] characters. *)
Fixpoint startsWith (p s : list ascii) : bool :=
  match p, s with
  | [], _ => true
  | a :: p, b :: s => Ascii.eqb a b && startsWith p s
  | _ :: _, [] => false
  end.

Definition isDigit (c : ascii) : bool :=
  let n := N_of_ascii c in ((48 <=? n) && (n <=? 57))%N.

(** [s.replace(/^0+(?=\d)/, "")]: leading zeros go as long as a decimal digit
    follows them. *)
Fixpoint dropLeadingZeroes (s : list ascii) : list ascii :=
  match s with
  | c :: rest =>
    match rest with
    | d :: _ => if Ascii.eqb c "0" && isDigit d then dropLeadingZeroes rest else s
    | [] => s
    end
  | [] => []
  end.

(** The value of a digit in a radix up to 36, either case. *)
Definition digitValue (radix : Z) (c : ascii) : option Z :=
  let n := Z.of_N (N_of_ascii (lower c)) in
  let v := if (48 <=? n) && (n <=? 57) then n - 48
           else if (97 <=? n) && (n <=? 122) then n - 87
           else radix in
  if v <? radix then Some v else None.

(** The digit [d] of [Number.prototype.toString(radix)]: lower case. *)
Definition digitChar (d : Z) : ascii :=
  ascii_of_N (Z.to_N (if d <? 10 then d + 48 else d + 87)).

(** [parseInt(s, radix)]: white space, a sign, for radix 16 an optional
    ["0x"], then the longest run of digits; [None] is [NaN]. *)
Fixpoint digitsPrefix (radix : Z) (s : list ascii) (acc : option Z) : option Z :=
  match s with
  | c :: rest =>
    match digitValue radix c with
    | Some v => digitsPrefix radix rest (Some (match acc with Some a => a * radix + v | None => v end))
    | None => acc
    end
  | [] => acc
  end.

Definition parseInt (s : list ascii) (radix : Z) : option Z :=
  let s := trimStart s in
  let '(sign, s) :=
    match s with
    | c :: rest =>
      if Ascii.eqb c "-" then (-1, rest)
      else if Ascii.eqb c "+" then (1, rest) else (1, s)
    | [] => (1, s)
    end in
  let s :=
    if (radix =? 16) && (startsWith ["0"; "x"]%char s || startsWith ["0"; "X"]%char s)
    then skipn 2 s else s in
  option_map (Z.mul sign) (digitsPrefix radix s None).

(** The digits of a non-negative integer, most significant first. *)
Fixpoint digits (fuel : nat) (radix n : Z) (acc : list ascii) : list ascii :=
  match fuel with
  | O => acc
  | S fuel =>
    let acc := digitChar (n mod radix) :: acc in
    if n / radix =? 0 then acc else digits fuel radix (n / radix) acc
  end.

(** [n.toString(radix)] for an integer [n]: an integer below [2 ^ k] has at
    most [k] digits. *)
Definition ofInteger (radix z : Z) : list ascii :=
  if z <? 0 then "-"%char :: digits (Z.to_nat (Z.log2 (- z)) + 1) radix (- z) []
  else digits (Z.to_nat (Z.log2 z) + 1) radix z [].

End Str.

(** ** 64-bit integers: the [long] package *)

(** The part of Long.js (an npm dependency, not a source of this repository)
    that the marshaller calls, after its documentation: a [Long] is two
    32-bit halves and a flag. *)
Module Long.

Record t : Type := mk { low : Z; high : Z; unsigned : bool }.

Definition fromBits (lowBits highBits : Z) (unsigned : bool) : t :=
  mk (toInt32 lowBits) (toInt32 highBits) unsigned.

(** The 64 bits as a natural number, and the integer they stand for. *)
Definition bits (l : t) : Z := toUint32 (high l) * 2 ^ 32 + toUint32 (low l).
Definition toZ (l : t) : Z :=
  if unsigned l then bits l else (bits l + 2 ^ 63) mod 2 ^ 64 - 2 ^ 63.

(** The [Long] of the 64 low bits of an integer. *)
Definition ofZ (z : Z) (unsigned : bool) : t := fromBits z (z / 2 ^ 32) unsigned.

Definition ZERO : t := mk 0 0 false.
Definition MAX_VALUE : t := ofZ (2 ^ 63 - 1) false.
Definition MIN_VALUE : t := ofZ (- 2 ^ 63) false.
Definition MAX_UNSIGNED_VALUE : t := ofZ (2 ^ 64 - 1) true.

(** [Long.fromNumber(value, unsigned)] on an integer: clamped to the range. *)
Definition fromNumber (value : Z) (unsigned : bool) : t :=
  if unsigned then
    if value <? 0 then ofZ 0 true
    else if 2 ^ 64 <=? value then MAX_UNSIGNED_VALUE
    else ofZ value true
  else
    if value <=? - 2 ^ 63 then MIN_VALUE
    else if 2 ^ 63 <=? value + 1 then MAX_VALUE
    else ofZ value false.

Definition isNegative (l : t) : bool := negb (unsigned l) && (high l <? 0).
Definition neg (l : t) : t := ofZ (- bits l) (unsigned l).
Definition add (l r : t) : t := ofZ (bits l + bits r) (unsigned l).
Definition sub (l r : t) : t := ofZ (bits l - bits r) (unsigned l).
Definition mul (l r : t) : t := ofZ (bits l * bits r) (unsigned l).

Definition eq (l r : t) : bool :=
  if negb (Bool.eqb (unsigned l) (unsigned r))
     && (Z.shiftr (toUint32 (high l)) 31 =? 1) && (Z.shiftr (toUint32 (high r)) 31 =? 1)
  then false
  else (high l =? high r) && (low l =? low r).

Definition compare (l r : t) : Z :=
  if eq l r then 0
  else if isNegative l && negb (isNegative r) then -1
  else if negb (isNegative l) && isNegative r then 1
  else if negb (unsigned l) then (if isNegative (sub l r) then -1 else 1)
  else if (toUint32 (high l) <? toUint32 (high r))
          || ((high r =? high l) && (toUint32 (low l) <? toUint32 (low r)))
       then -1 else 1.

Definition gt (l r : t) : bool := 0 <? compare l r.
Definition lt (l r : t) : bool := compare l r <? 0.

(** [Long.fromString(str, unsigned, radix)]: a leading hyphen negates, a
    later one is an error, and the digits are read eight at a time with
    [parseInt]. *)
Fixpoint fromChunks (fuel : nat) (radix : Z) (s : list ascii) (result : t) : t :=
  match fuel with
  | O => result
  | S fuel =>
    match s with
    | [] => result
    | _ =>
      let chunk := firstn 8 s in
      let value := match Str.parseInt chunk radix with Some v => v | None => 0 end in
      let power := fromNumber (radix ^ Z.of_nat (List.length chunk)) false in
      fromChunks fuel radix (skipn 8 s) (add (mul result power) (fromNumber value false))
    end
  end.

Definition literal (s : list ascii) : bool :=
  existsb (fun l => bool_decide (s = list_ascii_of_string l))
          ["NaN"; "Infinity"; "+Infinity"; "-Infinity"]%string.

Fixpoint fromString (str : list ascii) (unsigned : bool) (radix : Z) : outcome t :=
  match str with
  | [] => Throw ConvertString
  | c :: rest =>
    if literal str then Done (mk 0 0 unsigned)
    else if Ascii.eqb c "-" then
      let* l := fromString rest unsigned radix in Done (neg l)
    else if existsb (Ascii.eqb "-") rest then Throw ConvertString
    else
      let l := fromChunks (List.length str) radix str ZERO in
      Done (mk (low l) (high l) unsigned)
  end.

(** [l.toString(radix)]: the integer in lower-case digits. *)
Definition toString (l : t) (radix : Z) : list ascii := Str.ofInteger radix (toZ l).

End Long.

(** ** Values and the basic-type marshallers ([lib/marshallers]) *)

(** The JavaScript values that reach the marshaller and the callbacks of
    the replies. *)
#[warnings="-register-all"]
Inductive Value : Type :=
| VUndefined
| VNumber (n : number)
| VString (s : string)
| VBoolean (b : bool)
| VNumberObject (n : number)             (* new Number(n) *)
| VStringObject (s : string)             (* new String(s) *)
| VLong (l : Long.t)                     (* an instance of Long *)
| VLongLike (low high : Z) (unsigned : bool)   (* a plain { low, high, unsigned } *)
| VArray (items : list Value)
| VSignatureNode (node : Signature.SignatureNode).   (* a plain { type, child } *)

Module Marshallers.

(** [data > z] and [data < z] for an integer bound [z]. *)
Definition gtZ (data : number) (z : Z) : bool :=
  match data with
  | Int v => z <? v
  | NonInteger floor _ => z <=? floor
  | NaN => false
  | Infinity negative => negb negative
  end.

Definition ltZ (data : number) (z : Z) : bool :=
  match data with
  | Int v => v <? z
  | NonInteger floor _ => floor <? z
  | NaN => false
  | Infinity negative => negative
  end.

Definition checkRange (minValue maxValue : Z) (data : number) : outcome unit :=
  if gtZ data maxValue || ltZ data minValue then Throw OutsideRange else Done tt.

Definition checkInteger (data : Value) : outcome unit :=
  match data with
  | VNumber (Int _) | VNumber (Infinity _) => Done tt
  | VNumber _ => Throw NotInteger
  | _ => Throw NotNumber
  end.

Definition checkBoolean (data : Value) : outcome unit :=
  match data with
  | VBoolean _ | VNumber (Int 0) | VNumber (Int 1) => Done tt
  | _ => Throw NotBoolean
  end.

(** The cast [data as number]: only reached after [checkInteger]. *)
Definition asNumber (data : Value) : number :=
  match data with VNumber n => n | _ => NaN end.

(** The integer that [word8], [word16le], [word32le], [writeInt16LE] and
    [writeInt32LE] receive once the checks have passed. *)
Definition asInteger (data : Value) : Z :=
  match data with VNumber (Int z) => z | _ => 0 end.

Definition checkValidString (data : Value) : outcome unit :=
  match data with
  | VString s =>
    if existsb (Ascii.eqb zero) (list_ascii_of_string s) then Throw NullByte else Done tt
  | _ => Throw NotString
  end.

Definition asString (data : Value) : string :=
  match data with VString s => s | _ => EmptyString end.

(** The loop of [checkValidSignature] that counts parentheses. *)
Fixpoint parenLoop (data : list ascii) (parenCount : Z) : outcome unit :=
  match data with
  | [] => Done tt
  | c :: rest =>
    if 32 <? parenCount then Throw MaxNesting
    else if Ascii.eqb c "(" then parenLoop rest (parenCount + 1)
    else if Ascii.eqb c ")" then parenLoop rest (parenCount - 1)
    else parenLoop rest parenCount
  end.

Definition checkValidSignature (data : string) : outcome unit :=
  if 255 <? Z.of_nat (String.length data) then Throw SignatureTooLong
  else
    let* _ := parenLoop (list_ascii_of_string data) 0 in
    let* _ := Signature.parseSignature data in
    Done tt.

Definition hyphen0X : list ascii := ["-"; "0"; "X"]%char.

(** [makeLong(val, signed)]. *)
Definition makeLongNumber (val : number) (signed : bool) : outcome Long.t :=
  let* _ := checkInteger (VNumber val) in
  let* _ := if signed then checkRange (- (2 ^ 53 - 1)) (2 ^ 53 - 1) val
            else checkRange 0 (2 ^ 53 - 1) val in
  match val with
  | Int z => Done (Long.fromNumber z (negb signed))
  | _ => Throw ConvertNumber
  end.

Definition makeLongString (val : string) (signed : bool) : outcome Long.t :=
  let strVal := Str.toUpperCase (Str.trim (list_ascii_of_string val)) in
  let '(radix, strVal) :=
    if Str.startsWith ["0"; "X"]%char strVal then (16, skipn 2 strVal)
    else if Str.startsWith hyphen0X strVal then (16, "-"%char :: skipn 3 strVal)
    else (10, strVal) in
  let strVal := Str.dropLeadingZeroes strVal in
  let* data := Long.fromString strVal (negb signed) radix in
  if bool_decide (Str.toUpperCase (Long.toString data radix) = strVal)
  then Done data
  else Throw (DidNotConvert signed).

Definition makeLong (val : Value) (signed : bool) : outcome Long.t :=
  match val with
  | VLong l => Done l
  | VNumber n | VNumberObject n => makeLongNumber n signed
  | VString s | VStringObject s => makeLongString s signed
  | VLongLike low high unsigned => Done (Long.fromBits low high unsigned)
  | VUndefined => Throw ConvertObject
  | VBoolean _ | VArray _ | VSignatureNode _ => Done (Long.fromBits 0 0 false)
  end.

Definition checkLong (data : Value) (signed : bool) : outcome Long.t :=
  let* longData :=
    match data with
    | VLong l => Done l                   (* Long.isLong(data) *)
    | _ => makeLong data signed
    end in
  if signed then
    if Long.unsigned longData then Throw UnsignedIntoSigned
    else if Long.gt longData Long.MAX_VALUE || Long.lt longData Long.MIN_VALUE
         then Throw (OutOfRange64 true)
    else Done longData
  else
    if negb (Long.unsigned longData) then Throw SignedIntoUnsigned
    else if Long.gt longData Long.MAX_UNSIGNED_VALUE || Long.lt longData Long.ZERO
         then Throw (OutOfRange64 false)
    else Done longData.

(** The signature of the 64-bit field: ['x'] is signed, ['t'] unsigned. *)
Definition int64 (signed : bool) : string := if signed then "x" else "t".

(** The range of the 64-bit field. *)
Definition inRange64 (signed : bool) (v : Z) : Prop :=
  if signed then - 2 ^ 63 <= v <= 2 ^ 63 - 1 else 0 <= v <= 2 ^ 64 - 1.

(** The integer that a text denotes (for the statement of the range check
    on strings; [makeLong] does not use it): white space around it and
    letter case do not count; after ["0x"] or ["-0x"] the digits are
    hexadecimal, otherwise decimal after an optional hyphen; there is at
    least one digit and nothing else. *)
Fixpoint horner (radix : Z) (digits : list ascii) (acc : Z) : option Z :=
  match digits with
  | [] => Some acc
  | c :: digits =>
    match Str.digitValue radix c with
    | Some d => horner radix digits (acc * radix + d)
    | None => None
    end
  end.

Definition valueOf (radix : Z) (s : list ascii) : option Z :=
  match s with
  | [] => None
  | c :: digits =>
    if Ascii.eqb c "-" then
      match digits with
      | [] => None
      | _ => option_map Z.opp (horner radix digits 0)
      end
    else horner radix s 0
  end.

Definition numeral (s : string) : option Z :=
  let text := Str.toUpperCase (Str.trim (list_ascii_of_string s)) in
  if Str.startsWith ["0"; "X"]%char text then valueOf 16 (skipn 2 text)
  else if Str.startsWith hyphen0X text then valueOf 16 ("-"%char :: skipn 3 text)
  else valueOf 10 text.

(** [interface Marshaller { check; marshall }].  [check] returns the [Long]
    for the 64-bit types and nothing for the others. *)
Record Marshaller : Type := mkMarshaller {
  check : Value -> outcome (option Long.t);
  marshall : Put -> Value -> outcome Put
}.

Definition withCheck (check : Value -> outcome (option Long.t))
    (write : Put -> Value -> option Long.t -> Put) : Marshaller :=
  {| check := check;
     marshall := fun ps data => let* checked := check data in Done (write ps data checked) |}.

Definition checkOnly (c : Value -> outcome unit) (data : Value) : outcome (option Long.t) :=
  let* _ := c data in Done None.

Definition writeString (ps : Put) (data : Value) (_ : option Long.t) : Put :=
  let ps := align ps 4 in
  let buff := Buffer.utf8 (asString data) in
  let size := Z.of_nat (List.length buff) in
  advance (word8 (put (word32le ps size) buff) 0) (5 + size).

Definition writeSignature (ps : Put) (data : Value) (_ : option Long.t) : Put :=
  let buff := Buffer.ascii (asString data) in
  let ps := word8 (put (word8 ps (Z.of_nat (String.length (asString data)))) buff) 0 in
  advance ps (2 + Z.of_nat (List.length buff)).

Definition writeLong (ps : Put) (_ : Value) (checked : option Long.t) : Put :=
  let longData := match checked with Some l => l | None => Long.ZERO end in
  let ps := align ps 8 in
  advance (word32le (word32le ps (Long.low longData)) (Long.high longData)) 8.

(** The truth value of [data ? 1 : 0]. *)
Definition truthy (data : Value) : bool :=
  match data with
  | VUndefined => false
  | VBoolean b => b
  | VNumber (Int 0) | VNumber NaN => false
  | VString EmptyString => false
  | _ => true
  end.

(** [MakeSimpleMarshaller(signature)]. *)
Definition MakeSimpleMarshaller (signature : string) : outcome Marshaller :=
  if String.eqb signature "o" || String.eqb signature "s" then
    Done (withCheck (checkOnly checkValidString) writeString)
  else if String.eqb signature "g" then
    Done (withCheck
            (checkOnly (fun data =>
               let* _ := checkValidString data in checkValidSignature (asString data)))
            writeSignature)
  else if String.eqb signature "y" then
    Done (withCheck
            (checkOnly (fun data =>
               let* _ := checkInteger data in checkRange 0 255 (asNumber data)))
            (fun ps data _ => advance (word8 ps (asInteger data)) 1))
  else if String.eqb signature "b" then
    Done (withCheck (checkOnly checkBoolean)
            (fun ps data _ =>
               let val := if truthy data then 1 else 0 in
               advance (word32le (align ps 4) val) 4))
  else if String.eqb signature "n" then
    Done (withCheck
            (checkOnly (fun data =>
               let* _ := checkInteger data in
               checkRange (- 32767 - 1) 32767 (asNumber data)))
            (fun ps data _ =>
               advance (put (align ps 2) (Buffer.bytesLE 2 (asInteger data))) 2))
  else if String.eqb signature "q" then
    Done (withCheck
            (checkOnly (fun data =>
               let* _ := checkInteger data in checkRange 0 65535 (asNumber data)))
            (fun ps data _ => advance (word16le (align ps 2) (asInteger data)) 2))
  else if String.eqb signature "i" then
    Done (withCheck
            (checkOnly (fun data =>
               let* _ := checkInteger data in
               checkRange (- 2147483647 - 1) 2147483647 (asNumber data)))
            (fun ps data _ =>
               advance (put (align ps 4) (Buffer.bytesLE 4 (asInteger data))) 4))
  else if String.eqb signature "u" then
    Done (withCheck
            (checkOnly (fun data =>
               let* _ := checkInteger data in checkRange 0 4294967295 (asNumber data)))
            (fun ps data _ => advance (word32le (align ps 4) (asInteger data)) 4))
  else if String.eqb signature "t" then
    Done (withCheck
            (fun data => let* l := checkLong data false in Done (Some l)) writeLong)
  else if String.eqb signature "x" then
    Done (withCheck
            (fun data => let* l := checkLong data true in Done (Some l)) writeLong)
  else if String.eqb signature "d" then
    Done (withCheck
            (checkOnly (fun data =>
               match data with
               | VNumber NaN => Throw NotANumber
               | VNumber (Infinity _) => Throw OutsideRange
               | VNumber _ => Done tt
               | _ => Throw NotNumber
               end))
            (fun ps data _ =>
               advance (put (align ps 8) (Buffer.doubleLE (asNumber data))) 8))
  else Throw UnknownFormat.

End Marshallers.

(** ** The type-directed marshaller ([lib/marshall]) *)

Module Marshall.
Import Signature Marshallers.

(** Modelled from the spec: [writeSimple(ps, type, data)] of [lib/marshall],
    which is not among the sources: the marshaller of the basic type, made
    by [MakeSimpleMarshaller], writes the value. *)
Definition writeSimple (ps : Put) (type : ascii) (data : Value) : outcome Put :=
  let* simpleMarshaller := MakeSimpleMarshaller (String type EmptyString) in
  marshall simpleMarshaller ps data.

(** Modelled from the spec: the element types of [lib/marshall] (not among
    the sources) whose alignment is 8, so that an array of them pads after
    its length field (section 4.2). *)
Definition aligned8 (type : ascii) : bool :=
  existsb (Ascii.eqb type) ["x"; "t"; "d"; "{"; "("]%char.

(** Modelled from the spec: [lib/marshall], the driver [marshall(signature,
    data, offset)] with its [write] and [writeStruct], is not among the
    sources (the basic-type marshallers it calls are, and are embedded
    above).  After section 4.2: every value is written at the natural
    alignment of its type, structs and dict entries at 8; an array reserves
    a u32 length slot, aligns to its element, encodes the elements and then
    back-patches the length with the size of the elements alone; a variant
    [[signature, value]] writes its signature, then the value under that
    signature, which must hold a single type. *)
Fixpoint write (ps : Put) (ele : SignatureNode) (data : Value) {struct data}
  : outcome Put :=
  let t := Signature.type ele in
  if Ascii.eqb t "(" || Ascii.eqb t "{" then
    match data with
    | VArray items =>
      if negb (List.length (child ele) =? List.length items)%nat then Throw InvalidStruct
      else
        (fix writeStruct (ps : Put) (tree : list SignatureNode) (items : list Value)
           {struct items} : outcome Put :=
           match tree, items with
           | ele :: tree, data :: items =>
             let* ps := write ps ele data in writeStruct ps tree items
           | _, _ => Done ps
           end) (align ps 8) (child ele) items
    | _ => Throw InvalidStruct
    end
  else if Ascii.eqb t "a" then
    match child ele, data with
    | element :: _, VArray items =>
      let arrPut := setOffset newPut (_offset ps) in
      let* arrPut := writeSimple arrPut "u" (VNumber (Int 0)) in
      let lengthOffset := _offset arrPut - 4 - _offset ps in
      let arrPut := if aligned8 (Signature.type element) then align arrPut 8 else arrPut in
      let startOffset := _offset arrPut in
      let* arrPut :=
        (fix writeElements (arrPut : Put) (items : list Value) {struct items}
           : outcome Put :=
           match items with
           | data :: items =>
             let* arrPut := write arrPut element data in writeElements arrPut items
           | [] => Done arrPut
           end) arrPut items in
      let length := _offset arrPut - startOffset in
      if (length <? 0) || (4294967295 <? length) then Throw RangeError
      else
        let arrBuff :=
          Buffer.copy (Buffer.bytesLE 4 length) (buffer arrPut) (Z.to_nat lengthOffset) in
        Done (advance (put ps arrBuff) (Z.of_nat (List.length arrBuff)))
    | _, _ => Throw TypeError
    end
  else if Ascii.eqb t "v" then
    match data with
    | VArray [VString signature; value] =>
      let* ps := writeSimple ps "g" (VString signature) in
      let* tree := parseSignature signature in
      match tree with
      | [single] => write ps single value
      | _ => Throw BadVariant
      end
    | VArray [_; _] => Throw NotString
    | _ => Throw BadVariant
    end
  else writeSimple ps t data.

(** The stream after a header field [(yv)] whose variant holds a string:
    padding to 8, the id, the signature and the string. *)
Definition putStringField (ps : Put) (id : Z) (signature value : string) : Put :=
  writeString (writeSignature (advance (word8 (align ps 8) id) 1) (VString signature) None)
    (VString value) None.

(** Modelled from the spec: [writeStruct(ps, tree, data)] of [lib/marshall]
    (not among the sources): the values one after the other, each under its
    type. *)
Fixpoint writeStruct (ps : Put) (tree : list SignatureNode) (data : list Value)
  : outcome Put :=
  match tree, data with
  | ele :: tree, item :: data =>
    let* ps := write ps ele item in writeStruct ps tree data
  | _, _ => Done ps
  end.

(** Modelled from the spec: [marshall(signature, data, offset)] of
    [lib/marshall] (not among the sources), after the contract of section
    4.2: the bytes of the values [data] under [signature], the first of
    them standing at [offset]. *)
Definition marshall (signature : string) (data : Value) (offset : Z)
  : outcome (list Z) :=
  let* tree := parseSignature signature in
  match data with
  | VArray items =>
    if negb (List.length tree =? List.length items)%nat then Throw BodyMismatch
    else
      let putstream := setOffset newPut offset in
      let* ps := writeStruct putstream tree items in
      Done (buffer ps)
  | _ => Throw BodyMismatch
  end.

End Marshall.

(** ** Constants ([lib/constants]) *)

Module Constants.

Definition methodCall : Z := 1.
Definition protocolVersion : Z := 1.
Definition le : Z := 108.

(** [headerTypeName]: the header fields by type id; index 0 is unused. *)
Definition headerTypeName : list (option string) :=
  [None; Some "path"; Some "interface"; Some "member"; Some "errorName";
   Some "replySerial"; Some "destination"; Some "sender"; Some "signature"]%string.

Definition fieldSignature : gmap string string :=
  list_to_map
    [("path", "o"); ("interface", "s"); ("member", "s"); ("errorName", "s");
     ("replySerial", "u"); ("destination", "s"); ("sender", "s");
     ("signature", "g")]%string.

Definition headerTypeId : gmap string Z :=
  list_to_map
    [("path", 1); ("interface", 2); ("member", 3); ("errorName", 4);
     ("replySerial", 5); ("destination", 6); ("sender", 7);
     ("signature", 8)]%string.

End Constants.

(** ** Message codec ([lib/message]) *)

Module Message.
Import Marshallers Constants.

(** [interface DBusMessage]: an object read by field name, [message[fieldName]]. *)
Abbreviation DBusMessage := (gmap string Value).

Definition field (message : DBusMessage) (name : string) : Value :=
  match message !! name with
  | Some value => value
  | None => VUndefined
  end.

(** [a || b]. *)
Definition orElse (a b : Value) : Value := if truthy a then a else b.

(** The entry [[id, [signature, value]]] that [forEach] pushes for a field
    that is set. *)
Definition headerField (message : DBusMessage) (fieldName : option string)
  : list Value :=
  match fieldName with
  | None => []
  | Some fieldName =>
    let fieldVal := field message fieldName in
    if truthy fieldVal then
      [VArray [match headerTypeId !! fieldName with
               | Some id => VNumber (Int id) | None => VUndefined end;
               VArray [match fieldSignature !! fieldName with
                       | Some signature => VString signature | None => VUndefined end;
                       fieldVal]]]
    else []
  end.

Definition headerFields (message : DBusMessage) : list Value :=
  flat_map (headerField message) headerTypeName.

(** The entry [[id, [signature, value]]] of a header field that holds a
    string. *)
Definition stringField (id : Z) (signature value : string) : Value :=
  VArray [VNumber (Int id); VArray [VString signature; VString value]].

(** A name that can stand in a header field: not empty, which makes it a
    set field, and without a NUL character, which the marshaller of strings
    demands. *)
Definition noNul (s : string) : bool :=
  negb (existsb (Ascii.eqb zero) (list_ascii_of_string s)).

Definition validName (s : string) : bool :=
  negb (String.eqb s "") && noNul s.

(** [marshall(message)]. *)
Definition marshall (message : DBusMessage) : outcome (list Z) :=
  if negb (truthy (field message "serial")) then Throw MissingSerial
  else
    let flags := orElse (field message "flags") (VNumber (Int 0)) in
    let type := orElse (field message "type") (VNumber (Int methodCall)) in
    let* bodyBuff :=
      (if truthy (field message "signature") && truthy (field message "body") then
         match field message "signature" with
         | VString signature => Marshall.marshall signature (field message "body") 0
         | _ => Throw TypeError
         end
       else Done []) in
    let bodyLength := Z.of_nat (List.length bodyBuff) in
    let header :=
      VArray [VNumber (Int le); type; flags; VNumber (Int protocolVersion);
              VNumber (Int bodyLength); field message "serial"] in
    let* headerBuff := Marshall.marshall "yyyyuu" header 0 in
    let fields := headerFields message in
    let* fieldsBuff := Marshall.marshall "a(yv)" (VArray [VArray fields]) 12 in
    let headerLenAligned :=
      shl (sar (Z.of_nat (List.length headerBuff) + Z.of_nat (List.length fieldsBuff) + 7) 3) 3 in
    let messageLen := headerLenAligned + bodyLength in
    if messageLen <? 0 then Throw RangeError
    else
      let messageBuff := Buffer.alloc messageLen in
      let messageBuff := Buffer.copy headerBuff messageBuff 0 in
      let messageBuff := Buffer.copy fieldsBuff messageBuff (List.length headerBuff) in
      let messageBuff :=
        if 0 <? bodyLength
        then Buffer.copy bodyBuff messageBuff (Z.to_nat headerLenAligned)
        else messageBuff in
      Done messageBuff.

End Message.

(** ** Event emitters *)

(** Node's [EventEmitter], as far as the proxy uses the one of the bus: for
    each event name the listeners, oldest first.  A listener is a function,
    compared by identity: it is modelled by a number. *)
Module EventEmitter.

(** [emitter.listeners(event)]. *)
Definition listeners (emitter : gmap string (list nat)) (event : string) : list nat :=
  default [] (emitter !! event).

(** [emitter.on(event, listener)]: the listener is added at the end. *)
Definition on (emitter : gmap string (list nat)) (event : string) (listener : nat)
  : gmap string (list nat) :=
  <[event := listeners emitter event ++ [listener]]> emitter.

Fixpoint removeFirst (listener : nat) (l : list nat) : list nat :=
  match l with
  | [] => []
  | x :: l => if (x =? listener)%nat then l else x :: removeFirst listener l
  end.

(** [emitter.removeListener(event, listener)]: the most recently added
    occurrence of the listener is removed. *)
Definition removeListener (emitter : gmap string (list nat)) (event : string)
    (listener : nat) : gmap string (list nat) :=
  <[event := rev (removeFirst listener (rev (listeners emitter event)))]> emitter.

End EventEmitter.

(** ** Introspection proxy ([lib/introspect]) *)

Module Introspect.

(** [class DBusError]. *)
Record DBusError : Type := mkDBusError { errorName : string; errorMessage : string }.

Record DBusMethodInfo : Type :=
  mkMethod { methodName : string; inSignature : string; outSignature : string }.

Inductive Access : Type := read | write | readwrite.

Record DBusPropertyInfo : Type :=
  mkProperty { propertyName : string; propertyType : string; access : Access }.

Record DBusSignalInfo : Type :=
  mkSignal { signalName : string; signalSignature : string }.

(** [interface DBusMessage] of this module: what the proxy hands to
    [bus.invoke]. *)
Record DBusMessage : Type := mkMessage {
  destination : string;
  path : string;
  interface : string;
  member : string;
  signature : option string;
  body : option (list Value)
}.

(** [interface DBusObject], without the bus, which the operations below
    take as an argument. *)
Record DBusObject : Type := mkObject { objectName : string; serviceName : string }.

(** [class DBusInterface].  A signal handler is a function, compared by
    identity: it is modelled by a number, and so is the closure that wraps
    it; [allocated] counts the closures created so far. *)
Record DBusInterface : Type := mkInterface {
  name : string;
  methods : gmap string DBusMethodInfo;
  properties : gmap string DBusPropertyInfo;
  signals : gmap string DBusSignalInfo;
  parent : DBusObject;
  handlerMap : gmap nat nat;
  allocated : nat
}.

(** A call [callback(error, result)] of the caller's callback; a missing
    second argument is [VUndefined]. *)
Inductive Completion : Type :=
| Completed (error : option DBusError) (result : Value).

(** What one of [call], [getProperty] and [setProperty] does: it hands a
    message to [bus.invoke] together with a function of the reply, calls the
    caller's callback at once, or does nothing.  The function of the reply
    tells which call of the caller's callback the reply leads to, if any. *)
Inductive Effect : Type :=
| Invoke (message : DBusMessage)
         (onReply : option DBusError -> Value -> outcome (option Completion))
| Complete (c : Completion)
| Idle.

Definition passOn (error : option DBusError) (result : Value)
  : outcome (option Completion) := Done (Some (Completed error result)).

(** A text between double quotes. *)
Definition quoted (s : string) : string :=
  String (ascii_of_nat 34) (s +:+ String (ascii_of_nat 34) EmptyString).

(** [call(methodName, args, callback)]. *)
Definition call (this : DBusInterface) (methodName : string) (args : list Value)
  : Effect :=
  let methodInfo := methods this !! methodName in
  let message :=
    {| destination := serviceName (parent this);
       path := objectName (parent this);
       interface := name this;
       member := methodName;
       signature := None;
       body := None |} in
  let message :=
    match methodInfo with
    | Some methodInfo =>
      if negb (String.eqb (inSignature methodInfo) "") then
        {| destination := destination message; path := path message;
           interface := interface message; member := member message;
           signature := Some (inSignature methodInfo);
           body := Some args |}
      else message
    | None => message
    end in
  Invoke message passOn.

(** [x.length] and [x[i]] of a value; [None] and [VUndefined] are
    [undefined]. *)
Definition lengthOf (x : Value) : outcome (option Z) :=
  match x with
  | VUndefined => Throw TypeError
  | VString s | VStringObject s => Done (Some (Z.of_nat (String.length s)))
  | VArray items => Done (Some (Z.of_nat (List.length items)))
  | _ => Done None
  end.

Definition item (x : Value) (i : nat) : outcome Value :=
  match x with
  | VUndefined => Throw TypeError
  | VString s | VStringObject s =>
    Done (match String.get i s with
          | Some c => VString (String c EmptyString)
          | None => VUndefined
          end)
  | VArray items => Done (nth i items VUndefined)
  | _ => Done VUndefined
  end.

(** The callback that [getProperty] gives to [bus.invoke]. *)
Definition unwrapVariant (error : option DBusError) (result : Value)
  : outcome (option Completion) :=
  match error with
  | Some e => Done (Some (Completed (Some e) VUndefined))
  | None =>
    let variant := result in
    let* signature := item variant 0 in
    let* value := item variant 1 in
    let* size := lengthOf signature in
    if bool_decide (size = Some 1) then
      let* unwrapped := item value 0 in
      Done (Some (Completed None unwrapped))
    else Done (Some (Completed None value))
  end.

(** [getProperty(propertyName, callback)]. *)
Definition getProperty (this : DBusInterface) (propertyName : string) : Effect :=
  Invoke
    {| destination := serviceName (parent this);
       path := objectName (parent this);
       interface := "org.freedesktop.DBus.Properties";
       member := "Get";
       signature := Some "ss"%string;
       body := Some [VString (name this); VString propertyName] |}
    unwrapVariant.

(** [setProperty(propertyName, value, callback)]; [callback] tells whether
    the optional callback was given. *)
Definition setProperty (this : DBusInterface) (propertyName : string)
    (value : Value) (callback : bool) : Effect :=
  match properties this !! propertyName with
  | None =>
    let error :=
      mkDBusError "org.freedesktop.DBus.Error.UnknownProperty"
        ("Property " +:+ quoted propertyName +:+ " not found on interface "
         +:+ quoted (name this)) in
    if callback then Complete (Completed (Some error) VUndefined) else Idle
  | Some propertyInfo =>
    Invoke
      {| destination := serviceName (parent this);
         path := objectName (parent this);
         interface := "org.freedesktop.DBus.Properties";
         member := "Set";
         signature := Some "ssv"%string;
         body := Some [VString (name this); VString propertyName;
                       VArray [VString (propertyType propertyInfo); value]] |}
      (if callback then passOn else fun _ _ => Done None)
  end.

(** [getMatchRule(objectPath, interfaceName, signalName)]. *)
Definition getMatchRule (objectPath interfaceName signalName : string) : string :=
  "type='signal',path='" +:+ objectPath +:+ "',interface='" +:+ interfaceName
  +:+ "',member='" +:+ signalName +:+ "'".

(** A method call to the broker. *)
Inductive BrokerCall : Type :=
| AddMatch (rule : string)
| RemoveMatch (rule : string).

(** [interface Bus], as far as [on] and [off] use it: the [mangle] method,
    the event emitter [signals] and the state behind [addMatch] and
    [removeMatch].  [broker] tells how the broker answers a call: [None] is
    success. *)
Module Bus.

Record t : Type := mk {
  mangle : string -> string -> string -> string;
  broker : BrokerCall -> option DBusError;
  signals : gmap string (list nat);
  matchRules : gmap string nat;
  brokerCalls : list BrokerCall
}.

Definition withSignals (bus : t) (emitter : gmap string (list nat)) : t :=
  {| mangle := mangle bus; broker := broker bus; signals := emitter;
     matchRules := matchRules bus; brokerCalls := brokerCalls bus |}.

Definition withRules (bus : t) (rules : gmap string nat) (calls : list BrokerCall) : t :=
  {| mangle := mangle bus; broker := broker bus; signals := signals bus;
     matchRules := rules; brokerCalls := calls |}.

(** Modelled from the spec: the session engine ([bus.addMatch] and
    [bus.removeMatch]) is not among the sources.  After sections 4.8 and 5:
    [addMatch(rule)] increments a reference count and, on the transition
    from 0 to 1, calls the broker's [AddMatch]; a first add that meets
    another one in flight makes no second call; the completion callback
    runs later, when the broker has confirmed; [removeMatch] is symmetric
    on the transition from 1 to 0.  The functions return the bus after the
    call and the error that the callback will be given. *)
Definition addMatch (bus : t) (rule : string) : t * option DBusError :=
  let count := default O (matchRules bus !! rule) in
  let rules := <[rule := S count]> (matchRules bus) in
  match count with
  | O => (withRules bus rules (brokerCalls bus ++ [AddMatch rule]), broker bus (AddMatch rule))
  | S _ => (withRules bus rules (brokerCalls bus), None)
  end.

(** Modelled from the spec: [bus.removeMatch] of the session engine (not
    among the sources), symmetric to [addMatch] (section 4.8): the broker's
    [RemoveMatch] is called on the transition from 1 to 0. *)
Definition removeMatch (bus : t) (rule : string) : t * option DBusError :=
  match default O (matchRules bus !! rule) with
  | O => (bus, None)
  | S O =>
    (withRules bus (<[rule := O]> (matchRules bus)) (brokerCalls bus ++ [RemoveMatch rule]),
     broker bus (RemoveMatch rule))
  | S count => (withRules bus (<[rule := count]> (matchRules bus)) (brokerCalls bus), None)
  end.

End Bus.

Definition withHandlers (this : DBusInterface) (m : gmap nat nat) (n : nat)
  : DBusInterface :=
  {| name := name this; methods := methods this; properties := properties this;
     signals := signals this; parent := parent this; handlerMap := m; allocated := n |}.

(** The wrapped handler of [handler]: the one in [handlerMap], or a new
    closure that is entered there. *)
Definition wrapHandler (this : DBusInterface) (handler : nat) : DBusInterface * nat :=
  match handlerMap this !! handler with
  | Some wrappedHandler => (this, wrappedHandler)
  | None =>
    let wrappedHandler := allocated this in
    (withHandlers this (<[handler := wrappedHandler]> (handlerMap this))
       (S (allocated this)),
     wrappedHandler)
  end.

(** A callback that [on] or [off] has given to the bus and that has not run
    yet: the variables of its closure and the error that the bus will call
    it with. *)
Inductive Pending : Type :=
| AddMatchCallback (signalFullName : string) (wrappedHandler : nat)
                   (error : option DBusError)
| RemoveMatchCallback (handler : nat) (error : option DBusError).

(** [on(signalName, handler)]: the proxy and the bus when [on] returns, and
    the callback that it has given to [bus.addMatch], if any. *)
Definition on (this : DBusInterface) (bus : Bus.t) (signalName : string) (handler : nat)
  : DBusInterface * Bus.t * option Pending :=
  let signalFullName := Bus.mangle bus (objectName (parent this)) (name this) signalName in
  let '(this, wrappedHandler) := wrapHandler this handler in
  if bool_decide (List.length (EventEmitter.listeners (Bus.signals bus) signalFullName) = O)
  then
    let match_ := getMatchRule (objectName (parent this)) (name this) signalName in
    let '(bus, error) := Bus.addMatch bus match_ in
    (this, bus, Some (AddMatchCallback signalFullName wrappedHandler error))
  else
    (this,
     Bus.withSignals bus (EventEmitter.on (Bus.signals bus) signalFullName wrappedHandler),
     None).

(** [off(signalName, handler)]: the proxy and the bus when [off] returns,
    and the callback that it has given to [bus.removeMatch], if any. *)
Definition off (this : DBusInterface) (bus : Bus.t) (signalName : string) (handler : nat)
  : DBusInterface * Bus.t * option Pending :=
  let signalFullName := Bus.mangle bus (objectName (parent this)) (name this) signalName in
  match handlerMap this !! handler with
  | None => (this, bus, None)
  | Some wrappedHandler =>
    let bus :=
      Bus.withSignals bus
        (EventEmitter.removeListener (Bus.signals bus) signalFullName wrappedHandler) in
    if bool_decide (List.length (EventEmitter.listeners (Bus.signals bus) signalFullName) = O)
    then
      let match_ := getMatchRule (objectName (parent this)) (name this) signalName in
      let '(bus, error) := Bus.removeMatch bus match_ in
      (this, bus, Some (RemoveMatchCallback handler error))
    else (this, bus, None)
  end.

(** The bus calls a callback, when the broker has answered: the callback of
    [on] registers the listener, that of [off] forgets the handler; with an
    error, each throws a [DBusError]. *)
Definition run (this : DBusInterface) (bus : Bus.t) (callback : Pending)
  : DBusInterface * Bus.t * option DBusError :=
  match callback with
  | AddMatchCallback signalFullName wrappedHandler None =>
    (this,
     Bus.withSignals bus (EventEmitter.on (Bus.signals bus) signalFullName wrappedHandler),
     None)
  | RemoveMatchCallback handler None =>
    (withHandlers this (delete handler (handlerMap this)) (allocated this), bus, None)
  | AddMatchCallback _ _ (Some error) | RemoveMatchCallback _ (Some error) =>
    (this, bus, Some (mkDBusError (errorName error) (errorMessage error)))
  end.

(** [addListener] and [removeListener] are [on] and [off]. *)
Definition addListener := on.
Definition removeListener := off.

End Introspect.

(** ** The shape of parsed signatures *)

Module Shape.
Import Signature.

(** The shape of the nodes that [parseOne] builds: the type is one of
    [KNOWN_TYPES]; an array has its element as only child; a struct or dict
    entry has children none of which is its closing bracket; any other type
    has no child. *)
Fixpoint shaped (n : SignatureNode) : bool :=
  match n with
  | Node t children =>
    KNOWN_TYPES t
    && (if Ascii.eqb t "a" then (List.length children =? 1)%nat
        else match BRACKET_PAIRS t with
             | Some closing => forallb (fun c => negb (Ascii.eqb (type c) closing)) children
             | None => (List.length children =? 0)%nat
             end)
    && forallb shaped children
  end.

(** The parser reads back the rendering of a node, whatever follows it. *)
Definition reads_back (n : SignatureNode) : Prop :=
  exists fuel, forall extra,
    parseOne fuel (type n) (tl (render n) ++ extra) = Done (n, extra).

End Shape.

(** ** Chains of writes on a put-stream *)

Module PutStream.

(** A call of one of the four writing methods of [Put]; each returns [this],
    so that calls are chained: [ps.word32le(n).put(buff).word8(0)]. *)
Inductive Call : Type :=
| CallPut (buffer : list Z)
| CallWord8 (value : Z)
| CallWord16le (value : Z)
| CallWord32le (value : Z).

Definition call (ps : Put) (c : Call) : Put :=
  match c with
  | CallPut buffer => put ps buffer
  | CallWord8 value => word8 ps value
  | CallWord16le value => word16le ps value
  | CallWord32le value => word32le ps value
  end.

Definition chain (ps : Put) (calls : list Call) : Put := fold_left call calls ps.

(** The [count] low bytes of an integer, least significant first. *)
Definition lowBytes (count : nat) (value : Z) : list Z :=
  map (fun i => (value / 256 ^ Z.of_nat i) mod 256) (seq 0 count).

(** The bytes that a call stands for. *)
Definition written (c : Call) : list Z :=
  match c with
  | CallPut buffer => buffer
  | CallWord8 value => lowBytes 1 value
  | CallWord16le value => lowBytes 2 value
  | CallWord32le value => lowBytes 4 value
  end.

End PutStream.

(** ** The variants of [align] in the benchmark ([bench/align.bench]) *)

(** The class [RealisticPutStream] of the benchmark has the fields of [Put]
    ([length] for [_length]) and its methods [put] and [word8]; it is
    represented by [Put]. *)
Module AlignBench.

Definition alignCurrent (ps : Put) (alignment : Z) : Put :=
  let pad := alignment - Z.rem (_offset ps) alignment in
  if (pad =? 0) || (pad =? alignment) then ps
  else
    let padBuffer := Buffer.alloc pad in
    advance (put ps padBuffer) pad.

(** [for (let i = 0; i < pad; i++) ps.word8(0)]. *)
Definition alignLoop (ps : Put) (alignment : Z) : Put :=
  let pad := alignment - Z.rem (_offset ps) alignment in
  if (pad =? 0) || (pad =? alignment) then ps
  else advance (Nat.iter (Z.to_nat pad) (fun ps => word8 ps 0) ps) pad.

Definition MAX_PAD_SIZE : Z := 7.
Definition PREALLOC_BUFFER : list Z := Buffer.alloc MAX_PAD_SIZE.

(** [buffer.subarray(0, end)]: the end is clamped to the length, and a
    negative end counts from the end of the buffer. *)
Definition subarray (buffer : list Z) (end_ : Z) : list Z :=
  let size := Z.of_nat (List.length buffer) in
  let stop := if end_ <? 0 then Z.max (size + end_) 0 else Z.min end_ size in
  firstn (Z.to_nat stop) buffer.

Definition alignPrealloc (ps : Put) (alignment : Z) : Put :=
  let pad := alignment - Z.rem (_offset ps) alignment in
  if (pad =? 0) || (pad =? alignment) then ps
  else advance (put ps (subarray PREALLOC_BUFFER pad)) pad.

(** [Buffer.from(buffer)] copies the bytes. *)
Definition alignPreallocCopy (ps : Put) (alignment : Z) : Put :=
  let pad := alignment - Z.rem (_offset ps) alignment in
  if (pad =? 0) || (pad =? alignment) then ps
  else
    let padBuffer := subarray PREALLOC_BUFFER pad in
    advance (put ps padBuffer) pad.

(** What a stream holds: its bytes, its length and its offset. *)
Definition state (ps : Put) : list Z * Z * Z := (contents ps, _length ps, _offset ps).

End AlignBench.

(** ** The layout of the basic types *)

Module Layout.

(** [ps'] extends [ps] by the bytes [added]: they follow the bytes of [ps],
    and the length and the offset have grown by their number. *)
Definition extends (ps ps' : Put) (added : list Z) : Prop :=
  contents ps' = contents ps ++ added /\
  _length ps' = _length ps + Z.of_nat (List.length added) /\
  _offset ps' = _offset ps + Z.of_nat (List.length added).

(** The padding before a value of alignment [n] at offset [k]. *)
Definition padding (n k : Z) : nat := Z.to_nat ((n - k mod n) mod n).

(** The width of the types of fixed size, which is their alignment too. *)
Definition width (signature : string) : option Z :=
  if String.eqb signature "y" then Some 1
  else if String.eqb signature "n" || String.eqb signature "q" then Some 2
  else if String.eqb signature "b" || String.eqb signature "i" || String.eqb signature "u"
  then Some 4
  else if String.eqb signature "x" || String.eqb signature "t" || String.eqb signature "d"
  then Some 8
  else None.

(** The integer types of at most 32 bits, with the bounds that their
    marshallers give to [checkRange]. *)
Inductive IntegerType : Type := BYTE | INT16 | UINT16 | INT32 | UINT32.

Definition code (t : IntegerType) : string :=
  match t with
  | BYTE => "y" | INT16 => "n" | UINT16 => "q" | INT32 => "i" | UINT32 => "u"
  end.

Definition minValue (t : IntegerType) : Z :=
  match t with
  | BYTE | UINT16 | UINT32 => 0
  | INT16 => - 0x7fff - 1
  | INT32 => - 0x7fffffff - 1
  end.

Definition maxValue (t : IntegerType) : Z :=
  match t with
  | BYTE => 0xff | INT16 => 0x7fff | UINT16 => 0xffff
  | INT32 => 0x7fffffff | UINT32 => 0xffffffff
  end.

Definition bytes (t : IntegerType) : nat :=
  match t with
  | BYTE => 1 | INT16 | UINT16 => 2 | INT32 | UINT32 => 4
  end%nat.

(** The number that a boolean field stands for, for the values that
    [checkBoolean] lets through. *)
Definition booleanValue (data : Value) : option Z :=
  match data with
  | VBoolean true | VNumber (Int 1) => Some 1
  | VBoolean false | VNumber (Int 0) => Some 0
  | _ => None
  end.

(** The nesting of parentheses after a text: opening ones less closing
    ones. *)
Fixpoint depth (text : list ascii) : Z :=
  match text with
  | [] => 0
  | c :: text =>
    (if Ascii.eqb c "(" then 1 else if Ascii.eqb c ")" then -1 else 0) + depth text
  end.

End Layout.

(** ** Readable streams *)

(** Node's [Readable], as far as [unmarshalMessages] and [readOneLine] use
    it: a stream that has not ended is the list of the bytes that have
    arrived and have not been read yet. *)
Module Readable.

(** The largest [size] that [read] accepts: 1 GiB. *)
Definition MAX_HWM : Z := 0x40000000.

(** [stream.read(size)]: the first [size] bytes, which leave the stream, when
    as many have arrived; [null] when they have not, and always when [size]
    is not positive; a [size] above 1 GiB is refused with a [RangeError]. *)
Definition read (stream : list Z) (size : Z) : outcome (option (list Z * list Z)) :=
  if MAX_HWM <? size then Throw RangeError
  else if (0 <? size) && (size <=? Z.of_nat (List.length stream))
  then Done (Some (firstn (Z.to_nat size) stream, skipn (Z.to_nat size) stream))
  else Done None.

(** [buffer.readUInt8(offset)] and [buffer.readUInt32LE(offset)]; outside the
    buffer they throw a [RangeError]. *)
Definition readUInt8 (buffer : list Z) (offset : nat) : outcome Z :=
  match nth_error buffer offset with
  | Some byte => Done byte
  | None => Throw RangeError
  end.

Definition readUInt32LE (buffer : list Z) (offset : nat) : outcome Z :=
  let* b0 := readUInt8 buffer offset in
  let* b1 := readUInt8 buffer (offset + 1) in
  let* b2 := readUInt8 buffer (offset + 2) in
  let* b3 := readUInt8 buffer (offset + 3) in
  Done (b0 + 2 ^ 8 * b1 + 2 ^ 16 * b2 + 2 ^ 24 * b3).

End Readable.

(** ** Framing of incoming messages ([unmarshalMessages] of [lib/message]) *)

Module Framing.
Import Readable Constants.

(** The variables of the closure of [unmarshalMessages].  The lengths are
    assigned before they are read; until then they are taken as 0. *)
Record Variables : Type := mkVariables {
  state : Z;
  header : option (list Z);
  fieldsLength : Z;
  fieldsLengthPadded : Z;
  fieldsAndBodyLength : Z;
  bodyLength : Z
}.

Definition initial : Variables :=
  {| state := 0; header := None; fieldsLength := 0; fieldsLengthPadded := 0;
     fieldsAndBodyLength := 0; bodyLength := 0 |}.

(** What a [readable] event leaves: the messages given to [onMessage], the
    variables, the bytes still in the stream and the exception that ended
    the handler, if any. *)
Record Result : Type := mkResult {
  delivered : list (gmap string Value);
  variables : Variables;
  unread : list Z;
  thrown : option Error
}.

(** The loop over the header fields, as [unmarshall] and [unmarshalMessages]
    both have it: [message[headerName] = entry[1][1][0]] for every entry
    whose id names a field.  An entry is the pair of its id, a byte, and its
    variant. *)
Fixpoint assignHeaders (message : gmap string Value) (entries : list (Z * Value))
  : outcome (gmap string Value) :=
  match entries with
  | [] => Done message
  | (id, variant) :: entries =>
    match nth (Z.to_nat id) headerTypeName None with
    | Some headerName =>
      let* inner := Introspect.item variant 1 in
      let* value := Introspect.item inner 0 in
      assignHeaders (<[headerName := value]> message) entries
    | None => assignHeaders message entries
    end
  end.

(** The keys that a message from [unmarshalMessages] can have. *)
Definition messageKeys : list string :=
  ["serial"; "type"; "flags"; "body"; "path"; "interface"; "member"; "errorName";
   "replySerial"; "destination"; "sender"; "signature"]%string.

(** The outcome of a call that returns or throws. *)
Definition returned {A : Type} (r : Error + A) : outcome A :=
  match r with
  | inl e => Throw e
  | inr a => Done a
  end.

(** The first branch of the loop, after its [read]: the lengths that the
    header announces. *)
Definition announce (v : Variables) (header : list Z) : outcome Variables :=
  let* fieldsLength := readUInt32LE header 12 in
  let fieldsLengthPadded := shl (sar (fieldsLength + 7) 3) 3 in
  let* bodyLength := readUInt32LE header 4 in
  Done (mkVariables 1 (Some header) fieldsLength fieldsLengthPadded
          (fieldsLengthPadded + bodyLength) bodyLength).

(** A frame: sixteen bytes of header, then as many bytes as the header
    announces, more than none and not more than [read] accepts. *)
Definition framed (header fieldsAndBody : list Z) : Prop :=
  List.length header = 16%nat /\
  fieldsAndBody <> [] /\
  Z.of_nat (List.length fieldsAndBody) <= MAX_HWM /\
  exists v, announce initial header = Done v /\
            fieldsAndBodyLength v = Z.of_nat (List.length fieldsAndBody).

Section WithBuffer.

(** [lib/dbus-buffer] is not among the sources: its class is a parameter,
    with the methods that [unmarshalMessages] calls; each returns or
    throws. *)
Context {DBusBuffer : Type}.
Variable newDBusBuffer : list Z -> DBusBuffer.
Variable readArray : DBusBuffer -> Z -> Error + (list (Z * Value) * DBusBuffer).
Variable alignTo : DBusBuffer -> Z -> DBusBuffer.
Variable readBody : DBusBuffer -> Value -> Error + (Value * DBusBuffer).

(** The second branch of the loop, after its [read]: the message that is
    given to [onMessage]. *)
Definition decode (v : Variables) (fieldsAndBody : list Z) : outcome (gmap string Value) :=
  let messageBuffer := newDBusBuffer fieldsAndBody in
  let* (unmarshalledHeader, messageBuffer) :=
    returned (readArray messageBuffer (fieldsLength v)) in
  let messageBuffer := alignTo messageBuffer 3 in
  let message : gmap string Value := ∅ in
  let* header := match header v with
                 | Some header => Done header
                 | None => Throw TypeError
                 end in
  let* serial := readUInt32LE header 8 in
  let message := <["serial"%string := VNumber (Int serial)]> message in
  let* message := assignHeaders message unmarshalledHeader in
  let* type := readUInt8 header 1 in
  let message := <["type"%string := VNumber (Int type)]> message in
  let* flags := readUInt8 header 2 in
  let message := <["flags"%string := VNumber (Int flags)]> message in
  if (0 <? bodyLength v) && Marshallers.truthy (Message.field message "signature") then
    let* (body, _) := returned (readBody messageBuffer (Message.field message "signature")) in
    Done (<["body"%string := body]> message)
  else Done message.

(** The [while (true)] loop of the handler of [readable].  A header of
    sixteen bytes is read without exception, so that the variables after
    one need not be told. *)
Fixpoint loop (fuel : nat) (v : Variables) (stream : list Z)
    (messages : list (gmap string Value)) : outcome Result :=
  match fuel with
  | O => Fuel
  | S fuel =>
    if state v =? 0 then
      match read stream 16 with
      | Done None =>
        Done (mkResult messages
                (mkVariables (state v) None (fieldsLength v) (fieldsLengthPadded v)
                   (fieldsAndBodyLength v) (bodyLength v))
                stream None)
      | Done (Some (header, stream)) =>
        match announce v header with
        | Done v' => loop fuel v' stream messages
        | Throw e =>
          Done (mkResult messages
                  (mkVariables 1 (Some header) (fieldsLength v) (fieldsLengthPadded v)
                     (fieldsAndBodyLength v) (bodyLength v))
                  stream (Some e))
        | Fuel => Fuel
        end
      | Throw e => Done (mkResult messages v stream (Some e))
      | Fuel => Fuel
      end
    else
      match read stream (fieldsAndBodyLength v) with
      | Done None => Done (mkResult messages v stream None)
      | Done (Some (fieldsAndBody, stream)) =>
        let v' := mkVariables 0 (header v) (fieldsLength v) (fieldsLengthPadded v)
                    (fieldsAndBodyLength v) (bodyLength v) in
        match decode v fieldsAndBody with
        | Done message => loop fuel v' stream (messages ++ [message])
        | Throw e => Done (mkResult messages v' stream (Some e))
        | Fuel => Fuel
        end
      | Throw e => Done (mkResult messages v stream (Some e))
      | Fuel => Fuel
      end
  end.

(** The handler of [readable]: one turn of the loop for every read that
    succeeds, and a last one. *)
Definition onReadable (v : Variables) (stream : list Z) : outcome Result :=
  loop (S (List.length stream)) v stream [].

(** The frame of a header and what follows it carries a message: the loop,
    having read them, gives the message to [onMessage]. *)
Definition carries (frame : list Z * list Z) (message : gmap string Value) : Prop :=
  framed (fst frame) (snd frame) /\
  exists v, announce initial (fst frame) = Done v /\
            decode v (snd frame) = Done message.

End WithBuffer.

End Framing.

(** ** Reading a line ([lib/readline]) *)

Module Readline.

Definition NEWLINE_BYTE : Z := 0x0a.

(** What [readOneLine] keeps between two [readable] events: the bytes
    collected so far, and whether [onReadable] still listens. *)
Record Reader : Type := mkReader { collectedBytes : list Z; listening : bool }.

(** What has happened after some events: the reader, the bytes left in the
    stream, the lines given to [callback] and the exceptions of [callback],
    which are emitted as [error] events of the stream.  The stream has a
    listener for [error], so that [stream.emit] returns. *)
Record Trace : Type := mkTrace {
  reader : Reader;
  unread : list Z;
  lines : list (list Z);
  errors : list Error
}.

Section WithCallback.

(** [callback(line)] returns, or throws an error. *)
Variable callback : list Z -> option Error.

(** [onReadable]: [stream.read(1)] takes the first byte of the stream, and
    is [null] when the stream is empty. *)
Fixpoint onReadable (collectedBytes : list Z) (stream : list Z)
    (lines : list (list Z)) (errors : list Error) : Trace :=
  match stream with
  | [] => mkTrace (mkReader collectedBytes true) [] lines errors
  | byte :: stream =>
    if byte =? NEWLINE_BYTE then
      mkTrace (mkReader collectedBytes false) stream (lines ++ [collectedBytes])
        (match callback collectedBytes with
         | Some error => errors ++ [error]
         | None => errors
         end)
    else onReadable (collectedBytes ++ [byte]) stream lines errors
  end.

(** [readOneLine(stream, callback)] on a stream that holds nothing yet. *)
Definition readOneLine : Trace := mkTrace (mkReader [] true) [] [] [].

(** A chunk arrives: it follows the bytes left in the stream, and the
    stream emits [readable], which [onReadable] handles as long as it
    listens. *)
Definition arrive (t : Trace) (chunk : list Z) : Trace :=
  let stream := unread t ++ chunk in
  if listening (reader t)
  then onReadable (collectedBytes (reader t)) stream (lines t) (errors t)
  else mkTrace (reader t) stream (lines t) (errors t).

Definition arrivals (chunks : list (list Z)) : Trace := fold_left arrive chunks readOneLine.

End WithCallback.

End Readline.

(** ** Introspection data ([processXML] of [lib/introspect]) *)

Module ProcessXML.
Import Introspect.

(** The document that the parser of XML returns, after the interfaces
    [XmlArg], [XmlMethod], [XmlProperty], [XmlSignal], [XmlInterface],
    [XmlNode] and [XmlRoot] of the source; the attributes [$] of an element
    are its fields here, and an optional member is an [option]. *)
Record XmlArg : Type := mkXmlArg {
  argName : option string;
  direction : option string;
  argType : string
}.

Record XmlMethod : Type := mkXmlMethod {
  xmlMethodName : string;
  methodArg : option (list XmlArg)
}.

Record XmlProperty : Type := mkXmlProperty {
  xmlPropertyName : string;
  xmlPropertyType : string;
  xmlPropertyAccess : string
}.

Record XmlSignal : Type := mkXmlSignal {
  xmlSignalName : string;
  signalArg : option (list XmlArg)
}.

Record XmlInterface : Type := mkXmlInterface {
  xmlInterfaceName : string;
  xmlMethod : option (list XmlMethod);
  xmlProperty : option (list XmlProperty);
  xmlSignal : option (list XmlSignal)
}.

(** [interface XmlNode { $?: { name: string } }]. *)
Record XmlNode : Type := mkXmlNode { nodeAttributes : option string }.

Record XmlRootNode : Type := mkXmlRootNode {
  rootInterface : option (list XmlInterface);
  rootNode : option (list XmlNode)
}.

Record XmlRoot : Type := mkXmlRoot { node : option XmlRootNode }.

(** [interface IntrospectResult]. *)
Record IntrospectResult : Type := mkIntrospectResult {
  interfaces : gmap string DBusInterface;
  nodes : list string
}.

Definition parsePropertyAccess (access : string) : Access :=
  if String.eqb access "read" then read
  else if String.eqb access "write" then write
  else if String.eqb access "readwrite" then readwrite
  else read.

(** [arg.$.direction === "in" || !arg.$.direction] and
    [arg.$.direction === "out"]. *)
Definition isIn (arg : XmlArg) : bool :=
  match direction arg with
  | Some d => String.eqb d "in" || String.eqb d ""
  | None => true
  end.

Definition isOut (arg : XmlArg) : bool :=
  match direction arg with
  | Some d => String.eqb d "out"
  | None => false
  end.

(** The loop over the arguments of a method: [inSignature] and
    [outSignature] afterwards. *)
Definition methodSignatures (args : list XmlArg) : string * string :=
  fold_left
    (fun '(inSignature, outSignature) arg =>
       if isIn arg then (inSignature +:+ argType arg, outSignature)
       else if isOut arg then (inSignature, outSignature +:+ argType arg)
       else (inSignature, outSignature))
    args (EmptyString, EmptyString).

Definition processMethod (methods : gmap string DBusMethodInfo) (xmlMethod : XmlMethod)
  : gmap string DBusMethodInfo :=
  let '(inSignature, outSignature) :=
    match methodArg xmlMethod with
    | Some args => methodSignatures args
    | None => (EmptyString, EmptyString)
    end in
  <[xmlMethodName xmlMethod :=
      mkMethod (xmlMethodName xmlMethod) inSignature outSignature]> methods.

Definition processProperty (properties : gmap string DBusPropertyInfo)
    (xmlProperty : XmlProperty) : gmap string DBusPropertyInfo :=
  <[xmlPropertyName xmlProperty :=
      mkProperty (xmlPropertyName xmlProperty) (xmlPropertyType xmlProperty)
        (parsePropertyAccess (xmlPropertyAccess xmlProperty))]> properties.

Definition processSignal (signals : gmap string DBusSignalInfo) (xmlSignal : XmlSignal)
  : gmap string DBusSignalInfo :=
  let signature :=
    match signalArg xmlSignal with
    | Some args => fold_left (fun signature arg => signature +:+ argType arg) args EmptyString
    | None => EmptyString
    end in
  <[xmlSignalName xmlSignal := mkSignal (xmlSignalName xmlSignal) signature]> signals.

(** The body of the loop over the interfaces: the [DBusInterface] of one. *)
Definition processInterface (obj : DBusObject) (xmlInterface : XmlInterface) : DBusInterface :=
  let methods :=
    match xmlMethod xmlInterface with
    | Some xmlMethods => fold_left processMethod xmlMethods ∅
    | None => ∅
    end in
  let properties :=
    match xmlProperty xmlInterface with
    | Some xmlProperties => fold_left processProperty xmlProperties ∅
    | None => ∅
    end in
  let signals :=
    match xmlSignal xmlInterface with
    | Some xmlSignals => fold_left processSignal xmlSignals ∅
    | None => ∅
    end in
  mkInterface (xmlInterfaceName xmlInterface) methods properties signals obj ∅ 0.

(** [for (let i = 1; i < xmlNodes.length; i++)]: the names of the child
    nodes but the first, those that are not empty. *)
Definition childNodes (xmlNodes : list XmlNode) : list string :=
  flat_map
    (fun xmlNode =>
       match nodeAttributes xmlNode with
       | Some nodeName => if String.eqb nodeName "" then [] else [nodeName]
       | None => []
       end)
    (tl xmlNodes).

(** [s.endsWith("/")]. *)
Definition endsWithSlash (s : string) : bool :=
  match rev (list_ascii_of_string s) with
  | c :: _ => Ascii.eqb c "/"
  | [] => false
  end.

(** What [processXML] does: it calls [callback], or it calls
    [introspectBus] on a sub-object, with the same [callback]. *)
Inductive Step : Type :=
| Callback (error : option DBusError) (result : option IntrospectResult)
| IntrospectBus (subObj : DBusObject).

(** [processXML(xml, obj, callback)], from the answer of the XML parser on:
    the message of its error, or the document. *)
Definition processXML (parsed : string + XmlRoot) (obj : DBusObject) : Step :=
  match parsed with
  | inl parseError =>
    Callback (Some (mkDBusError "org.freedesktop.DBus.Error.InvalidXml" parseError)) None
  | inr result =>
    match node result with
    | None =>
      Callback (Some (mkDBusError "org.freedesktop.DBus.Error.InvalidXml" "No root node")) None
    | Some rootNode_ =>
      match rootInterface rootNode_ with
      | None =>
        match rootNode rootNode_ with
        | Some (mkXmlNode (Some nodeName) :: _) =>
          if negb (String.eqb nodeName "") then
            IntrospectBus
              (mkObject
                 (if endsWithSlash (objectName obj) then objectName obj +:+ nodeName
                  else objectName obj +:+ "/" +:+ nodeName)
                 (serviceName obj))
          else
            Callback (Some (mkDBusError "org.freedesktop.DBus.Error.NoSuchInterface"
                              "No such interface found")) None
        | _ =>
          Callback (Some (mkDBusError "org.freedesktop.DBus.Error.NoSuchInterface"
                            "No such interface found")) None
        end
      | Some xmlInterfaces =>
        let nodes := childNodes (match rootNode rootNode_ with
                                 | Some xmlNodes => xmlNodes
                                 | None => []
                                 end) in
        let interfaces :=
          fold_left
            (fun interfaces xmlInterface =>
               <[xmlInterfaceName xmlInterface := processInterface obj xmlInterface]>
                 interfaces)
            xmlInterfaces ∅ in
        Callback None (Some (mkIntrospectResult interfaces nodes))
      end
    end
  end.

(** The message that [introspectBus(obj, callback)] hands to [bus.invoke];
    the reply goes to [processXML]. *)
Definition introspectBus (obj : DBusObject) : DBusMessage :=
  {| destination := serviceName obj;
     path := objectName obj;
     interface := "org.freedesktop.DBus.Introspectable";
     member := "Introspect";
     signature := None;
     body := None |}.

End ProcessXML.

(* ===================================================================== *)
(** * Theorems *)
(* ===================================================================== *)

Lemma bind_Done {A B} (m : outcome A) (k : A -> outcome B) b :
  bind m k = Done b -> exists a, m = Done a /\ k a = Done b.
Proof. destruct m; simpl; intros H; try discriminate. eauto. Qed.

Lemma bind_not_Fuel {A B} (m : outcome A) (k : A -> outcome B) :
  m <> Fuel -> (forall a, m = Done a -> k a <> Fuel) -> bind m k <> Fuel.
Proof. destruct m; simpl; intros H1 H2; auto; congruence. Qed.

(** Inverts a hypothesis [bind m k = Done b]. *)
Ltac inv_bind H :=
  let a := fresh "r" in
  let Ha := fresh "Hm" in
  apply bind_Done in H; destruct H as [a [Ha H]].

Module SignatureFacts.
Import Signature.

Lemma BRACKET_PAIRS_not_a c closing :
  BRACKET_PAIRS c = Some closing -> Ascii.eqb c "a" = false.
Proof.
  unfold BRACKET_PAIRS.
  destruct (Ascii.eqb_spec c "{"); [subst; reflexivity|].
  destruct (Ascii.eqb_spec c "("); [subst; reflexivity|discriminate].
Qed.

(** What [parseOne] consumed is the rendering of the node it returns. *)
Lemma parse_render fuel :
  (forall c input n rest,
      parseOne fuel c input = Done (n, rest) -> c :: input = render n ++ rest) /\
  (forall closing input ns rest,
      parseChildren fuel closing input = Done (ns, rest) ->
      input = flat_map render ns ++ closing :: rest).
Proof.
  induction fuel as [|fuel [IH1 IH2]]; [split; intros; discriminate|].
  split.
  - intros c input n rest H. simpl in H.
    destruct (negb (KNOWN_TYPES c)); [discriminate|].
    destruct (Ascii.eqb c "a") eqn:Ea.
    + destruct input as [|element input]; [discriminate|].
      inv_bind H. destruct r as [n1 input1]. injection H as <- <-.
      apply IH1 in Hm. simpl. rewrite Ea. rewrite app_nil_r. simpl.
      now rewrite Hm.
    + destruct (BRACKET_PAIRS c) as [closing|] eqn:Eb.
      * inv_bind H. destruct r as [children input1]. injection H as <- <-.
        apply IH2 in Hm. simpl. rewrite Ea, Eb. simpl.
        rewrite Hm. now rewrite <- app_assoc.
      * injection H as <- <-. simpl. now rewrite Ea, Eb.
  - intros closing input ns rest H. simpl in H.
    destruct input as [|element input]; [discriminate|].
    destruct (Ascii.eqb_spec element closing) as [->|Hne].
    + now injection H as <- <-.
    + inv_bind H. destruct r as [n1 input1].
      inv_bind H. destruct r as [children input2]. injection H as <- <-.
      apply IH1 in Hm. apply IH2 in Hm0. simpl.
      rewrite Hm, Hm0. now rewrite <- app_assoc.
Qed.

Lemma parseTop_render fuel : forall input ns,
  parseTop fuel input = Done ns -> input = flat_map render ns.
Proof.
  induction fuel as [|fuel IH]; intros input ns H; [discriminate|].
  simpl in H. destruct input as [|c input]; [now injection H as <-|].
  inv_bind H. destruct r as [n1 input1]. inv_bind H. injection H as <-.
  apply (proj1 (parse_render fuel)) in Hm. apply IH in Hm0.
  simpl. now rewrite Hm, Hm0.
Qed.

Lemma render_nonempty n : (0 < List.length (render n))%nat.
Proof.
  destruct n as [t children]. simpl.
  destruct (Ascii.eqb t "a"); [simpl; lia|].
  destruct (BRACKET_PAIRS t); simpl; lia.
Qed.

Lemma parseOne_rest fuel c input n rest :
  parseOne fuel c input = Done (n, rest) -> (List.length rest <= List.length input)%nat.
Proof.
  intros H. apply (proj1 (parse_render fuel)) in H.
  apply (f_equal (@List.length ascii)) in H.
  rewrite length_app in H. simpl in H.
  pose proof (render_nonempty n). lia.
Qed.

Lemma parseChildren_rest fuel closing input ns rest :
  parseChildren fuel closing input = Done (ns, rest) ->
  (List.length rest < List.length input)%nat.
Proof.
  intros H. apply (proj2 (parse_render fuel)) in H.
  apply (f_equal (@List.length ascii)) in H.
  rewrite length_app in H. simpl in H. lia.
Qed.

(** The fuel [enough] is enough: the parser never stops for lack of it. *)
Lemma parse_fuel fuel :
  (forall c input, (2 * List.length input + 2 <= fuel)%nat ->
      parseOne fuel c input <> Fuel) /\
  (forall closing input, (2 * List.length input + 1 <= fuel)%nat ->
      parseChildren fuel closing input <> Fuel).
Proof.
  induction fuel as [|fuel [IH1 IH2]]; [split; intros; lia|].
  split.
  - intros c input Hf. simpl.
    destruct (negb (KNOWN_TYPES c)); [discriminate|].
    destruct (Ascii.eqb c "a").
    + destruct input as [|element input]; [discriminate|].
      simpl in Hf. apply bind_not_Fuel; [apply IH1; lia|].
      intros [n rest] _. discriminate.
    + destruct (BRACKET_PAIRS c); [|discriminate].
      apply bind_not_Fuel; [apply IH2; lia|].
      intros [ns rest] _. discriminate.
  - intros closing input Hf. simpl.
    destruct input as [|element input]; [discriminate|].
    simpl in Hf.
    destruct (Ascii.eqb element closing); [discriminate|].
    apply bind_not_Fuel; [apply IH1; lia|].
    intros [n rest] Hn. apply parseOne_rest in Hn.
    apply bind_not_Fuel; [apply IH2; lia|].
    intros [ns rest'] _. discriminate.
Qed.

Lemma parseTop_fuel fuel : forall input,
  (2 * List.length input + 1 <= fuel)%nat -> parseTop fuel input <> Fuel.
Proof.
  induction fuel as [|fuel IH]; intros input Hf; [lia|].
  simpl. destruct input as [|c input]; [discriminate|].
  simpl in Hf.
  apply bind_not_Fuel; [apply (proj1 (parse_fuel fuel)); lia|].
  intros [n rest] Hn. apply parseOne_rest in Hn.
  apply bind_not_Fuel; [apply IH; lia|].
  intros ns _. discriminate.
Qed.

Lemma bind_Throw {A B} (m : outcome A) (k : A -> outcome B) e :
  bind m k = Throw e -> m = Throw e \/ exists a, m = Done a /\ k a = Throw e.
Proof.
  destruct m as [a|e'|]; simpl; intros H; try discriminate.
  - right. exists a. split; [reflexivity|exact H].
  - left. now injection H as ->.
Qed.

Lemma parse_errors fuel :
  (forall c input e, parseOne fuel c input = Throw e -> signature_error e) /\
  (forall closing input e,
      parseChildren fuel closing input = Throw e -> signature_error e).
Proof.
  induction fuel as [|fuel [IH1 IH2]]; [split; intros; discriminate|].
  split.
  - intros c input e H. simpl in H.
    destruct (negb (KNOWN_TYPES c)) eqn:Ek.
    { injection H as <-. right. exists c. split; [reflexivity|].
      now apply negb_true_iff. }
    destruct (Ascii.eqb c "a").
    + destruct input as [|element input]; [injection H as <-; now left|].
      apply bind_Throw in H as [H|[[n r] [_ H]]]; [eauto|discriminate].
    + destruct (BRACKET_PAIRS c); [|discriminate].
      apply bind_Throw in H as [H|[[n r] [_ H]]]; [eauto|discriminate].
  - intros closing input e H. simpl in H.
    destruct input as [|element input]; [injection H as <-; now left|].
    destruct (Ascii.eqb element closing); [discriminate|].
    apply bind_Throw in H as [H|[[n r] [_ H]]]; [eauto|].
    apply bind_Throw in H as [H|[[ns r'] [_ H]]]; [eauto|discriminate].
Qed.

Lemma parseTop_errors fuel : forall input e,
  parseTop fuel input = Throw e -> signature_error e.
Proof.
  induction fuel as [|fuel IH]; intros input e H; [discriminate|].
  simpl in H. destruct input as [|c input]; [discriminate|].
  apply bind_Throw in H as [H|[[n r] [_ H]]].
  - apply (proj1 (parse_errors fuel)) in H. exact H.
  - apply bind_Throw in H as [H|[ns [_ H]]]; [eauto|discriminate].
Qed.


(** More fuel does not change an answer. *)
Lemma parse_mono fuel :
  (forall c input fuel', (fuel <= fuel')%nat -> parseOne fuel c input <> Fuel ->
      parseOne fuel' c input = parseOne fuel c input) /\
  (forall closing input fuel', (fuel <= fuel')%nat ->
      parseChildren fuel closing input <> Fuel ->
      parseChildren fuel' closing input = parseChildren fuel closing input).
Proof.
  induction fuel as [|fuel [IH1 IH2]]; [split; intros; simpl in *; congruence|].
  split.
  - intros c input [|fuel'] Hle H; [lia|]. simpl in *.
    destruct (negb (KNOWN_TYPES c)); [reflexivity|].
    destruct (Ascii.eqb c "a").
    + destruct input as [|element input]; [reflexivity|].
      rewrite (IH1 element input fuel'); [reflexivity|lia|].
      intros E. now rewrite E in H.
    + destruct (BRACKET_PAIRS c); [|reflexivity].
      rewrite (IH2 a input fuel'); [reflexivity|lia|].
      intros E. now rewrite E in H.
  - intros closing input [|fuel'] Hle H; [lia|]. simpl in *.
    destruct input as [|element input]; [reflexivity|].
    destruct (Ascii.eqb element closing); [reflexivity|].
    rewrite (IH1 element input fuel'); [|lia|intros E; now rewrite E in H].
    destruct (parseOne fuel element input) as [[n rest]| |]; simpl in *; try reflexivity.
    rewrite (IH2 closing rest fuel'); [reflexivity|lia|].
    intros E. now rewrite E in H.
Qed.

Lemma parseTop_mono fuel : forall input fuel',
  (fuel <= fuel')%nat -> parseTop fuel input <> Fuel ->
  parseTop fuel' input = parseTop fuel input.
Proof.
  induction fuel as [|fuel IH]; intros input fuel' Hle H; [simpl in H; congruence|].
  destruct fuel' as [|fuel']; [lia|]. simpl in *.
  destruct input as [|c input]; [reflexivity|].
  rewrite (proj1 (parse_mono fuel) c input fuel'); [|lia|intros E; now rewrite E in H].
  destruct (parseOne fuel c input) as [[n rest]| |]; simpl in *; try reflexivity.
  rewrite (IH rest fuel'); [reflexivity|lia|].
  intros E. now rewrite E in H.
Qed.

(** [parseSignature] answers what any sufficient fuel answers. *)
Lemma parseSignature_fuel s fuel tree :
  parseTop fuel (list_ascii_of_string s) = Done tree -> parseSignature s = Done tree.
Proof.
  intros H. unfold parseSignature.
  set (input := list_ascii_of_string s) in *.
  assert (H1 : parseTop (Nat.max fuel (enough input)) input = Done tree).
  { rewrite <- H. apply parseTop_mono; [lia|]. now rewrite H. }
  rewrite <- H1. symmetry. apply parseTop_mono; [lia|].
  apply parseTop_fuel. unfold enough. lia.
Qed.

(** Text after what a successful parse consumed is left untouched. *)
Lemma parse_app fuel :
  (forall c input n rest extra, parseOne fuel c input = Done (n, rest) ->
      parseOne fuel c (input ++ extra) = Done (n, rest ++ extra)) /\
  (forall closing input ns rest extra,
      parseChildren fuel closing input = Done (ns, rest) ->
      parseChildren fuel closing (input ++ extra) = Done (ns, rest ++ extra)).
Proof.
  induction fuel as [|fuel [IH1 IH2]]; [split; intros; discriminate|].
  split.
  - intros c input n rest extra H. simpl in *.
    destruct (negb (KNOWN_TYPES c)); [discriminate|].
    destruct (Ascii.eqb c "a").
    + destruct input as [|element input]; [discriminate|].
      inv_bind H. destruct r as [n1 input1]. injection H as <- <-.
      simpl. now rewrite (IH1 _ _ _ _ extra Hm).
    + destruct (BRACKET_PAIRS c); [|now injection H as <- <-].
      inv_bind H. destruct r as [children input1]. injection H as <- <-.
      now rewrite (IH2 _ _ _ _ extra Hm).
  - intros closing input ns rest extra H. simpl in *.
    destruct input as [|element input]; [discriminate|]. simpl.
    destruct (Ascii.eqb element closing); [now injection H as <- <-|].
    inv_bind H. destruct r as [n1 input1].
    inv_bind H. destruct r as [children input2]. injection H as <- <-.
    rewrite (IH1 _ _ _ _ extra Hm). simpl.
    now rewrite (IH2 _ _ _ _ extra Hm0).
Qed.

Lemma parseOne_type fuel c input n rest :
  parseOne fuel c input = Done (n, rest) -> type n = c.
Proof.
  destruct fuel as [|fuel]; [discriminate|]. simpl.
  destruct (negb (KNOWN_TYPES c)); [discriminate|].
  destruct (Ascii.eqb c "a").
  - destruct input as [|element input]; [discriminate|].
    intros H. inv_bind H. destruct r. now injection H as <- <-.
  - destruct (BRACKET_PAIRS c).
    + intros H. inv_bind H. destruct r. now injection H as <- <-.
    + intros H. now injection H as <- <-.
Qed.

(** A signature that parses with no top-level [closing] character, followed
    by that character, is what the loop of a container reads. *)
Lemma parseChildren_of_top closing fuel : forall input tree rest,
  parseTop fuel input = Done tree ->
  Forall (fun n => type n <> closing) tree ->
  parseChildren fuel closing (input ++ closing :: rest) = Done (tree, rest).
Proof.
  induction fuel as [|fuel IH]; intros input tree rest H Hall; [discriminate|].
  simpl in H. destruct input as [|c input].
  - injection H as <-. simpl. now rewrite Ascii.eqb_refl.
  - inv_bind H. destruct r as [n rest1]. inv_bind H. injection H as <-.
    inversion Hall as [|? ? Hn Hall']; subst.
    pose proof (parseOne_type _ _ _ _ _ Hm) as Ht.
    cbn [app parseChildren].
    destruct (Ascii.eqb_spec c closing) as [->|_]; [congruence|].
    rewrite (proj1 (parse_app fuel) _ _ _ _ (closing :: rest) Hm). simpl.
    now rewrite (IH _ _ rest Hm0 Hall').
Qed.

Lemma list_ascii_of_string_app s1 s2 :
  list_ascii_of_string (String.append s1 s2)
  = list_ascii_of_string s1 ++ list_ascii_of_string s2.
Proof. induction s1 as [|c s1 IH]; simpl; [reflexivity|now rewrite IH]. Qed.

(** C2 (as the code has it): the parser has no dict-entry check.  Its only
    errors are an unknown type character and an unexpected end; and whenever
    [s] parses to a tree with no stray top-level ['}'], the dict entry
    ["{" s "}"] parses, at top level and as an array element, to a node with
    that tree as children - whatever the key type and the number of
    children. *)
Theorem dict_entry_unchecked :
  (forall s e, parseSignature s = Throw e -> signature_error e) /\
  (forall s tree,
      parseSignature s = Done tree ->
      Forall (fun n => type n <> "}"%char) tree ->
      parseSignature (String "{" (String.append s "}")) = Done [Node "{" tree] /\
      parseSignature (String "a" (String "{" (String.append s "}")))
      = Done [Node "a" [Node "{" tree]]).
Proof.
  split.
  - intros s e H. exact (parseTop_errors _ _ _ H).
  - intros s tree H Hall. unfold parseSignature in H.
    set (fuel := enough (list_ascii_of_string s)) in H.
    pose proof (parseChildren_of_top "}" fuel _ _ [] H Hall) as Hc.
    split.
    + apply (parseSignature_fuel _ (S (S fuel))).
      cbn [list_ascii_of_string]. rewrite list_ascii_of_string_app.
      cbn [list_ascii_of_string]. cbn [parseTop].
      change (parseOne (S fuel) "{" ?i)
        with (let* (children, input) := parseChildren fuel "}" i
              in Done (Node "{" children, input)).
      rewrite Hc. reflexivity.
    + apply (parseSignature_fuel _ (S (S (S fuel)))).
      cbn [list_ascii_of_string]. rewrite list_ascii_of_string_app.
      cbn [list_ascii_of_string]. cbn [parseTop].
      change (parseOne (S (S fuel)) "a" ("{"%char :: ?i))
        with (let* (n, input) :=
                (let* (children, input) := parseChildren fuel "}" i
                 in Done (Node "{" children, input))
              in Done (Node "a" [n], input)).
      rewrite Hc. reflexivity.
Qed.

Lemma dict_entry_unchecked_witness :
  parseSignature "{vi}" = Done [Node "{" [Node "v" []; Node "i" []]] /\
  parseSignature "a{vi}" = Done [Node "a" [Node "{" [Node "v" []; Node "i" []]]].
Proof.
  apply (proj2 dict_entry_unchecked "vi" [Node "v" []; Node "i" []]).
  - reflexivity.
  - repeat constructor; discriminate.
Defined.

(** C2 (as the spec states it) fails: ["a{vi}"], whose dict-entry key is a
    variant, and ["{si}"], a dict entry outside an array, both parse. *)
Lemma bad_dict_entry_parses :
  parseSignature "a{vi}" = Done [Node "a" [Node "{" [Node "v" []; Node "i" []]]] /\
  parseSignature "{si}" = Done [Node "{" [Node "s" []; Node "i" []]] /\
  ~ (exists e, parseSignature "a{vi}" = Throw e) /\
  ~ (exists e, parseSignature "{si}" = Throw e).
Proof.
  repeat split; try reflexivity; intros [e H]; vm_compute in H; discriminate.
Qed.

(** A signature that parses, followed by any text: the parse goes on with
    that text. *)
Lemma parseTop_app_any fuel1 : forall fuel2 input1 input2 tree1,
  parseTop fuel1 input1 = Done tree1 -> parseTop fuel2 input2 <> Fuel ->
  parseTop (fuel1 + fuel2) (input1 ++ input2)
  = let* tree2 := parseTop fuel2 input2 in Done (tree1 ++ tree2).
Proof.
  induction fuel1 as [|fuel1 IH]; intros fuel2 input1 input2 tree1 H1 H2;
    [discriminate|].
  simpl in H1. destruct input1 as [|c input1].
  - injection H1 as <-. simpl app.
    rewrite (parseTop_mono fuel2 input2 (S fuel1 + fuel2)) by (lia || exact H2).
    destruct (parseTop fuel2 input2); reflexivity.
  - inv_bind H1. destruct r as [n rest]. inv_bind H1. injection H1 as <-.
    cbn [app Nat.add parseTop].
    assert (E : parseOne (fuel1 + fuel2) c (input1 ++ input2) = Done (n, rest ++ input2)).
    { rewrite <- (proj1 (parse_app fuel1) _ _ _ _ input2 Hm).
      apply (proj1 (parse_mono fuel1)); [lia|].
      now rewrite (proj1 (parse_app fuel1) _ _ _ _ input2 Hm). }
    rewrite E. cbn [bind]. rewrite (IH _ _ _ _ Hm0 H2).
    destruct (parseTop fuel2 input2); reflexivity.
Qed.

Lemma parseSignature_any s fuel :
  parseTop fuel (list_ascii_of_string s) <> Fuel ->
  parseSignature s = parseTop fuel (list_ascii_of_string s).
Proof.
  intros H. unfold parseSignature.
  set (input := list_ascii_of_string s) in *.
  rewrite <- (parseTop_mono fuel input (Nat.max fuel (enough input))) by (lia || exact H).
  symmetry. apply parseTop_mono; [lia|].
  apply parseTop_fuel. unfold enough. lia.
Qed.

(** C10: a closing bracket met where a type is expected is read as a type of
    its own.  [")"] and ["}"] parse to a single childless node of that type;
    and in every signature with a [')'] or ['}'] at top level - after a text
    that parses - the parser puts a childless node of that type at its
    place in the result and goes on with the remainder, so that the parse
    succeeds whenever the remainder parses. *)
Theorem stray_closer_accepted :
  parseSignature ")" = Done [Node ")" []] /\
  parseSignature "}" = Done [Node "}" []] /\
  (forall (c : ascii) (before after : string) tree1,
      c = ")"%char \/ c = "}"%char ->
      parseSignature before = Done tree1 ->
      parseSignature (String.append before (String c after))
      = let* tree2 := parseSignature after in Done (tree1 ++ Node c [] :: tree2)).
Proof.
  split; [reflexivity|]. split; [reflexivity|].
  intros c before after tree1 Hc H1.
  unfold parseSignature in H1. unfold parseSignature at 2.
  set (f1 := enough (list_ascii_of_string before)) in H1.
  set (f2 := enough (list_ascii_of_string after)).
  assert (Hf2 : parseTop f2 (list_ascii_of_string after) <> Fuel).
  { apply parseTop_fuel. unfold f2, enough. lia. }
  assert (E : parseTop (S f2) (c :: list_ascii_of_string after)
              = let* tree2 := parseTop f2 (list_ascii_of_string after) in
                Done (Node c [] :: tree2)).
  { cbn [parseTop].
    assert (E1 : forall i, parseOne f2 c i = Done (Node c [], i)).
    { intros i. unfold f2, enough. rewrite Nat.add_comm. cbn [Nat.add parseOne].
      destruct Hc as [-> | ->]; reflexivity. }
    rewrite E1. reflexivity. }
  rewrite (parseSignature_any _ (f1 + S f2));
    rewrite list_ascii_of_string_app; cbn [list_ascii_of_string].
  - rewrite (parseTop_app_any f1 (S f2) _ _ tree1 H1); rewrite E.
    + destruct (parseTop f2 (list_ascii_of_string after)); reflexivity.
    + destruct (parseTop f2 (list_ascii_of_string after)); simpl; congruence.
  - rewrite (parseTop_app_any f1 (S f2) _ _ tree1 H1); rewrite E;
      destruct (parseTop f2 (list_ascii_of_string after)); simpl; congruence.
Qed.

Lemma stray_closer_accepted_witness :
  parseSignature "i)s" = Done [Node "i" []; Node ")" []; Node "s" []].
Proof.
  apply (proj2 (proj2 stray_closer_accepted) ")"%char "i" "s" [Node "i" []]).
  - left; reflexivity.
  - reflexivity.
Defined.

End SignatureFacts.

(** ** The put-stream and [align] *)

Module PutFacts.

Lemma copy_middle source : forall before middle after,
  List.length middle = List.length source ->
  Buffer.copy source (before ++ middle ++ after) (List.length before)
  = before ++ source ++ after.
Proof.
  induction source as [|b source IH]; intros before middle after Hlen.
  - destruct middle; [reflexivity|discriminate].
  - destruct middle as [|m middle]; [discriminate|]. simpl in Hlen.
    cbn [Buffer.copy].
    replace (<[List.length before := b]> (before ++ (m :: middle) ++ after))
      with ((before ++ [b]) ++ middle ++ after).
    + replace (S (List.length before)) with (List.length (before ++ [b])).
      * rewrite IH by lia. now rewrite <- app_assoc.
      * rewrite length_app. simpl. lia.
    + rewrite <- app_assoc. simpl.
      rewrite insert_app_r_alt by lia.
      now rewrite Nat.sub_diag.
Qed.

Lemma fill_words ws : forall before after,
  List.length after = List.length (flat_map wordBytes ws) ->
  fold_left
    (fun '(result, offset) word =>
       (Buffer.copy (wordBytes word) result offset,
        (offset + List.length (wordBytes word))%nat))
    ws (before ++ after, List.length before)
  = (before ++ flat_map wordBytes ws, List.length (before ++ flat_map wordBytes ws)).
Proof.
  induction ws as [|w ws IH]; intros before after Hlen.
  - destruct after; [|discriminate]. simpl. now rewrite !app_nil_r.
  - simpl in Hlen. rewrite length_app in Hlen.
    cbn [fold_left flat_map].
    rewrite <- (firstn_skipn (List.length (wordBytes w)) after).
    rewrite copy_middle by (rewrite length_take; lia).
    rewrite app_assoc. rewrite <- length_app.
    rewrite IH by (rewrite length_drop; lia).
    now rewrite <- !app_assoc.
Qed.

(** On a well-formed stream [buffer()] is the concatenation of the words. *)
Lemma buffer_contents ps : Put_wf ps -> buffer ps = contents ps.
Proof.
  unfold Put_wf, buffer, contents, Buffer.alloc. intros ->.
  rewrite Nat2Z.id.
  pose proof (fill_words (words ps) [] (repeat 0 (List.length (flat_map wordBytes (words ps))))) as H.
  simpl in H. rewrite H by apply repeat_length. reflexivity.
Qed.

Lemma contents_push ps w size :
  contents (push ps w size) = contents ps ++ wordBytes w.
Proof. unfold contents, push. simpl. rewrite flat_map_app. simpl. now rewrite app_nil_r. Qed.

Lemma push_wf ps w size :
  Put_wf ps -> size = Z.of_nat (List.length (wordBytes w)) -> Put_wf (push ps w size).
Proof.
  unfold Put_wf. intros H ->. rewrite contents_push, length_app. simpl. lia.
Qed.

Lemma newPut_wf : Put_wf newPut.
Proof. reflexivity. Qed.

Lemma put_wf ps b : Put_wf ps -> Put_wf (put ps b).
Proof. intros H. now apply push_wf. Qed.

Lemma word8_wf ps v : Put_wf ps -> Put_wf (word8 ps v).
Proof. intros H. now apply push_wf. Qed.

Lemma word16le_wf ps v : Put_wf ps -> Put_wf (word16le ps v).
Proof. intros H. now apply push_wf. Qed.

Lemma word32le_wf ps v : Put_wf ps -> Put_wf (word32le ps v).
Proof. intros H. now apply push_wf. Qed.

Lemma advance_wf ps n : Put_wf ps -> Put_wf (advance ps n).
Proof. intros H; exact H. Qed.

Lemma setOffset_wf ps n : Put_wf ps -> Put_wf (setOffset ps n).
Proof. intros H; exact H. Qed.

Lemma align_wf ps n : Put_wf ps -> Put_wf (align ps n).
Proof.
  intros H. unfold align. destruct (_ || _); [exact H|].
  apply advance_wf. now apply put_wf.
Qed.

(** The padding [align] inserts, as a number of bytes. *)
Lemma align_step ps n :
  0 <= _offset ps -> 0 < n ->
  let pad := (n - _offset ps mod n) mod n in
  contents (align ps n) = contents ps ++ repeat 0 (Z.to_nat pad) /\
  _offset (align ps n) = _offset ps + pad /\
  (_offset ps mod n = 0 -> align ps n = ps).
Proof.
  intros Hk Hn pad. unfold align.
  rewrite Z.rem_mod_nonneg by lia.
  pose proof (Z.mod_pos_bound (_offset ps) n Hn) as Hr.
  destruct (Z.eq_dec (_offset ps mod n) 0) as [E|E].
  - assert (Hpad : pad = 0).
    { unfold pad. rewrite E, Z.sub_0_r. apply Z.mod_same. lia. }
    rewrite Hpad, E, Z.sub_0_r, Z.eqb_refl, orb_true_r. simpl.
    rewrite app_nil_r. repeat split; lia.
  - assert (Hpad : pad = n - _offset ps mod n).
    { unfold pad. apply Z.mod_small. lia. }
    rewrite Hpad.
    replace (n - _offset ps mod n =? 0) with false by (symmetry; apply Z.eqb_neq; lia).
    replace (n - _offset ps mod n =? n) with false by (symmetry; apply Z.eqb_neq; lia).
    simpl. split; [|split; [reflexivity|intros; contradiction]].
    unfold advance, put, contents. simpl. rewrite flat_map_app. simpl.
    now rewrite app_nil_r.
Qed.

(** C3: on a put-stream at offset [k], [align] to [n] in {1, 2, 4, 8}
    appends exactly [(n - k mod n) mod n] bytes, all of them zero; the
    offset afterwards is the least multiple of [n] that is at least [k];
    and nothing at all changes when [k] is a multiple of [n] already. *)
Theorem align_pads_to_multiple (ps : Put) (n : Z) :
  Put_wf ps -> 0 <= _offset ps -> n = 1 \/ n = 2 \/ n = 4 \/ n = 8 ->
  let k := _offset ps in
  let pad := (n - k mod n) mod n in
  buffer (align ps n) = buffer ps ++ repeat 0 (Z.to_nat pad) /\
  List.length (buffer (align ps n)) = (List.length (buffer ps) + Z.to_nat pad)%nat /\
  _offset (align ps n) = k + pad /\
  (n | _offset (align ps n)) /\
  k <= _offset (align ps n) /\
  (forall m, (n | m) -> k <= m -> _offset (align ps n) <= m) /\
  (k mod n = 0 -> align ps n = ps).
Proof.
  intros Hwf Hk Hn k pad.
  assert (Hpos : 0 < n) by lia.
  destruct (align_step ps n Hk Hpos) as [Hc [Ho Hid]].
  fold k in Hc, Ho, Hid. fold pad in Hc, Ho.
  rewrite (buffer_contents _ (align_wf _ n Hwf)), (buffer_contents _ Hwf).
  pose proof (Z.mod_pos_bound k n Hpos) as Hr.
  pose proof (Z.mod_pos_bound (n - k mod n) n Hpos) as Hp. fold pad in Hp.
  assert (Hmod : (k + pad) mod n = 0).
  { unfold pad. rewrite Zplus_mod_idemp_r.
    replace (k + (n - k mod n)) with (k - k mod n + 1 * n) by lia.
    rewrite Z.mod_add by lia.
    rewrite Zminus_mod_idemp_r. rewrite Z.sub_diag. apply Z.mod_0_l. lia. }
  split; [exact Hc|]. split; [rewrite Hc, length_app, repeat_length; reflexivity|].
  split; [exact Ho|]. rewrite Ho.
  split; [apply Z.mod_divide; [lia|exact Hmod]|].
  split; [lia|]. split; [|exact Hid].
  intros m [q Hq] Hm.
  apply Z.mod_divide in Hmod; [|lia]. destruct Hmod as [q' Hq'].
  assert (q' <= q); [|nia].
  destruct (Z_le_gt_dec q' q) as [Hle|Hgt]; [exact Hle|exfalso].
  assert (q + 1 <= q') by lia.
  assert (m + n <= k + pad) by nia. lia.
Qed.

Lemma align_pads_to_multiple_witness :
  let ps := advance (put newPut [1; 2; 3; 4; 5]) 5 in
  buffer (align ps 4) = [1; 2; 3; 4; 5; 0; 0; 0] /\ _offset (align ps 4) = 8.
Proof.
  intros ps.
  assert (Hwf : Put_wf ps) by reflexivity.
  assert (Hk : 0 <= _offset ps) by (vm_compute; discriminate).
  assert (Hn : 4 = 1 \/ 4 = 2 \/ 4 = 4 \/ 4 = 8) by (right; right; left; reflexivity).
  destruct (align_pads_to_multiple ps 4 Hwf Hk Hn) as [H1 [_ [H2 _]]].
  split; [exact H1|exact H2].
Defined.

End PutFacts.

(** ** The basic-type marshallers *)

Module MarshallerFacts.
Import Marshallers.

Lemma toInt32_range z : - 2 ^ 31 <= toInt32 z < 2 ^ 31.
Proof. unfold toInt32. pose proof (Z.mod_pos_bound (z + 2 ^ 31) (2 ^ 32)). lia. Qed.

Lemma toInt32_small z : - 2 ^ 31 <= z < 2 ^ 31 -> toInt32 z = z.
Proof. intros H. unfold toInt32. rewrite Z.mod_small; lia. Qed.

Lemma toInt32_eqm z : exists q, toInt32 z = z + 2 ^ 32 * q.
Proof.
  exists (- ((z + 2 ^ 31) / 2 ^ 32)). unfold toInt32.
  pose proof (Z.div_mod (z + 2 ^ 31) (2 ^ 32)). lia.
Qed.

(** The byte [(value >> i) & 0xff] is the byte of [value] at bit [i]. *)
Lemma byte_of_word value (k : Z) :
  0 <= k <= 3 ->
  band (sar value (8 * k)) 255 = Z.land (Z.shiftr value (8 * k)) 255.
Proof.
  intros Hk. unfold band, sar.
  assert (E : (8 * k) mod 32 = 8 * k) by (apply Z.mod_small; lia).
  rewrite E.
  change 255 with (Z.ones 8).
  rewrite (toInt32_small (Z.ones 8)) by (cbv; split; congruence).
  pose proof (toInt32_range value) as Hr.
  assert (Hs : - 2 ^ 31 <= Z.shiftr (toInt32 value) (8 * k) < 2 ^ 31).
  { rewrite Z.shiftr_div_pow2 by lia.
    assert (0 < 2 ^ (8 * k)) by (apply Z.pow_pos_nonneg; lia).
    split.
    - apply Z.div_le_lower_bound; [lia|]. 
      assert (1 <= 2 ^ (8 * k)) by lia. nia.
    - apply Z.div_lt_upper_bound; [lia|]. nia. }
  rewrite (toInt32_small _ Hs).
  rewrite !Z.land_ones by lia.
  rewrite toInt32_small by (pose proof (Z.mod_pos_bound (Z.shiftr (toInt32 value) (8 * k)) (2 ^ 8)); lia).
  rewrite !Z.shiftr_div_pow2 by lia.
  destruct (toInt32_eqm value) as [q ->].
  assert (Hk' : k = 0 \/ k = 1 \/ k = 2 \/ k = 3) by lia.
  destruct Hk' as [-> | [-> | [-> | ->]]]; simpl Z.mul.
  - replace (2 ^ 32 * q) with ((q * 2 ^ 32) * 2 ^ 0) by lia.
    rewrite Z.div_add by lia.
    replace (q * 2 ^ 32) with ((q * 2 ^ 24) * 2 ^ 8) by lia.
    now rewrite Z.mod_add by lia.
  - replace (2 ^ 32 * q) with ((q * 2 ^ 24) * 2 ^ 8) by lia.
    rewrite Z.div_add by lia.
    replace (q * 2 ^ 24) with ((q * 2 ^ 16) * 2 ^ 8) by lia.
    now rewrite Z.mod_add by lia.
  - replace (2 ^ 32 * q) with ((q * 2 ^ 16) * 2 ^ 16) by lia.
    rewrite Z.div_add by lia.
    replace (q * 2 ^ 16) with ((q * 2 ^ 8) * 2 ^ 8) by lia.
    now rewrite Z.mod_add by lia.
  - replace (2 ^ 32 * q) with ((q * 2 ^ 8) * 2 ^ 24) by lia.
    rewrite Z.div_add by lia.
    now rewrite Z.mod_add by lia.
Qed.

Lemma wordBytes_LE (bytes : nat) value :
  (bytes <= 4)%nat -> wordBytes (WValue bytes value) = Buffer.bytesLE bytes value.
Proof.
  intros Hb. unfold wordBytes, Buffer.bytesLE.
  apply map_ext_in. intros i Hi. apply in_seq in Hi.
  apply byte_of_word. lia.
Qed.

(** *** Texts and the integers they denote *)

Lemma digitValue_digitChar radix d :
  0 <= d < radix -> radix <= 36 ->
  Str.digitValue radix (Str.upper (Str.digitChar d)) = Some d.
Proof.
  intros Hd Hr.
  assert (E : exists n : nat, d = Z.of_nat n /\ (n < 36)%nat).
  { exists (Z.to_nat d). lia. }
  destruct E as [n [-> Hn]].
  unfold Str.digitValue.
  assert (Hv : (let m := Z.of_N (N_of_ascii (Str.lower (Str.upper (Str.digitChar (Z.of_nat n))))) in
               if (48 <=? m) && (m <=? 57) then m - 48
               else if (97 <=? m) && (m <=? 122) then m - 87 else radix) = Z.of_nat n).
  { do 36 (destruct n as [|n]; [vm_compute; reflexivity|]). lia. }
  cbv zeta in Hv. rewrite Hv.
  destruct (Z.ltb_spec (Z.of_nat n) radix); [reflexivity|lia].
Qed.

Lemma horner_digits radix fuel : forall n tail k t,
  2 <= radix <= 36 -> 0 <= k ->
  0 <= n < radix ^ Z.of_nat fuel ->
  (forall a, horner radix (Str.toUpperCase tail) a = Some (a * radix ^ k + t)) ->
  exists k', 0 <= k' /\ forall a,
    horner radix (Str.toUpperCase (Str.digits fuel radix n tail)) a
    = Some (a * radix ^ k' + (n * radix ^ k + t)).
Proof.
  induction fuel as [|fuel IH]; intros n tail k t Hr Hk Hn Ht.
  - simpl in *. exists k. split; [lia|]. intros a. rewrite Ht.
    replace n with 0 by lia. f_equal; lia.
  - cbn [Str.digits].
    assert (Hmod : 0 <= n mod radix < radix) by (apply Z.mod_pos_bound; lia).
    assert (Hstep : forall a,
      horner radix (Str.toUpperCase (Str.digitChar (n mod radix) :: tail)) a
      = Some (a * radix ^ (k + 1) + (n mod radix * radix ^ k + t))).
    { intros a. cbn [Str.toUpperCase map horner].
      rewrite digitValue_digitChar by lia.
      change (map Str.upper tail) with (Str.toUpperCase tail).
      rewrite Ht. f_equal. rewrite Z.pow_add_r by lia. ring. }
    destruct (Z.eqb_spec (n / radix) 0) as [E|E].
    + exists (k + 1). split; [lia|]. intros a. rewrite Hstep.
      assert (n mod radix = n).
      { pose proof (Z.div_mod n radix ltac:(lia)). rewrite E in H. lia. }
      now rewrite H.
    + destruct (IH (n / radix) (Str.digitChar (n mod radix) :: tail) (k + 1)
                   (n mod radix * radix ^ k + t)) as [k' [Hk' H']]; try lia; auto.
      * split; [apply Z.div_pos; lia|].
        apply Z.div_lt_upper_bound; [lia|].
        rewrite Nat2Z.inj_succ, Z.pow_succ_r in Hn by lia. lia.
      * exists k'. split; [lia|]. intros a. rewrite H'. f_equal.
        rewrite Z.pow_add_r by lia.
        pose proof (Z.div_mod n radix ltac:(lia)). nia.
Qed.

Lemma log2_fuel radix z :
  2 <= radix -> 0 <= z -> 0 <= z < radix ^ Z.of_nat (Z.to_nat (Z.log2 z) + 1).
Proof.
  intros Hr Hz. split; [lia|].
  destruct (Z.eq_dec z 0) as [->|Hnz].
  - simpl. lia.
  - pose proof (Z.log2_spec z ltac:(lia)) as [_ Hlt].
    pose proof (Z.log2_nonneg z).
    replace (Z.of_nat (Z.to_nat (Z.log2 z) + 1)) with (Z.succ (Z.log2 z)) by lia.
    eapply Z.lt_le_trans; [exact Hlt|].
    apply Z.pow_le_mono_l. lia.
Qed.

Lemma digits_nonempty radix fuel n tail : Str.digits (S fuel) radix n tail <> [].
Proof.
  revert n tail. induction fuel as [|fuel IH]; intros n tail; cbn [Str.digits].
  - destruct (_ =? 0); discriminate.
  - destruct (n / radix =? 0); [discriminate|]. apply IH.
Qed.

Lemma digitValue_hyphen radix : Str.digitValue radix "-" = None.
Proof.
  change (Str.digitValue radix "-") with (if radix <? radix then Some radix else None).
  now rewrite Z.ltb_irrefl.
Qed.

Lemma valueOf_horner radix s w :
  s <> [] -> horner radix s 0 = Some w -> valueOf radix s = Some w.
Proof.
  destruct s as [|c rest]; [congruence|]. intros _ H. unfold valueOf.
  destruct (Ascii.eqb_spec c "-") as [->|_]; [|exact H].
  simpl in H. rewrite digitValue_hyphen in H. discriminate.
Qed.

(** The text of an integer denotes that integer, in upper case too. *)
Lemma valueOf_ofInteger radix w :
  2 <= radix <= 36 -> valueOf radix (Str.toUpperCase (Str.ofInteger radix w)) = Some w.
Proof.
  intros Hr. unfold Str.ofInteger.
  destruct (Z.ltb_spec w 0) as [Hneg|Hpos].
  - destruct (horner_digits radix (Z.to_nat (Z.log2 (- w)) + 1) (- w) [] 0 0)
      as [k [_ H]]; try lia.
    { apply log2_fuel; lia. }
    { intros a. simpl. f_equal. lia. }
    cbn [Str.toUpperCase map]. change (Str.upper "-") with "-"%char.
    unfold valueOf. rewrite Ascii.eqb_refl.
    change (map Str.upper ?l) with (Str.toUpperCase l).
    specialize (H 0).
    destruct (Str.toUpperCase _) eqn:E.
    + apply map_eq_nil in E. rewrite Nat.add_comm in E.
      now apply digits_nonempty in E.
    + rewrite H. simpl. f_equal. lia.
  - destruct (horner_digits radix (Z.to_nat (Z.log2 w) + 1) w [] 0 0)
      as [k [_ H]]; try lia.
    { apply log2_fuel; lia. }
    { intros a. simpl. f_equal. lia. }
    apply valueOf_horner.
    + intros E. apply map_eq_nil in E. rewrite Nat.add_comm in E.
      now apply digits_nonempty in E.
    + rewrite H. f_equal. lia.
Qed.

Lemma digitValue_zero radix : 0 < radix -> Str.digitValue radix "0" = Some 0.
Proof.
  intros H. change (Str.digitValue radix "0") with (if 0 <? radix then Some 0 else None).
  destruct (Z.ltb_spec 0 radix); [reflexivity|lia].
Qed.

Lemma horner_dropLeadingZeroes radix s :
  0 < radix ->
  horner radix (Str.dropLeadingZeroes s) 0 = horner radix s 0.
Proof.
  intros Hr. induction s as [|c rest IH]; [reflexivity|].
  cbn [Str.dropLeadingZeroes]. destruct rest as [|d rest']; [reflexivity|].
  destruct (Ascii.eqb_spec c "0") as [->|_]; [|reflexivity].
  destruct (Str.isDigit d); [|reflexivity]. cbn [andb].
  rewrite IH. cbn [horner]. rewrite digitValue_zero by lia. reflexivity.
Qed.

Lemma dropLeadingZeroes_nonempty s : s <> [] -> Str.dropLeadingZeroes s <> [].
Proof.
  induction s as [|c rest IH]; [congruence|]. intros _.
  cbn [Str.dropLeadingZeroes]. destruct rest as [|d rest']; [discriminate|].
  destruct (Ascii.eqb c "0" && Str.isDigit d); [|discriminate].
  apply IH. discriminate.
Qed.

(** Dropping the leading zeros keeps the integer that a text denotes. *)
Lemma valueOf_dropLeadingZeroes radix s v :
  0 < radix -> valueOf radix s = Some v ->
  valueOf radix (Str.dropLeadingZeroes s) = Some v.
Proof.
  intros Hr H. destruct s as [|c rest]; [discriminate|].
  unfold valueOf in H.
  destruct (Ascii.eqb_spec c "-") as [->|Hc].
  - destruct rest as [|d rest']; [discriminate|]. exact H.
  - apply valueOf_horner.
    + apply dropLeadingZeroes_nonempty. discriminate.
    + now rewrite horner_dropLeadingZeroes.
Qed.

(** *** The range of a [Long] *)

Lemma toUint32_range z : 0 <= toUint32 z < 2 ^ 32.
Proof. unfold toUint32. apply Z.mod_pos_bound. lia. Qed.

Lemma toZ_inRange l : inRange64 (negb (Long.unsigned l)) (Long.toZ l).
Proof.
  unfold inRange64, Long.toZ, Long.bits.
  pose proof (toUint32_range (Long.high l)). pose proof (toUint32_range (Long.low l)).
  destruct (Long.unsigned l); simpl.
  - lia.
  - pose proof (Z.mod_pos_bound (toUint32 (Long.high l) * 2 ^ 32 + toUint32 (Long.low l) + 2 ^ 63) (2 ^ 64)).
    lia.
Qed.

(** *** [makeLong] and [checkLong] *)

(** A string that [makeLong] accepts denotes, if it denotes an integer at
    all, the integer of the [Long] it becomes. *)
Lemma makeLongString_numeral s signed data v :
  makeLongString s signed = Done data -> numeral s = Some v -> v = Long.toZ data.
Proof.
  unfold makeLongString, numeral.
  set (text := Str.toUpperCase (Str.trim (list_ascii_of_string s))).
  assert (G : forall radix body,
    (radix = 10 \/ radix = 16) ->
    (let* data := Long.fromString (Str.dropLeadingZeroes body) (negb signed) radix in
     if bool_decide (Str.toUpperCase (Long.toString data radix) = Str.dropLeadingZeroes body)
     then Done data else Throw (DidNotConvert signed)) = Done data ->
    valueOf radix body = Some v -> v = Long.toZ data).
  { intros radix body Hr Hd Hv.
    apply bind_Done in Hd. destruct Hd as [data' [_ Hd]].
    destruct (bool_decide_reflect
                (Str.toUpperCase (Long.toString data' radix) = Str.dropLeadingZeroes body))
      as [E|E]; [|discriminate].
    injection Hd as ->.
    apply (valueOf_dropLeadingZeroes radix) in Hv; [|lia].
    rewrite <- E in Hv. unfold Long.toString in Hv.
    rewrite valueOf_ofInteger in Hv by lia. congruence. }
  destruct (Str.startsWith ["0"; "X"]%char text).
  - apply G. now right.
  - destruct (Str.startsWith hyphen0X text); apply G; [now right|now left].
Qed.

(** [checkLong] on a string that denotes an integer outside the range of
    the field throws. *)
Lemma checkLong_string_range s signed v :
  numeral s = Some v -> ~ inRange64 signed v ->
  exists e, checkLong (VString s) signed = Throw e.
Proof.
  intros Hn Hv. unfold checkLong. cbn [makeLong].
  destruct (makeLongString s signed) as [data|e|] eqn:Hm; cbn [bind].
  - pose proof (makeLongString_numeral _ _ _ _ Hm Hn) as ->.
    pose proof (toZ_inRange data) as Hr.
    destruct signed, (Long.unsigned data); simpl in Hr; try contradiction; eauto.
  - eauto.
  - exfalso. revert Hm. unfold makeLongString.
    destruct (if Str.startsWith _ _ then _ else _) as [radix body].
    assert (F : forall str u r, Long.fromString str u r <> Fuel).
    { induction str as [|c rest IH]; intros u r; cbn [Long.fromString]; [discriminate|].
      destruct (Long.literal _); [discriminate|].
      destruct (Ascii.eqb c "-").
      - specialize (IH u r). destruct (Long.fromString rest u r); simpl; congruence.
      - destruct (existsb _ _); discriminate. }
    specialize (F (Str.dropLeadingZeroes body) (negb signed) radix).
    destruct (Long.fromString _ _ _); simpl; try congruence.
    destruct (bool_decide _); discriminate.
Qed.

Lemma MakeSimpleMarshaller_int64 signed :
  MakeSimpleMarshaller (int64 signed)
  = Done (withCheck (fun data => let* l := checkLong data signed in Done (Some l)) writeLong).
Proof. destruct signed; reflexivity. Qed.

Lemma marshall_int64 signed ps data :
  marshall (withCheck (fun data => let* l := checkLong data signed in Done (Some l)) writeLong)
    ps data
  = let* l := checkLong data signed in Done (writeLong ps data (Some l)).
Proof. simpl. destruct (checkLong data signed); reflexivity. Qed.

(** *** The bits of a [Long] *)

Lemma toUint32_toInt32 x : toUint32 (toInt32 x) = x mod 2 ^ 32.
Proof.
  unfold toUint32, toInt32.
  rewrite Zminus_mod, Z.mod_mod by lia.
  rewrite <- Zminus_mod. f_equal. lia.
Qed.

Lemma bits_ofZ z u : Long.bits (Long.ofZ z u) = z mod 2 ^ 64.
Proof.
  unfold Long.bits, Long.ofZ, Long.fromBits. cbn [Long.low Long.high].
  rewrite !toUint32_toInt32.
  change (2 ^ 64) with (2 ^ 32 * 2 ^ 32).
  rewrite Z.rem_mul_r by lia. lia.
Qed.

Lemma high_ofZ z u : Long.high (Long.ofZ z u) = toInt32 (z / 2 ^ 32).
Proof. reflexivity. Qed.

Lemma low_ofZ z u : Long.low (Long.ofZ z u) = toInt32 z.
Proof. reflexivity. Qed.

Lemma compare_small_signed z :
  - (2 ^ 53 - 1) <= z <= 2 ^ 53 - 1 ->
  Long.gt (Long.ofZ z false) Long.MAX_VALUE = false /\
  Long.lt (Long.ofZ z false) Long.MIN_VALUE = false.
Proof.
  intros Hz.
  assert (Hh : - 2 ^ 21 <= z / 2 ^ 32 < 2 ^ 21).
  { split; [apply Z.div_le_lower_bound; lia|apply Z.div_lt_upper_bound; lia]. }
  assert (Ehigh : Long.high (Long.ofZ z false) = z / 2 ^ 32).
  { rewrite high_ofZ. apply toInt32_small. lia. }
  assert (Emax : Long.MAX_VALUE = Long.mk (-1) (2 ^ 31 - 1) false) by reflexivity.
  assert (Emin : Long.MIN_VALUE = Long.mk 0 (- 2 ^ 31) false) by reflexivity.
  assert (Bmax : Long.bits Long.MAX_VALUE = 2 ^ 63 - 1) by reflexivity.
  assert (Bmin : Long.bits Long.MIN_VALUE = 2 ^ 63) by reflexivity.
  unfold Long.gt, Long.lt, Long.compare, Long.eq, Long.isNegative, Long.sub.
  rewrite !high_ofZ, Bmax, Bmin, bits_ofZ. rewrite high_ofZ in Ehigh. rewrite Ehigh.
  rewrite Emax, Emin. cbn [Long.unsigned Long.high Long.low negb Bool.eqb andb].
  change (Long.unsigned (Long.ofZ z false)) with false. cbn [negb andb].
  destruct (Z.eqb_spec (z / 2 ^ 32) (2 ^ 31 - 1)); [lia|].
  destruct (Z.eqb_spec (z / 2 ^ 32) (- 2 ^ 31)); [lia|]. cbn [andb].
  change (2 ^ 31 - 1 <? 0) with false. change (- 2 ^ 31 <? 0) with true.
  cbn [negb andb]. rewrite !andb_false_r, !andb_true_r.
  destruct (Z.ltb_spec (z / 2 ^ 32) 0) as [Hneg|Hpos]; cbn [negb].
  - split; [reflexivity|].
    assert (Hzneg : z < 0).
    { destruct (Z.lt_ge_cases z 0); [assumption|].
      assert (0 <= z / 2 ^ 32) by (apply Z.div_pos; lia). lia. }
    replace (z mod 2 ^ 64) with (z + 2 ^ 64)
      by (apply Z.mod_unique with (-1); lia).
    assert (Hd : 2 ^ 31 - 2 ^ 21 <= (z + 2 ^ 64 - 2 ^ 63) / 2 ^ 32 < 2 ^ 31).
    { split; [apply Z.div_le_lower_bound; lia|apply Z.div_lt_upper_bound; lia]. }
    rewrite (toInt32_small ((z + 2 ^ 64 - 2 ^ 63) / 2 ^ 32)) by lia.
    destruct (Z.ltb_spec ((z + 2 ^ 64 - 2 ^ 63) / 2 ^ 32) 0); [lia|]. reflexivity.
  - split; [|reflexivity].
    assert (Hznn : 0 <= z).
    { destruct (Z.lt_ge_cases z 0) as [Hlt|]; [|assumption].
      assert (z / 2 ^ 32 < 0) by (apply Z.div_lt_upper_bound; lia). lia. }
    rewrite (Z.mod_small z) by lia.
    assert (Hd : - 2 ^ 31 <= (z - (2 ^ 63 - 1)) / 2 ^ 32 < 0).
    { split; [apply Z.div_le_lower_bound; lia|apply Z.div_lt_upper_bound; lia]. }
    rewrite (toInt32_small ((z - (2 ^ 63 - 1)) / 2 ^ 32)) by lia.
    destruct (Z.ltb_spec ((z - (2 ^ 63 - 1)) / 2 ^ 32) 0); [reflexivity|lia].
Qed.

Lemma compare_small_unsigned z :
  0 <= z <= 2 ^ 53 - 1 ->
  Long.gt (Long.ofZ z true) Long.MAX_UNSIGNED_VALUE = false /\
  Long.lt (Long.ofZ z true) Long.ZERO = false.
Proof.
  intros Hz.
  assert (Hh : 0 <= z / 2 ^ 32 < 2 ^ 21).
  { split; [apply Z.div_pos; lia|apply Z.div_lt_upper_bound; lia]. }
  assert (Ehigh : Long.high (Long.ofZ z true) = z / 2 ^ 32).
  { rewrite high_ofZ. apply toInt32_small. lia. }
  assert (Emax : Long.MAX_UNSIGNED_VALUE = Long.mk (-1) (-1) true) by reflexivity.
  unfold Long.gt, Long.lt, Long.compare, Long.eq, Long.isNegative.
  rewrite Emax. unfold Long.ZERO. rewrite Ehigh.
  cbn [Long.unsigned Long.high Long.low negb Bool.eqb andb].
  change (Long.unsigned (Long.ofZ z true)) with true. cbn [negb andb Bool.eqb].
  assert (Eu : toUint32 (z / 2 ^ 32) = z / 2 ^ 32) by (apply Z.mod_small; lia).
  rewrite Eu. change (toUint32 (-1)) with (2 ^ 32 - 1). change (toUint32 0) with 0.
  destruct (Z.eqb_spec (z / 2 ^ 32) (-1)); [lia|]. cbn [andb].
  destruct (Z.ltb_spec (z / 2 ^ 32) (2 ^ 32 - 1)); [|lia]. cbn [orb].
  split; [reflexivity|].
  assert (Es : Z.shiftr (z / 2 ^ 32) 31 = 0).
  { rewrite Z.shiftr_div_pow2 by lia. apply Z.div_small. lia. }
  rewrite Es. cbn [Z.eqb andb].
  destruct ((z / 2 ^ 32 =? 0) && (Long.low (Long.ofZ z true) =? 0)); [reflexivity|].
  destruct (Z.ltb_spec (z / 2 ^ 32) 0); [lia|]. cbn [orb].
  pose proof (toUint32_range (Long.low (Long.ofZ z true))).
  destruct (Z.ltb_spec (toUint32 (Long.low (Long.ofZ z true))) 0); [lia|].
  rewrite andb_false_r. reflexivity.
Qed.

Lemma checkLong_number (signed : bool) z :
  (if signed then - (2 ^ 53 - 1) else 0) <= z <= 2 ^ 53 - 1 ->
  checkLong (VNumber (Int z)) signed = Done (Long.ofZ z (negb signed)).
Proof.
  intros Hz. unfold checkLong. cbn [makeLong]. unfold makeLongNumber.
  cbn [checkInteger bind].
  assert (E : (if signed then checkRange (- (2 ^ 53 - 1)) (2 ^ 53 - 1) (Int z)
               else checkRange 0 (2 ^ 53 - 1) (Int z)) = Done tt).
  { destruct signed; unfold checkRange, gtZ, ltZ; cbn [orb].
    - destruct (Z.ltb_spec (2 ^ 53 - 1) z); [lia|].
      destruct (Z.ltb_spec z (- (2 ^ 53 - 1))); [lia|reflexivity].
    - destruct (Z.ltb_spec (2 ^ 53 - 1) z); [lia|].
      destruct (Z.ltb_spec z 0); [lia|reflexivity]. }
  rewrite E. cbn [bind].
  assert (F : Long.fromNumber z (negb signed) = Long.ofZ z (negb signed)).
  { unfold Long.fromNumber. destruct signed; cbn [negb].
    - destruct (Z.leb_spec z (- 2 ^ 63)); [lia|].
      destruct (Z.leb_spec (2 ^ 63) (z + 1)); [lia|reflexivity].
    - destruct (Z.ltb_spec z 0); [lia|].
      destruct (Z.leb_spec (2 ^ 64) z); [lia|reflexivity]. }
  rewrite F. destruct signed; cbn [negb].
  - change (Long.unsigned (Long.ofZ z false)) with false. cbv iota.
    destruct (compare_small_signed z Hz) as [-> ->]. reflexivity.
  - change (Long.unsigned (Long.ofZ z true)) with true. cbn [negb].
    destruct (compare_small_unsigned z Hz) as [-> ->]. reflexivity.
Qed.

(** The four low bytes of an integer depend on its 32 low bits only. *)
Lemma bytesLE_word x : Buffer.bytesLE 4 (x mod 2 ^ 32) = Buffer.bytesLE 4 x.
Proof.
  unfold Buffer.bytesLE. apply map_ext_in. intros i Hi. apply in_seq in Hi.
  apply Z.bits_inj'. intros n Hn.
  rewrite !Z.land_spec, !Z.shiftr_spec by lia.
  change 255 with (Z.ones 8).
  destruct (Z.lt_ge_cases n 8) as [Hlt|Hge].
  - rewrite Z.mod_pow2_bits_low by lia. reflexivity.
  - rewrite Z.ones_spec_high by lia. now rewrite !andb_false_r.
Qed.

(** The halves of a [Long] are the halves of the integer it stands for. *)
Lemma halves_of_value l :
  toUint32 (Long.low l) = Long.toZ l mod 2 ^ 32 /\
  toUint32 (Long.high l) = Long.toZ l / 2 ^ 32 mod 2 ^ 32.
Proof.
  pose proof (toUint32_range (Long.low l)) as Hl.
  pose proof (toUint32_range (Long.high l)) as Hh.
  assert (E : exists q, Long.toZ l = Long.bits l + 2 ^ 64 * q).
  { unfold Long.toZ. destruct (Long.unsigned l); [exists 0; lia|].
    exists (- ((Long.bits l + 2 ^ 63) / 2 ^ 64)).
    pose proof (Z.div_mod (Long.bits l + 2 ^ 63) (2 ^ 64)). lia. }
  destruct E as [q ->]. unfold Long.bits.
  set (lo := toUint32 (Long.low l)) in *. set (hi := toUint32 (Long.high l)) in *.
  split.
  - replace (hi * 2 ^ 32 + lo + 2 ^ 64 * q) with (lo + (hi + 2 ^ 32 * q) * 2 ^ 32) by lia.
    rewrite Z.mod_add by lia. symmetry. apply Z.mod_small. lia.
  - replace (hi * 2 ^ 32 + lo + 2 ^ 64 * q) with (lo + (hi + 2 ^ 32 * q) * 2 ^ 32) by lia.
    rewrite Z.div_add by lia. rewrite (Z.div_small lo) by lia.
    replace (0 + (hi + 2 ^ 32 * q)) with (hi + q * 2 ^ 32) by lia.
    rewrite Z.mod_add by lia. symmetry. apply Z.mod_small. lia.
Qed.

Lemma pair_of_value l :
  Buffer.bytesLE 4 (Long.low l) ++ Buffer.bytesLE 4 (Long.high l)
  = Buffer.bytesLE 4 (Long.toZ l mod 2 ^ 32)
    ++ Buffer.bytesLE 4 (Long.toZ l / 2 ^ 32 mod 2 ^ 32).
Proof.
  destruct (halves_of_value l) as [<- <-]. unfold toUint32.
  now rewrite !bytesLE_word.
Qed.

Lemma toZ_ofZ_signed z : - 2 ^ 63 <= z < 2 ^ 63 -> Long.toZ (Long.ofZ z false) = z.
Proof.
  intros Hz. unfold Long.toZ. change (Long.unsigned (Long.ofZ z false)) with false.
  cbv iota. rewrite bits_ofZ.
  rewrite Zplus_mod_idemp_l. rewrite Z.mod_small; lia.
Qed.

Lemma toZ_ofZ_unsigned z : 0 <= z < 2 ^ 64 -> Long.toZ (Long.ofZ z true) = z.
Proof.
  intros Hz. unfold Long.toZ. change (Long.unsigned (Long.ofZ z true)) with true.
  cbv iota. rewrite bits_ofZ. apply Z.mod_small. lia.
Qed.

(** What the marshaller writes of a [Long] it accepts. *)
Lemma writeLong_bytes ps data l :
  Put_wf ps -> 0 <= _offset ps ->
  buffer (writeLong ps data (Some l))
  = buffer ps ++ repeat 0 (Z.to_nat ((8 - _offset ps mod 8) mod 8))
      ++ Buffer.bytesLE 4 (Long.low l) ++ Buffer.bytesLE 4 (Long.high l) /\
  _offset (writeLong ps data (Some l)) = _offset ps + (8 - _offset ps mod 8) mod 8 + 8.
Proof.
  intros Hwf Hoff. unfold writeLong.
  destruct (PutFacts.align_step ps 8 Hoff ltac:(lia)) as [Hb [Ho _]].
  cbv zeta in Hb, Ho.
  pose proof (PutFacts.align_wf ps 8 Hwf) as Hwf'.
  split.
  - rewrite PutFacts.buffer_contents
      by (apply PutFacts.advance_wf; do 2 apply PutFacts.word32le_wf; exact Hwf').
    change (contents (advance ?p _)) with (contents p).
    unfold word32le. rewrite !PutFacts.contents_push.
    rewrite Hb, (PutFacts.buffer_contents _ Hwf).
    rewrite !wordBytes_LE by lia. now rewrite <- !app_assoc.
  - simpl. rewrite Ho. reflexivity.
Qed.

(** C5: the marshaller of a 64-bit field (['x'] signed, ['t'] unsigned)
    throws on a [Long], or a plain low/high/unsigned triple, whose unsigned
    flag does not fit the field; on a number outside the 53-bit window (for
    ['t'] also on a negative one); and on a string that denotes an integer
    outside the range of the field.  What it accepts is written, after the
    padding to 8, as its low and its high 32 bits, each least significant
    byte first: a number within the window is accepted, and it and a string
    that denotes an integer are written as the halves [v mod 2^32] and
    [v / 2^32 mod 2^32] of the integer [v]; a [Long] and a plain triple as
    their [low] and [high]; and whatever else is accepted as the halves of
    the [Long] that [check] returns. *)
Theorem int64_field (signed : bool) (m : Marshaller) :
  MakeSimpleMarshaller (int64 signed) = Done m ->
  let mismatch := if signed then UnsignedIntoSigned else SignedIntoUnsigned in
  let written (ps ps' : Put) (low high : Z) :=
    buffer ps'
    = buffer ps ++ repeat 0 (Z.to_nat ((8 - _offset ps mod 8) mod 8))
        ++ Buffer.bytesLE 4 low ++ Buffer.bytesLE 4 high /\
    _offset ps' = _offset ps + (8 - _offset ps mod 8) mod 8 + 8 in
  (forall ps l, Long.unsigned l = signed -> marshall m ps (VLong l) = Throw mismatch) /\
  (forall ps low high, marshall m ps (VLongLike low high signed) = Throw mismatch) /\
  (forall ps z,
      z < (if signed then - (2 ^ 53 - 1) else 0) \/ 2 ^ 53 - 1 < z ->
      marshall m ps (VNumber (Int z)) = Throw OutsideRange) /\
  (forall ps negative,
      marshall m ps (VNumber (Infinity negative)) = Throw OutsideRange) /\
  (forall ps s v,
      numeral s = Some v -> ~ inRange64 signed v ->
      exists e, marshall m ps (VString s) = Throw e) /\
  (forall ps z,
      (if signed then - (2 ^ 53 - 1) else 0) <= z <= 2 ^ 53 - 1 ->
      exists ps',
        marshall m ps (VNumber (Int z)) = Done ps' /\
        (Put_wf ps -> 0 <= _offset ps ->
         written ps ps' (z mod 2 ^ 32) (z / 2 ^ 32 mod 2 ^ 32))) /\
  (forall ps s v ps',
      numeral s = Some v -> marshall m ps (VString s) = Done ps' ->
      Put_wf ps -> 0 <= _offset ps ->
      written ps ps' (v mod 2 ^ 32) (v / 2 ^ 32 mod 2 ^ 32)) /\
  (forall ps l ps',
      marshall m ps (VLong l) = Done ps' -> Put_wf ps -> 0 <= _offset ps ->
      written ps ps' (Long.low l) (Long.high l)) /\
  (forall ps low high unsigned ps',
      marshall m ps (VLongLike low high unsigned) = Done ps' ->
      Put_wf ps -> 0 <= _offset ps ->
      written ps ps' low high) /\
  (forall ps data ps',
      Put_wf ps -> 0 <= _offset ps ->
      marshall m ps data = Done ps' ->
      exists l,
        check m data = Done (Some l) /\
        written ps ps' (Long.low l) (Long.high l)).
Proof.
  rewrite MakeSimpleMarshaller_int64. intros [= <-] mismatch written.
  assert (Hany : forall ps data ps',
             marshall (withCheck (fun data => let* l := checkLong data signed in Done (Some l))
                         writeLong) ps data = Done ps' ->
             exists l, checkLong data signed = Done l /\ ps' = writeLong ps data (Some l)).
  { intros ps data ps' H. rewrite marshall_int64 in H.
    destruct (checkLong data signed) as [l| |]; try discriminate.
    injection H as <-. now exists l. }
  assert (Hvalue : forall ps data l v,
             Long.toZ l = v -> Put_wf ps -> 0 <= _offset ps ->
             written ps (writeLong ps data (Some l)) (v mod 2 ^ 32) (v / 2 ^ 32 mod 2 ^ 32)).
  { intros ps data l v <- Hwf Hoff. unfold written.
    rewrite <- pair_of_value. now apply writeLong_bytes. }
  refine (conj _ (conj _ (conj _ (conj _ (conj _ (conj _ (conj _ (conj _ (conj _ _))))))))).
  - intros ps l Hl. rewrite marshall_int64. unfold checkLong. cbn [bind].
    subst mismatch. destruct signed; rewrite Hl; reflexivity.
  - intros ps low high. rewrite marshall_int64. unfold checkLong. cbn [makeLong bind].
    subst mismatch. destruct signed; reflexivity.
  - intros ps z Hz. rewrite marshall_int64. unfold checkLong.
    cbn [makeLong]. unfold makeLongNumber. cbn [checkInteger bind].
    assert (E : (if signed then checkRange (- (2 ^ 53 - 1)) (2 ^ 53 - 1) (Int z)
                 else checkRange 0 (2 ^ 53 - 1) (Int z)) = Throw OutsideRange).
    { unfold checkRange, gtZ, ltZ. destruct signed.
      - destruct (Z.ltb_spec (2 ^ 53 - 1) z); [reflexivity|].
        destruct (Z.ltb_spec z (- (2 ^ 53 - 1))); [reflexivity|lia].
      - destruct (Z.ltb_spec (2 ^ 53 - 1) z); [reflexivity|].
        destruct (Z.ltb_spec z 0); [reflexivity|lia]. }
    rewrite E. reflexivity.
  - intros ps negative. rewrite marshall_int64.
    destruct signed, negative; reflexivity.
  - intros ps s v Hn Hv. rewrite marshall_int64.
    destruct (checkLong_string_range s signed v Hn Hv) as [e ->].
    exists e. reflexivity.
  - intros ps z Hz. rewrite marshall_int64, (checkLong_number signed z Hz). cbn [bind].
    eexists. split; [reflexivity|]. intros Hwf Hoff.
    apply Hvalue; [|exact Hwf|exact Hoff].
    destruct signed; cbn [negb]; [apply toZ_ofZ_signed|apply toZ_ofZ_unsigned]; lia.
  - intros ps s v ps' Hn H Hwf Hoff.
    destruct (Hany _ _ _ H) as [l [Hc ->]].
    apply Hvalue; [|exact Hwf|exact Hoff].
    symmetry. apply (makeLongString_numeral s signed); [|exact Hn].
    unfold checkLong in Hc. cbn [makeLong] in Hc.
    destruct (makeLongString s signed) as [data| |]; try discriminate.
    cbn [bind] in Hc. f_equal.
    destruct signed.
    + destruct (Long.unsigned data); [discriminate|].
      destruct (_ || _); [discriminate|]. now injection Hc.
    + destruct (negb (Long.unsigned data)); [discriminate|].
      destruct (_ || _); [discriminate|]. now injection Hc.
  - intros ps l ps' H Hwf Hoff.
    destruct (Hany _ _ _ H) as [l' [Hc ->]].
    assert (l' = l) as ->.
    { unfold checkLong in Hc. cbn [bind] in Hc. destruct signed.
      - destruct (Long.unsigned l); [discriminate|].
        destruct (_ || _); [discriminate|]. now injection Hc.
      - destruct (negb (Long.unsigned l)); [discriminate|].
        destruct (_ || _); [discriminate|]. now injection Hc. }
    now apply writeLong_bytes.
  - intros ps low high unsigned ps' H Hwf Hoff.
    destruct (Hany _ _ _ H) as [l' [Hc ->]].
    assert (l' = Long.fromBits low high unsigned) as ->.
    { unfold checkLong in Hc. cbn [makeLong bind] in Hc. destruct signed.
      - destruct (Long.unsigned _); [discriminate|].
        destruct (_ || _); [discriminate|]. now injection Hc.
      - destruct (negb (Long.unsigned _)); [discriminate|].
        destruct (_ || _); [discriminate|]. now injection Hc. }
    unfold written.
    rewrite <- (bytesLE_word low), <- (bytesLE_word high).
    rewrite <- !toUint32_toInt32. unfold toUint32. rewrite !bytesLE_word.
    now apply (writeLong_bytes ps _ (Long.fromBits low high unsigned)).
  - intros ps data ps' Hwf Hoff H.
    destruct (Hany _ _ _ H) as [l [Hc ->]]. exists l. split.
    + cbn [check withCheck]. now rewrite Hc.
    + now apply writeLong_bytes.
Qed.

Lemma int64_field_witness :
  (exists e, marshall (withCheck (fun data => let* l := checkLong data true in Done (Some l))
                         writeLong)
               newPut (VString "9223372036854775808") = Throw e) /\
  marshall (withCheck (fun data => let* l := checkLong data false in Done (Some l)) writeLong)
    newPut (VNumber (Int (-1))) = Throw OutsideRange /\
  (exists ps',
      marshall (withCheck (fun data => let* l := checkLong data true in Done (Some l))
                  writeLong)
        newPut (VNumber (Int (-2))) = Done ps' /\
      buffer ps' = [254; 255; 255; 255; 255; 255; 255; 255]) /\
  (exists ps',
      marshall (withCheck (fun data => let* l := checkLong data false in Done (Some l))
                  writeLong)
        newPut (VString "0x100000005") = Done ps' /\
      buffer ps' = [5; 0; 0; 0; 1; 0; 0; 0]).
Proof.
  pose proof (int64_field true _ eq_refl) as Hx.
  pose proof (int64_field false _ eq_refl) as Ht.
  cbv zeta in Hx, Ht.
  destruct Hx as (_ & _ & _ & _ & Hstring & Hnumber & _).
  destruct Ht as (_ & _ & Hrange & _ & _ & _ & Htext & _).
  split; [|split; [|split]].
  - apply (Hstring newPut "9223372036854775808"%string 9223372036854775808).
    + vm_compute. reflexivity.
    + unfold inRange64. lia.
  - apply (Hrange newPut (-1)). left. reflexivity.
  - destruct (Hnumber newPut (-2)) as [ps' [Hm Hw]]; [simpl; lia|].
    exists ps'. split; [exact Hm|].
    destruct Hw as [Hb _]; [split; vm_compute; reflexivity|simpl; lia|].
    rewrite Hb. vm_compute. reflexivity.
  - destruct (marshall _ newPut (VString "0x100000005")) as [ps'| |] eqn:Hm;
      [|vm_compute in Hm; discriminate..].
    exists ps'. split; [reflexivity|].
    assert (Hn : numeral "0x100000005" = Some 4294967301) by (vm_compute; reflexivity).
    destruct (Htext newPut "0x100000005"%string 4294967301 ps' Hn Hm) as [Hb _];
      [split; vm_compute; reflexivity|simpl; lia|].
    rewrite Hb. vm_compute. reflexivity.
Defined.

End MarshallerFacts.

(** ** The type-directed marshaller *)

Module MarshallFacts.
Import Signature Marshallers Message.
Import PutFacts MarshallerFacts.

Ltac solve_wf :=
  repeat match goal with
         | |- Put_wf (advance _ _) => apply advance_wf
         | |- Put_wf (setOffset _ _) => apply setOffset_wf
         | |- Put_wf (word8 _ _) => apply word8_wf
         | |- Put_wf (word16le _ _) => apply word16le_wf
         | |- Put_wf (word32le _ _) => apply word32le_wf
         | |- Put_wf (put _ _) => apply put_wf
         | |- Put_wf (align _ _) => apply align_wf
         | |- Put_wf newPut => apply newPut_wf
         end; try assumption.

Lemma writeSimple_y ps z :
  0 <= z <= 255 ->
  Marshall.writeSimple ps "y" (VNumber (Int z)) = Done (advance (word8 ps z) 1).
Proof.
  intros Hz. unfold Marshall.writeSimple.
  change (MakeSimpleMarshaller "y") with
    (Done (withCheck
            (checkOnly (fun data =>
               let* _ := checkInteger data in checkRange 0 255 (asNumber data)))
            (fun ps data (_ : option Long.t) => advance (word8 ps (asInteger data)) 1))).
  unfold withCheck, checkOnly, checkRange, gtZ, ltZ.
  cbn [bind Marshallers.marshall checkInteger asNumber asInteger].
  destruct (Z.ltb_spec 255 z); [lia|]. destruct (Z.ltb_spec z 0); [lia|]. reflexivity.
Qed.

Lemma writeSimple_u ps z :
  0 <= z <= 4294967295 ->
  Marshall.writeSimple ps "u" (VNumber (Int z)) = Done (advance (word32le (align ps 4) z) 4).
Proof.
  intros Hz. unfold Marshall.writeSimple.
  change (MakeSimpleMarshaller "u") with
    (Done (withCheck
            (checkOnly (fun data =>
               let* _ := checkInteger data in checkRange 0 4294967295 (asNumber data)))
            (fun ps data (_ : option Long.t) =>
               advance (word32le (align ps 4) (asInteger data)) 4))).
  unfold withCheck, checkOnly, checkRange, gtZ, ltZ.
  cbn [bind Marshallers.marshall checkInteger asNumber asInteger].
  destruct (Z.ltb_spec 4294967295 z); [lia|]. destruct (Z.ltb_spec z 0); [lia|]. reflexivity.
Qed.

Lemma writeSimple_g ps (sg : string) :
  sg = "o"%string \/ sg = "s"%string ->
  Marshall.writeSimple ps "g" (VString sg) = Done (writeSignature ps (VString sg) None).
Proof. intros [-> | ->]; reflexivity. Qed.

Lemma writeSimple_s ps (t : ascii) s :
  t = "o"%char \/ t = "s"%char -> noNul s = true ->
  Marshall.writeSimple ps t (VString s) = Done (writeString ps (VString s) None).
Proof.
  intros Ht Hs. unfold Marshall.writeSimple.
  assert (E : MakeSimpleMarshaller (String t EmptyString)
              = Done (withCheck (checkOnly checkValidString) writeString)).
  { destruct Ht as [-> | ->]; reflexivity. }
  rewrite E. unfold withCheck, checkOnly. cbn [bind Marshallers.marshall checkValidString].
  unfold noNul in Hs. apply negb_true_iff in Hs. rewrite Hs. reflexivity.
Qed.

(** A header field whose variant holds a string is written as
    [putStringField] tells. *)
Lemma write_stringField ps id (sg s : string) :
  0 <= id <= 255 -> sg = "o"%string \/ sg = "s"%string -> noNul s = true ->
  Marshall.write ps (Node "(" [Node "y" []; Node "v" []]) (stringField id sg s)
  = Done (Marshall.putStringField ps id sg s).
Proof.
  intros Hid Hsg Hs. unfold stringField, Marshall.putStringField.
  cbn [Marshall.write Signature.type Signature.child Ascii.eqb Bool.eqb orb List.length Nat.eqb negb].
  rewrite writeSimple_y by exact Hid. cbn [bind].
  rewrite writeSimple_g by exact Hsg. cbn [bind].
  destruct Hsg as [-> | ->].
  - change (parseSignature "o") with (Done [Node "o" []]). cbn [bind].
    cbn [Marshall.write Signature.type Ascii.eqb Bool.eqb orb].
    rewrite writeSimple_s; [reflexivity|now left|exact Hs].
  - change (parseSignature "s") with (Done [Node "s" []]). cbn [bind].
    cbn [Marshall.write Signature.type Ascii.eqb Bool.eqb orb].
    rewrite writeSimple_s; [reflexivity|now right|exact Hs].
Qed.

Lemma align_continues ps n :
  Put_wf ps -> 0 <= _offset ps -> 0 < n -> continues ps (align ps n) 0 (n - 1).
Proof.
  intros Hwf Hoff Hn. pose proof (align_wf ps n Hwf) as Hwf'.
  destruct (align_step ps n Hoff Hn) as [Hc [Ho _]]. cbv zeta in Hc, Ho.
  pose proof (Z.mod_pos_bound (n - _offset ps mod n) n Hn) as Hp.
  split; [exact Hwf'|].
  unfold Put_wf in Hwf, Hwf'. rewrite Hc, length_app, repeat_length in Hwf'.
  lia.
Qed.

Lemma utf8_length s : (List.length (Buffer.utf8 s) <= 2 * String.length s)%nat.
Proof.
  unfold Buffer.utf8. induction s as [|c s IH]; simpl; [lia|].
  rewrite length_app. unfold Buffer.utf8_char at 1.
  destruct (_ <? 128); simpl; lia.
Qed.

Lemma putStringField_continues ps id (sg s : string) :
  Put_wf ps -> 0 <= _offset ps -> String.length sg = 1%nat ->
  continues ps (Marshall.putStringField ps id sg s) 0 (19 + 2 * Z.of_nat (String.length s)).
Proof.
  intros Hwf Hoff Hsg. unfold Marshall.putStringField.
  destruct (align_continues ps 8 Hwf Hoff ltac:(lia)) as [W1 [L1 O1]].
  set (p1 := align ps 8) in *.
  set (p2 := writeSignature (advance (word8 p1 id) 1) (VString sg) None).
  assert (W2 : Put_wf p2) by (unfold p2, writeSignature; solve_wf).
  assert (L2 : _length p2 = _length p1 + 4 /\ _offset p2 = _offset p1 + 4).
  { unfold p2, writeSignature, Buffer.ascii. cbn [asString].
    cbn [_length _offset advance word8 put push].
    rewrite length_map. replace (List.length (list_ascii_of_string sg)) with 1%nat.
    - lia.
    - clear -Hsg. destruct sg as [|c [|d sg]]; simpl in *; congruence. }
  destruct L2 as [L2 O2].
  destruct (align_continues p2 4 W2 ltac:(lia) ltac:(lia)) as [W3 [L3 O3]].
  unfold writeString. cbn [asString]. fold p2. set (p3 := align p2 4) in *.
  pose proof (utf8_length s) as Hu.
  split; [|split].
  - solve_wf.
  - cbn [_length _offset advance word8 word32le put push]. lia.
  - cbn [_length _offset advance word8 word32le put push]. lia.
Qed.

Lemma copy_length source : forall target start,
  List.length (Buffer.copy source target start) = List.length target.
Proof.
  induction source as [|b source IH]; intros target start; simpl; [reflexivity|].
  rewrite IH. apply length_insert.
Qed.

Lemma contents_advance ps n : contents (advance ps n) = contents ps.
Proof. reflexivity. Qed.

Lemma contents_put ps b : contents (put ps b) = contents ps ++ b.
Proof. unfold put. now rewrite contents_push. Qed.

(** The header fields of a method call are marshalled without error. *)
Lemma marshall_callFields (path interface member destination : string) :
  noNul path = true -> noNul interface = true ->
  noNul member = true -> noNul destination = true ->
  Z.of_nat (String.length path + String.length interface + String.length member
            + String.length destination) < 2 ^ 28 ->
  exists fieldsBuff,
    Marshall.marshall "a(yv)"
      (VArray [VArray [stringField 1 "o" path; stringField 2 "s" interface;
                       stringField 3 "s" member; stringField 6 "s" destination]]) 12
    = Done fieldsBuff /\
    Z.of_nat (List.length fieldsBuff) < 2 ^ 29 + 100.
Proof.
  intros Hp Hi Hm Hd Hlen.
  unfold Marshall.marshall.
  change (parseSignature "a(yv)") with (Done [Node "a" [Node "(" [Node "y" []; Node "v" []]]]).
  cbn [bind List.length Nat.eqb negb Marshall.writeStruct].
  set (p0 := setOffset newPut 12).
  assert (W0 : Put_wf p0) by reflexivity.
  assert (O0 : _offset p0 = 12) by reflexivity.
  assert (L0 : _length p0 = 0) by reflexivity.
  cbn [Marshall.write Signature.type Signature.child Ascii.eqb Bool.eqb orb].
  change (setOffset newPut (_offset p0)) with p0.
  rewrite writeSimple_u by lia. cbn [bind].
  change (Marshall.aligned8 "(") with true. cbv iota.
  destruct (align_continues p0 4 W0 ltac:(lia) ltac:(lia)) as [Wa [La Oa]].
  set (pa := align p0 4) in *.
  set (pu := advance (word32le pa 0) 4).
  assert (Wu : Put_wf pu) by (unfold pu; solve_wf).
  assert (Lu : _length pu = _length pa + 4) by reflexivity.
  assert (Ou : _offset pu = _offset pa + 4) by reflexivity.
  destruct (align_continues pu 8 Wu ltac:(lia) ltac:(lia)) as [Wb [Lb Ob]].
  set (pb := align pu 8) in *.
  rewrite (write_stringField pb 1 "o" path) by (try lia; auto).
  cbn [bind].
  destruct (putStringField_continues pb 1 "o" path Wb ltac:(lia) eq_refl) as [W1 [L1 O1]].
  set (p1 := Marshall.putStringField pb 1 "o" path) in *.
  rewrite (write_stringField p1 2 "s" interface) by (try lia; auto).
  cbn [bind].
  destruct (putStringField_continues p1 2 "s" interface W1 ltac:(lia) eq_refl) as [W2 [L2 O2]].
  set (p2 := Marshall.putStringField p1 2 "s" interface) in *.
  rewrite (write_stringField p2 3 "s" member) by (try lia; auto).
  cbn [bind].
  destruct (putStringField_continues p2 3 "s" member W2 ltac:(lia) eq_refl) as [W3 [L3 O3]].
  set (p3 := Marshall.putStringField p2 3 "s" member) in *.
  rewrite (write_stringField p3 6 "s" destination) by (try lia; auto).
  cbn [bind].
  destruct (putStringField_continues p3 6 "s" destination W3 ltac:(lia) eq_refl) as [W4 [L4 O4]].
  set (p4 := Marshall.putStringField p3 6 "s" destination) in *.
  assert (Hr : (_offset p4 - _offset pb <? 0) || (4294967295 <? _offset p4 - _offset pb) = false).
  { apply orb_false_intro; [apply Z.ltb_ge|apply Z.ltb_ge]; lia. }
  rewrite Hr.
  set (arrBuff := Buffer.copy _ (buffer p4) _).
  assert (Hal : Z.of_nat (List.length arrBuff) = _length p4).
  { unfold arrBuff. rewrite copy_length, (buffer_contents _ W4). symmetry. exact W4. }
  cbn [bind].
  eexists. split; [reflexivity|].
  rewrite buffer_contents by solve_wf.
  rewrite contents_advance, contents_put.
  replace (contents p0) with (@nil Z) by reflexivity.
  rewrite app_nil_l. lia.
Qed.

Lemma align_aligned ps n :
  0 <= _offset ps -> 0 < n -> _offset ps mod n = 0 -> align ps n = ps.
Proof. intros Ho Hn Hm. now apply (align_step ps n Ho Hn). Qed.

Lemma bytesLE_byte z : 0 <= z <= 255 -> Buffer.bytesLE 1 z = [z].
Proof.
  intros Hz. unfold Buffer.bytesLE. simpl. rewrite Z.shiftr_0_r.
  change 255 with (Z.ones 8). rewrite Z.land_ones by lia.
  rewrite Z.mod_small; [reflexivity|]. change (2 ^ 8) with 256. lia.
Qed.

(** The fixed part of the header of a message without body. *)
Lemma marshall_fixed flags serial :
  0 <= flags <= 255 -> 0 <= serial <= 4294967295 ->
  Marshall.marshall "yyyyuu"
    (VArray [VNumber (Int 108); VNumber (Int 1); VNumber (Int flags); VNumber (Int 1);
             VNumber (Int 0); VNumber (Int serial)]) 0
  = Done ([108; 1; flags; 1] ++ [0; 0; 0; 0] ++ Buffer.bytesLE 4 serial).
Proof.
  intros Hf Hs. unfold Marshall.marshall.
  change (parseSignature "yyyyuu") with
    (Done [Node "y" []; Node "y" []; Node "y" []; Node "y" []; Node "u" []; Node "u" []]).
  cbn [bind List.length Nat.eqb negb Marshall.writeStruct].
  cbn [Marshall.write Signature.type Ascii.eqb Bool.eqb orb].
  rewrite !writeSimple_y by lia. cbn [bind].
  rewrite !writeSimple_y by lia. cbn [bind].
  rewrite !writeSimple_y by lia. cbn [bind].
  rewrite !writeSimple_y by lia. cbn [bind].
  rewrite writeSimple_u by lia. cbn [bind].
  rewrite (align_aligned _ 4) by (try reflexivity; cbn; lia).
  rewrite writeSimple_u by lia. cbn [bind].
  rewrite (align_aligned _ 4) by (try reflexivity; cbn; lia).
  rewrite buffer_contents by solve_wf.
  unfold word32le, word8.
  repeat first [rewrite contents_push | rewrite contents_advance].
  rewrite !wordBytes_LE by lia.
  rewrite !bytesLE_byte by lia.
  replace (contents (setOffset newPut 0)) with (@nil Z) by reflexivity.
  reflexivity.
Qed.

Lemma writeSimple_n ps z :
  - 32768 <= z <= 32767 ->
  Marshall.writeSimple ps "n" (VNumber (Int z))
  = Done (advance (put (align ps 2) (Buffer.bytesLE 2 z)) 2).
Proof.
  intros Hz. unfold Marshall.writeSimple.
  change (MakeSimpleMarshaller "n") with
    (Done (withCheck
            (checkOnly (fun data =>
               let* _ := checkInteger data in
               checkRange (- 32767 - 1) 32767 (asNumber data)))
            (fun ps data (_ : option Long.t) =>
               advance (put (align ps 2) (Buffer.bytesLE 2 (asInteger data))) 2))).
  unfold withCheck, checkOnly, checkRange, gtZ, ltZ.
  cbn [bind Marshallers.marshall checkInteger asNumber asInteger].
  destruct (Z.ltb_spec 32767 z); [lia|].
  destruct (Z.ltb_spec z (- 32767 - 1)); [lia|]. reflexivity.
Qed.

(** C4: the values 10 and 1000 under the signature ["nn"], from offset 0,
    become the four bytes [0a 00 e8 03]; and so for every two signed 16-bit
    integers: the two bytes of the first, then the two bytes of the second,
    each least significant byte first, with nothing between them. *)
Theorem marshall_nn :
  Marshall.marshall "nn" (VArray [VNumber (Int 10); VNumber (Int 1000)]) 0
  = Done [0x0a; 0x00; 0xe8; 0x03] /\
  (forall a b,
      - 32768 <= a <= 32767 -> - 32768 <= b <= 32767 ->
      Marshall.marshall "nn" (VArray [VNumber (Int a); VNumber (Int b)]) 0
      = Done (Buffer.bytesLE 2 a ++ Buffer.bytesLE 2 b)).
Proof.
  split; [reflexivity|].
  intros a b Ha Hb. unfold Marshall.marshall.
  change (parseSignature "nn") with (Done [Node "n" []; Node "n" []]).
  cbn [bind List.length Nat.eqb negb Marshall.writeStruct].
  cbn [Marshall.write Signature.type Ascii.eqb Bool.eqb orb].
  rewrite writeSimple_n by lia. cbn [bind].
  rewrite (align_aligned _ 2) by (try reflexivity; cbn; lia).
  rewrite writeSimple_n by lia. cbn [bind].
  rewrite (align_aligned _ 2) by (try reflexivity; cbn; lia).
  rewrite buffer_contents by solve_wf.
  repeat first [rewrite contents_put | rewrite contents_advance].
  replace (contents (setOffset newPut 0)) with (@nil Z) by reflexivity.
  reflexivity.
Qed.

Lemma marshall_nn_witness :
  Marshall.marshall "nn" (VArray [VNumber (Int (-2)); VNumber (Int 32767)]) 0
  = Done [0xfe; 0xff; 0xff; 0x7f].
Proof.
  apply (proj2 marshall_nn (-2) 32767); lia.
Defined.

End MarshallFacts.

(** ** The message codec *)

Module MessageFacts.
Import Signature Marshallers Message Constants.
Import PutFacts MarshallerFacts MarshallFacts.

Lemma validName_spec s : validName s = true -> s <> EmptyString /\ noNul s = true.
Proof.
  unfold validName. intros H. apply andb_true_iff in H as [H1 H2].
  split; [|exact H2]. intros ->. discriminate.
Qed.

Lemma truthy_name (s : string) : s <> EmptyString -> truthy (VString s) = true.
Proof. destruct s; [congruence|reflexivity]. Qed.

Lemma sar_shl_round x :
  0 <= x < 2 ^ 30 -> shl (sar (x + 7) 3) 3 = 8 * ((x + 7) / 8).
Proof.
  intros Hx. unfold shl, sar.
  change (3 mod 32) with 3.
  rewrite (toInt32_small (x + 7)) by lia.
  rewrite Z.shiftr_div_pow2 by lia. change (2 ^ 3) with 8.
  assert (0 <= (x + 7) / 8 < 2 ^ 28).
  { split; [apply Z.div_pos; lia|]. apply Z.div_lt_upper_bound; lia. }
  rewrite (toInt32_small ((x + 7) / 8)) by lia.
  rewrite Z.shiftl_mul_pow2 by lia. change (2 ^ 3) with 8.
  rewrite toInt32_small by lia. lia.
Qed.

Lemma copy_prefix source : forall rest,
  Buffer.copy source (repeat 0 (List.length source) ++ rest) 0 = source ++ rest.
Proof.
  intros rest.
  apply (copy_middle source [] (repeat 0 (List.length source)) rest).
  apply repeat_length.
Qed.

(** C6: a method call with serial, path, interface, member and destination
    set, the other header fields unset and no body.  Its header fields are
    the entries for path (1), interface (2), member (3) and destination (6),
    in the order of the enumeration [headerTypeName]; [marshall] returns the
    fixed header - endianness, type, flags, version, a body length of 0 and
    the serial - followed by the array of those entries and at most seven
    zero bytes; the length of the whole is a multiple of 8. *)
Theorem method_call_envelope (message : gmap string Value) (serial flags : Z)
    (path interface member destination : string) :
  message !! "serial"%string = Some (VNumber (Int serial)) -> 1 <= serial <= 4294967295 ->
  message !! "type"%string = None \/ message !! "type"%string = Some (VNumber (Int methodCall)) ->
  message !! "flags"%string = None /\ flags = 0 \/
  message !! "flags"%string = Some (VNumber (Int flags)) /\ 0 <= flags <= 255 ->
  message !! "path"%string = Some (VString path) ->
  message !! "interface"%string = Some (VString interface) ->
  message !! "member"%string = Some (VString member) ->
  message !! "destination"%string = Some (VString destination) ->
  message !! "errorName"%string = None -> message !! "replySerial"%string = None ->
  message !! "sender"%string = None -> message !! "signature"%string = None ->
  validName path = true -> validName interface = true ->
  validName member = true -> validName destination = true ->
  Z.of_nat (String.length path + String.length interface + String.length member
            + String.length destination) < 2 ^ 28 ->
  exists (fieldsBuff : list Z) (padding : nat),
    headerFields message
    = [stringField 1 "o" path; stringField 2 "s" interface;
       stringField 3 "s" member; stringField 6 "s" destination] /\
    Marshall.marshall "a(yv)" (VArray [VArray (headerFields message)]) 12 = Done fieldsBuff /\
    Message.marshall message
    = Done ([le; methodCall; flags; protocolVersion] ++ [0; 0; 0; 0]
            ++ Buffer.bytesLE 4 serial ++ fieldsBuff ++ repeat 0 padding) /\
    (padding < 8)%nat /\
    (exists messageBuff, Message.marshall message = Done messageBuff /\
                         Z.of_nat (List.length messageBuff) mod 8 = 0).
Proof.
  intros Hserial Hs Htype Hflags Hpath Hiface Hmember Hdest He Hr Hsd Hsg
         Vp Vi Vm Vd Hlen.
  apply validName_spec in Vp as [Np Vp]. apply validName_spec in Vi as [Ni Vi].
  apply validName_spec in Vm as [Nm Vm]. apply validName_spec in Vd as [Nd Vd].
  assert (Hfields : headerFields message
    = [stringField 1 "o" path; stringField 2 "s" interface;
       stringField 3 "s" member; stringField 6 "s" destination]).
  { unfold headerFields, headerTypeName. cbn [flat_map]. unfold headerField, field.
    rewrite Hpath, Hiface, Hmember, Hdest, He, Hr, Hsd, Hsg.
    rewrite !truthy_name by assumption. reflexivity. }
  destruct (marshall_callFields path interface member destination Vp Vi Vm Vd Hlen)
    as [fieldsBuff [Hfb Hfl]].
  assert (Hmsg : exists padding,
    Message.marshall message
    = Done ([le; methodCall; flags; protocolVersion] ++ [0; 0; 0; 0]
            ++ Buffer.bytesLE 4 serial ++ fieldsBuff ++ repeat 0 padding) /\
    (padding < 8)%nat /\
    (12 + Z.of_nat (List.length fieldsBuff) + Z.of_nat padding) mod 8 = 0).
  { unfold Message.marshall. rewrite Hfields. unfold field. rewrite Hserial, Hsg.
    assert (Ts : truthy (VNumber (Int serial)) = true).
    { destruct serial; try reflexivity. lia. }
    rewrite Ts. cbn [negb truthy andb bind List.length].
    assert (Ef : orElse match message !! "flags"%string with
                        | Some value => value | None => VUndefined end
                   (VNumber (Int 0)) = VNumber (Int flags)).
    { destruct Hflags as [[-> ->]|[-> _]]; [reflexivity|].
      unfold orElse. destruct flags; reflexivity. }
    assert (Et : orElse match message !! "type"%string with
                        | Some value => value | None => VUndefined end
                   (VNumber (Int methodCall)) = VNumber (Int methodCall)).
    { destruct Htype as [-> | ->]; reflexivity. }
    rewrite Ef, Et.
    assert (F0 : 0 <= flags <= 255) by (destruct Hflags as [[_ ->]|[_ H]]; lia).
    change (Z.of_nat 0) with 0.
    unfold le, methodCall, protocolVersion.
    rewrite (marshall_fixed flags serial) by lia. cbn [bind].
    rewrite Hfb. cbn [bind].
    set (hb := [108; 1; flags; 1] ++ [0; 0; 0; 0] ++ Buffer.bytesLE 4 serial).
    assert (Hhb : List.length hb = 12%nat) by reflexivity.
    rewrite Hhb. change (Z.of_nat 12) with 12.
    set (n := Z.of_nat (List.length fieldsBuff)) in *.
    rewrite (sar_shl_round (12 + n)) by lia.
    rewrite Z.add_0_r.
    set (total := 8 * ((12 + n + 7) / 8)).
    assert (Htot : 12 + n <= total < 12 + n + 8 /\ total mod 8 = 0).
    { unfold total. pose proof (Z.div_mod (12 + n + 7) 8 ltac:(lia)).
      pose proof (Z.mod_pos_bound (12 + n + 7) 8 ltac:(lia)).
      split; [lia|]. rewrite Z.mul_comm. apply Z.mod_mul. lia. }
    destruct (Z.ltb_spec total 0); [lia|].
    change (0 <? 0) with false. cbv iota.
    exists (Z.to_nat (total - 12 - n)).
    split; [|split; [lia|]].
    - f_equal. unfold Buffer.alloc.
      replace (Z.to_nat total)
        with (List.length hb + (List.length fieldsBuff + Z.to_nat (total - 12 - n)))%nat by lia.
      rewrite !repeat_app.
      rewrite (copy_prefix hb).
      rewrite (copy_middle fieldsBuff hb (repeat 0 (List.length fieldsBuff))) by apply repeat_length.
      unfold hb. now rewrite <- !app_assoc.
    - replace (12 + n + Z.of_nat (Z.to_nat (total - 12 - n))) with total by lia.
      apply Htot. }
  destruct Hmsg as [padding [Hm [Hp Hmod]]].
  exists fieldsBuff, padding.
  split; [exact Hfields|]. split; [rewrite Hfields; exact Hfb|].
  split; [exact Hm|]. split; [exact Hp|].
  eexists. split; [exact Hm|].
  rewrite !length_app, repeat_length. cbn [List.length].
  unfold Buffer.bytesLE. rewrite length_map, length_seq.
  replace (Z.of_nat (4 + (4 + (4 + (List.length fieldsBuff + padding)))))
    with (12 + Z.of_nat (List.length fieldsBuff) + Z.of_nat padding) by lia.
  exact Hmod.
Qed.

(** The [Hello] call of the specification's scenario. *)
Lemma method_call_envelope_witness :
  let hello : gmap string Value :=
    list_to_map
      [("type", VNumber (Int 1)); ("serial", VNumber (Int 1));
       ("destination", VString "org.freedesktop.DBus");
       ("path", VString "/org/freedesktop/DBus");
       ("interface", VString "org.freedesktop.DBus");
       ("member", VString "Hello")]%string in
  exists (fieldsBuff : list Z) (padding : nat),
    headerFields hello
    = [stringField 1 "o" "/org/freedesktop/DBus"; stringField 2 "s" "org.freedesktop.DBus";
       stringField 3 "s" "Hello"; stringField 6 "s" "org.freedesktop.DBus"] /\
    Marshall.marshall "a(yv)" (VArray [VArray (headerFields hello)]) 12 = Done fieldsBuff /\
    Message.marshall hello
    = Done ([le; methodCall; 0; protocolVersion] ++ [0; 0; 0; 0]
            ++ Buffer.bytesLE 4 1 ++ fieldsBuff ++ repeat 0 padding) /\
    (padding < 8)%nat /\
    (exists messageBuff, Message.marshall hello = Done messageBuff /\
                         Z.of_nat (List.length messageBuff) mod 8 = 0).
Proof.
  intros hello.
  apply (method_call_envelope hello 1 0
           "/org/freedesktop/DBus" "org.freedesktop.DBus" "Hello" "org.freedesktop.DBus");
    try reflexivity; try lia.
  - right. reflexivity.
  - left. split; reflexivity.
Defined.

(** The bytes of that call: 128 of them, the array of header fields being
    109 bytes long. *)
Example hello_bytes :
  Message.marshall
    (list_to_map
       [("type", VNumber (Int 1)); ("serial", VNumber (Int 1));
        ("destination", VString "org.freedesktop.DBus");
        ("path", VString "/org/freedesktop/DBus");
        ("interface", VString "org.freedesktop.DBus");
        ("member", VString "Hello")]%string)
  = Done
      [108; 1; 0; 1; 0; 0; 0; 0; 1; 0; 0; 0; 109; 0; 0; 0;
       1; 1; 111; 0; 21; 0; 0; 0;
       47; 111; 114; 103; 47; 102; 114; 101; 101; 100; 101; 115; 107; 116; 111; 112;
       47; 68; 66; 117; 115; 0; 0; 0;
       2; 1; 115; 0; 20; 0; 0; 0;
       111; 114; 103; 46; 102; 114; 101; 101; 100; 101; 115; 107; 116; 111; 112; 46;
       68; 66; 117; 115; 0; 0; 0; 0;
       3; 1; 115; 0; 5; 0; 0; 0; 72; 101; 108; 108; 111; 0; 0; 0;
       6; 1; 115; 0; 20; 0; 0; 0;
       111; 114; 103; 46; 102; 114; 101; 101; 100; 101; 115; 107; 116; 111; 112; 46;
       68; 66; 117; 115; 0; 0; 0; 0].
Proof. vm_compute. reflexivity. Qed.

End MessageFacts.

(** ** The introspection proxy *)

Module IntrospectFacts.
Import Introspect.

(** What the reply callback of [getProperty] does with a variant whose
    first component is a string, as the mocks of the tests give it: the
    value list is unwrapped exactly when that string has one character. *)
Lemma unwrapVariant_string (signature : string) (value : list Value) :
  unwrapVariant None (VArray [VString signature; VArray value])
  = Done (Some (Completed None
      (if bool_decide (String.length signature = 1%nat)
       then nth 0 value VUndefined else VArray value))).
Proof.
  unfold unwrapVariant. simpl.
  destruct (bool_decide_reflect (String.length signature = 1%nat)) as [E|E].
  - rewrite E. reflexivity.
  - rewrite bool_decide_eq_false_2; [reflexivity|].
    intros H. apply E. injection H as H. lia.
Qed.

(** The variant of a reply, as the decoder gives it: [readVariant] of
    [lib/dbus-buffer], which the roadmap quotes, returns
    [[tree, this.readStruct(tree)]], the parsed signature (an array with one
    node for each top-level type) and the array of the values. *)
Lemma unwrapVariant_tree (tree : list Signature.SignatureNode) (value : list Value) :
  unwrapVariant None (VArray [VArray (map VSignatureNode tree); VArray value])
  = Done (Some (Completed None
      (if bool_decide (List.length tree = 1%nat)
       then nth 0 value VUndefined else VArray value))).
Proof.
  unfold unwrapVariant. cbn [item nth lengthOf bind]. rewrite length_map.
  destruct (bool_decide_reflect (List.length tree = 1%nat)) as [E|E].
  - rewrite E. reflexivity.
  - rewrite bool_decide_eq_false_2; [reflexivity|].
    intros H. apply E. injection H as H. lia.
Qed.

(** C7: [getProperty] hands [Get] to the bus, and its reply callback
    unwraps the variant of the reply by the number of top-level types of its
    signature: when the signature parses to exactly one type, however many
    characters it has (["ai"], ["a{sv}"]), the caller's callback receives
    the single value; when it parses to more than one, the list of values
    as it is. *)
Theorem getProperty_unwraps_single_type (this : DBusInterface) (propertyName : string)
    (signature : string) (tree : list Signature.SignatureNode) (value : list Value) :
  Signature.parseSignature signature = Done tree ->
  let reply := VArray [VArray (map VSignatureNode tree); VArray value] in
  exists message onReply,
    getProperty this propertyName = Invoke message onReply /\
    member message = "Get"%string /\
    (List.length tree = 1%nat ->
     onReply None reply = Done (Some (Completed None (nth 0 value VUndefined)))) /\
    (1 < List.length tree ->
     onReply None reply = Done (Some (Completed None (VArray value))))%nat.
Proof.
  intros _ reply. eexists _, unwrapVariant. split; [reflexivity|].
  split; [reflexivity|]. unfold reply. rewrite unwrapVariant_tree. split.
  - intros E. now rewrite bool_decide_eq_true_2.
  - intros E. rewrite bool_decide_eq_false_2; [reflexivity|lia].
Qed.

Lemma getProperty_unwraps_single_type_witness :
  let this := mkInterface "com.x.Svc" ∅ ∅ ∅ (mkObject "/svc" "com.x") ∅ 0 in
  let dict := [VArray [VString "k"; VArray [VArray [VSignatureNode (Signature.Node "i" [])];
                                             VArray [VNumber (Int 1)]]]] in
  let tree := [Signature.Node "a" [Signature.Node "{" [Signature.Node "s" [];
                                                       Signature.Node "v" []]]] in
  exists message onReply,
    getProperty this "Settings" = Invoke message onReply /\
    member message = "Get"%string /\
    (List.length tree = 1%nat ->
     onReply None (VArray [VArray (map VSignatureNode tree); VArray [VArray dict]])
     = Done (Some (Completed None (nth 0 [VArray dict] VUndefined)))) /\
    (1 < List.length tree ->
     onReply None (VArray [VArray (map VSignatureNode tree); VArray [VArray dict]])
     = Done (Some (Completed None (VArray [VArray dict]))))%nat.
Proof.
  cbv zeta.
  apply (getProperty_unwraps_single_type _ "Settings" "a{sv}"
           [Signature.Node "a" [Signature.Node "{" [Signature.Node "s" [];
                                                    Signature.Node "v" []]]]).
  reflexivity.
Defined.

(** C8 (as the spec states it) fails: [call] with a method name that the
    method table does not have, and [getProperty] with an unknown property
    name, both hand a message to [bus.invoke]. *)
Lemma unknown_method_reaches_bus :
  let this := mkInterface "com.x.Svc" ∅ ∅ ∅ (mkObject "/svc" "com.x") ∅ 0 in
  methods this !! "Missing"%string = None /\
  call this "Missing" []
  = Invoke (mkMessage "com.x" "/svc" "com.x.Svc" "Missing" None None) passOn /\
  (forall completion, call this "Missing" [] <> Complete completion) /\
  properties this !! "Missing"%string = None /\
  getProperty this "Missing"
  = Invoke (mkMessage "com.x" "/svc" "org.freedesktop.DBus.Properties" "Get"
              (Some "ss"%string) (Some [VString "com.x.Svc"; VString "Missing"]))
           unwrapVariant /\
  (forall completion, getProperty this "Missing" <> Complete completion).
Proof. repeat split; discriminate. Qed.

(** C8 (as the code has it): [setProperty] with a property name that the
    property table does not have calls the callback with a [DBusError] named
    [org.freedesktop.DBus.Error.UnknownProperty] and hands nothing to the
    bus (without a callback it does nothing at all); [call] with a method
    name that the method table does not have hands the bus a message
    without signature and body, and passes the reply on. *)
Theorem unknown_names (this : DBusInterface) :
  (forall propertyName value,
      properties this !! propertyName = None ->
      (exists text,
          setProperty this propertyName value true
          = Complete (Completed
              (Some (mkDBusError "org.freedesktop.DBus.Error.UnknownProperty" text))
              VUndefined)) /\
      setProperty this propertyName value false = Idle) /\
  (forall methodName args,
      methods this !! methodName = None ->
      call this methodName args
      = Invoke {| destination := serviceName (parent this);
                  path := objectName (parent this);
                  interface := name this;
                  member := methodName;
                  signature := None;
                  body := None |} passOn).
Proof.
  split.
  - intros propertyName value H. unfold setProperty. rewrite H.
    split; [eexists|]; reflexivity.
  - intros methodName args H. unfold call. rewrite H. reflexivity.
Qed.

Lemma unknown_names_witness :
  let this := mkInterface "com.x.Svc" ∅ ∅ ∅ (mkObject "/svc" "com.x") ∅ 0 in
  setProperty this "Volume" (VNumber (Int 75)) false = Idle /\
  call this "Missing" []
  = Invoke (mkMessage "com.x" "/svc" "com.x.Svc" "Missing" None None) passOn.
Proof.
  intros this. split.
  - apply (proj1 (unknown_names this) "Volume"%string (VNumber (Int 75))). reflexivity.
  - apply (proj2 (unknown_names this) "Missing"%string []). reflexivity.
Defined.

Lemma listeners_on emitter event w :
  EventEmitter.listeners (EventEmitter.on emitter event w) event
  = EventEmitter.listeners emitter event ++ [w].
Proof. unfold EventEmitter.listeners at 1, EventEmitter.on. now rewrite lookup_insert_eq. Qed.

Lemma listeners_removeListener emitter event w :
  EventEmitter.listeners (EventEmitter.removeListener emitter event w) event
  = rev (EventEmitter.removeFirst w (rev (EventEmitter.listeners emitter event))).
Proof.
  unfold EventEmitter.listeners at 1, EventEmitter.removeListener.
  now rewrite lookup_insert_eq.
Qed.

Lemma wrapHandler_lookup this h :
  handlerMap (fst (wrapHandler this h)) !! h = Some (snd (wrapHandler this h)).
Proof.
  unfold wrapHandler. destruct (handlerMap this !! h) eqn:E; simpl.
  - exact E.
  - now rewrite lookup_insert_eq.
Qed.

Lemma wrapHandler_other this h h' w :
  handlerMap this !! h' = Some w -> handlerMap (fst (wrapHandler this h)) !! h' = Some w.
Proof.
  unfold wrapHandler. destruct (handlerMap this !! h) eqn:E; simpl; [auto|].
  intros H. rewrite lookup_insert_ne; [exact H|]. congruence.
Qed.

Lemma wrapHandler_same this h :
  name (fst (wrapHandler this h)) = name this /\
  parent (fst (wrapHandler this h)) = parent this.
Proof. unfold wrapHandler. destruct (handlerMap this !! h); split; reflexivity. Qed.

(** A first add calls the broker; an add of a rule that is counted already
    does not. *)
Lemma addMatch_first bus rule :
  default O (Bus.matchRules bus !! rule) = O ->
  Bus.addMatch bus rule
  = (Bus.withRules bus (<[rule := 1%nat]> (Bus.matchRules bus))
       (Bus.brokerCalls bus ++ [AddMatch rule]),
     Bus.broker bus (AddMatch rule)).
Proof. intros H. unfold Bus.addMatch. now rewrite H. Qed.

Lemma addMatch_again bus rule count :
  Bus.matchRules bus !! rule = Some (S count) ->
  Bus.addMatch bus rule
  = (Bus.withRules bus (<[rule := S (S count)]> (Bus.matchRules bus)) (Bus.brokerCalls bus),
     None).
Proof. intros H. unfold Bus.addMatch. now rewrite H. Qed.

(** A remove of a rule counted once calls the broker; of a rule counted
    more than once it does not. *)
Lemma removeMatch_last bus rule :
  Bus.matchRules bus !! rule = Some 1%nat ->
  Bus.removeMatch bus rule
  = (Bus.withRules bus (<[rule := O]> (Bus.matchRules bus))
       (Bus.brokerCalls bus ++ [RemoveMatch rule]),
     Bus.broker bus (RemoveMatch rule)).
Proof. intros H. unfold Bus.removeMatch. now rewrite H. Qed.

Lemma removeMatch_counted bus rule count :
  Bus.matchRules bus !! rule = Some (S (S count)) ->
  Bus.removeMatch bus rule
  = (Bus.withRules bus (<[rule := S count]> (Bus.matchRules bus)) (Bus.brokerCalls bus),
     None).
Proof. intros H. unfold Bus.removeMatch. now rewrite H. Qed.

(** [on] for a signal without listener: [bus.addMatch], and the listener is
    left to its callback. *)
Lemma on_first this bus signalName h :
  let event := Bus.mangle bus (objectName (parent this)) (name this) signalName in
  let rule := getMatchRule (objectName (parent this)) (name this) signalName in
  EventEmitter.listeners (Bus.signals bus) event = [] ->
  on this bus signalName h
  = (fst (wrapHandler this h),
     fst (Bus.addMatch bus rule),
     Some (AddMatchCallback event (snd (wrapHandler this h))
             (snd (Bus.addMatch bus rule)))).
Proof.
  intros event rule Hl. unfold on. fold event.
  destruct (wrapHandler_same this h) as [Hn Hp].
  destruct (wrapHandler this h) as [this' w]. simpl in *.
  rewrite Hl. simpl. rewrite Hn, Hp. fold rule.
  now destruct (Bus.addMatch bus rule).
Qed.

(** [on] for a signal that has a listener: the registration alone. *)
Lemma on_next this bus signalName h :
  let event := Bus.mangle bus (objectName (parent this)) (name this) signalName in
  EventEmitter.listeners (Bus.signals bus) event <> [] ->
  on this bus signalName h
  = (fst (wrapHandler this h),
     Bus.withSignals bus (EventEmitter.on (Bus.signals bus) event (snd (wrapHandler this h))),
     None).
Proof.
  intros event Hl. unfold on. fold event.
  assert (Hb : bool_decide (List.length (EventEmitter.listeners (Bus.signals bus) event) = O)
               = false).
  { apply bool_decide_eq_false_2.
    destruct (EventEmitter.listeners (Bus.signals bus) event); [congruence|discriminate]. }
  destruct (wrapHandler this h) as [this' w]. simpl. rewrite Hb. reflexivity.
Qed.

(** Removing a listener that is not the last one: no call to the bus. *)
Lemma off_keeps this bus signalName h w :
  let event := Bus.mangle bus (objectName (parent this)) (name this) signalName in
  handlerMap this !! h = Some w ->
  rev (EventEmitter.removeFirst w (rev (EventEmitter.listeners (Bus.signals bus) event))) <> [] ->
  off this bus signalName h
  = (this, Bus.withSignals bus (EventEmitter.removeListener (Bus.signals bus) event w), None).
Proof.
  intros event Hw Hl. unfold off. fold event. rewrite Hw.
  rewrite bool_decide_eq_false_2; [reflexivity|].
  cbn [Bus.signals Bus.withSignals].
  rewrite listeners_removeListener.
  destruct (rev _); [congruence|discriminate].
Qed.

(** Removing the last listener: [bus.removeMatch]. *)
Lemma off_last this bus signalName h w :
  let event := Bus.mangle bus (objectName (parent this)) (name this) signalName in
  let rule := getMatchRule (objectName (parent this)) (name this) signalName in
  let bus' := Bus.withSignals bus (EventEmitter.removeListener (Bus.signals bus) event w) in
  handlerMap this !! h = Some w ->
  rev (EventEmitter.removeFirst w (rev (EventEmitter.listeners (Bus.signals bus) event))) = [] ->
  off this bus signalName h
  = (this, fst (Bus.removeMatch bus' rule),
     Some (RemoveMatchCallback h (snd (Bus.removeMatch bus' rule)))).
Proof.
  intros event rule bus' Hw Hl. unfold off. fold event. rewrite Hw.
  cbn [Bus.signals Bus.withSignals].
  rewrite listeners_removeListener, Hl. simpl. fold rule. fold bus'.
  now destruct (Bus.removeMatch bus' rule).
Qed.

Lemma removeFirst_two (w1 w2 : nat) :
  exists w, rev (EventEmitter.removeFirst w1 (rev [w1; w2])) = [w] /\
            (w = w2 \/ w1 = w2).
Proof.
  simpl. destruct (Nat.eqb_spec w2 w1) as [->|Hne].
  - exists w1. split; [reflexivity|now left].
  - rewrite Nat.eqb_refl. exists w2. split; [reflexivity|now left].
Qed.

Lemma removeFirst_one (w w1 w2 : nat) :
  rev (EventEmitter.removeFirst w1 (rev [w1; w2])) = [w] -> w = w2 \/ w1 = w2 ->
  rev (EventEmitter.removeFirst w2 (rev [w])) = [].
Proof.
  intros Hw [->| ->]; simpl.
  - now rewrite Nat.eqb_refl.
  - simpl in Hw. rewrite Nat.eqb_refl in Hw. injection Hw as <-.
    now rewrite Nat.eqb_refl.
Qed.

(** When the broker has answered the first [AddMatch] before the second
    listener is registered, the calls are those of the scenario: one
    [AddMatch] for the two listeners, none when the first is removed, one
    [RemoveMatch] when the second is. *)
Lemma sequential_listeners_match_once (this : DBusInterface) (bus : Bus.t)
    (signalName : string) (handler1 handler2 : nat) :
  let event := Bus.mangle bus (objectName (parent this)) (name this) signalName in
  let rule := getMatchRule (objectName (parent this)) (name this) signalName in
  EventEmitter.listeners (Bus.signals bus) event = [] ->
  default O (Bus.matchRules bus !! rule) = O ->
  Bus.broker bus (AddMatch rule) = None ->
  Bus.broker bus (RemoveMatch rule) = None ->
  exists this1 bus1 added bus2 this3 bus3 bus4 bus5 removed this6,
    on this bus signalName handler1 = (this1, bus1, Some added) /\
    run this1 bus1 added = (this1, bus2, None) /\
    on this1 bus2 signalName handler2 = (this3, bus3, None) /\
    Bus.brokerCalls bus3 = Bus.brokerCalls bus ++ [AddMatch rule] /\
    off this3 bus3 signalName handler1 = (this3, bus4, None) /\
    Bus.brokerCalls bus4 = Bus.brokerCalls bus ++ [AddMatch rule] /\
    off this3 bus4 signalName handler2 = (this3, bus5, Some removed) /\
    Bus.brokerCalls bus5 = Bus.brokerCalls bus ++ [AddMatch rule; RemoveMatch rule] /\
    run this3 bus5 removed = (this6, bus5, None).
Proof.
  intros event rule Hl Hr Ha Hrm.
  pose proof (on_first this bus signalName handler1 Hl) as H1.
  fold event rule in H1. rewrite (addMatch_first _ _ Hr), Ha in H1. cbn [fst snd] in H1.
  set (this1 := fst (wrapHandler this handler1)) in *.
  set (w1 := snd (wrapHandler this handler1)) in *.
  set (bus1 := Bus.withRules bus _ _) in H1.
  destruct (wrapHandler_same this handler1) as [Hn1 Hp1]. fold this1 in Hn1, Hp1.
  set (bus2 := Bus.withSignals bus1 (EventEmitter.on (Bus.signals bus1) event w1)).
  assert (Hl2 : EventEmitter.listeners (Bus.signals bus2) event = [w1]).
  { unfold bus2. cbn [Bus.signals Bus.withSignals]. rewrite listeners_on.
    unfold bus1. cbn [Bus.signals Bus.withRules]. now rewrite Hl. }
  assert (He1 : Bus.mangle bus2 (objectName (parent this1)) (name this1) signalName = event).
  { rewrite Hn1, Hp1. reflexivity. }
  pose proof (on_next this1 bus2 signalName handler2) as H3.
  cbv zeta in H3. rewrite He1 in H3. specialize (H3 ltac:(rewrite Hl2; discriminate)).
  set (this3 := fst (wrapHandler this1 handler2)) in *.
  set (w2 := snd (wrapHandler this1 handler2)) in *.
  set (bus3 := Bus.withSignals bus2 _) in H3.
  destruct (wrapHandler_same this1 handler2) as [Hn3 Hp3]. fold this3 in Hn3, Hp3.
  assert (Hl3 : EventEmitter.listeners (Bus.signals bus3) event = [w1; w2]).
  { unfold bus3. cbn [Bus.signals Bus.withSignals]. now rewrite listeners_on, Hl2. }
  assert (He3 : forall b, Bus.mangle b = Bus.mangle bus ->
                  Bus.mangle b (objectName (parent this3)) (name this3) signalName = event).
  { intros b ->. rewrite Hn3, Hp3, Hn1, Hp1. reflexivity. }
  assert (Hrule3 : getMatchRule (objectName (parent this3)) (name this3) signalName = rule).
  { rewrite Hn3, Hp3, Hn1, Hp1. reflexivity. }
  assert (Hw1 : handlerMap this3 !! handler1 = Some w1).
  { apply wrapHandler_other. apply wrapHandler_lookup. }
  assert (Hw2 : handlerMap this3 !! handler2 = Some w2) by apply wrapHandler_lookup.
  destruct (removeFirst_two w1 w2) as [w [Hw Hor]].
  pose proof (off_keeps this3 bus3 signalName handler1 w1 Hw1) as H4.
  cbv zeta in H4. rewrite (He3 bus3 eq_refl), Hl3, Hw in H4.
  specialize (H4 ltac:(discriminate)).
  set (bus4 := Bus.withSignals bus3 _) in H4.
  assert (Hl4 : EventEmitter.listeners (Bus.signals bus4) event = [w]).
  { unfold bus4. cbn [Bus.signals Bus.withSignals].
    now rewrite listeners_removeListener, Hl3. }
  pose proof (off_last this3 bus4 signalName handler2 w2 Hw2) as H5.
  cbv zeta in H5. rewrite (He3 bus4 eq_refl), Hrule3, Hl4 in H5.
  specialize (H5 (removeFirst_one _ _ _ Hw Hor)).
  set (bus4' := Bus.withSignals bus4 _) in H5.
  assert (Hc4 : Bus.matchRules bus4' !! rule = Some 1%nat).
  { unfold bus4', bus4, bus3, bus2, bus1.
    cbn [Bus.matchRules Bus.withSignals Bus.withRules]. apply lookup_insert_eq. }
  rewrite (removeMatch_last bus4' rule Hc4) in H5. cbn [fst snd] in H5.
  change (Bus.broker bus4') with (Bus.broker bus) in H5. rewrite Hrm in H5.
  set (bus5 := Bus.withRules bus4' _ _) in H5.
  eexists this1, bus1, _, bus2, this3, bus3, bus4, bus5, _, _.
  split; [exact H1|]. split; [reflexivity|]. split; [exact H3|].
  split; [reflexivity|]. split; [exact H4|]. split; [reflexivity|].
  split; [exact H5|]. split; [|reflexivity].
  unfold bus5, bus4', bus4, bus3, bus2, bus1.
  cbn [Bus.brokerCalls Bus.withSignals Bus.withRules]. now rewrite <- app_assoc.
Qed.

(** C9 fails on the code when the second listener is registered before
    the broker has answered the first [AddMatch], as two calls of [on] in a
    row are: on a bus where the signal has no listener and its rule is not
    registered, both calls of [on] find no listener and both call
    [bus.addMatch], so that the rule is counted twice, with one [AddMatch]
    call to the broker; when the two callbacks have run there are two
    listeners; removing the first makes no call, and removing the second
    calls [bus.removeMatch] once, which leaves the rule counted once: no
    [RemoveMatch] call reaches the broker. *)
Theorem concurrent_listeners_keep_match (this : DBusInterface) (bus : Bus.t)
    (signalName : string) (handler1 handler2 : nat) :
  let event := Bus.mangle bus (objectName (parent this)) (name this) signalName in
  let rule := getMatchRule (objectName (parent this)) (name this) signalName in
  EventEmitter.listeners (Bus.signals bus) event = [] ->
  default O (Bus.matchRules bus !! rule) = O ->
  Bus.broker bus (AddMatch rule) = None ->
  exists this1 bus1 added1 this2 bus2 added2 bus3 bus4 bus5 bus6 removed this7,
    on this bus signalName handler1 = (this1, bus1, Some added1) /\
    on this1 bus1 signalName handler2 = (this2, bus2, Some added2) /\
    Bus.matchRules bus2 !! rule = Some 2%nat /\
    Bus.brokerCalls bus2 = Bus.brokerCalls bus ++ [AddMatch rule] /\
    run this2 bus2 added1 = (this2, bus3, None) /\
    run this2 bus3 added2 = (this2, bus4, None) /\
    List.length (EventEmitter.listeners (Bus.signals bus4) event) = 2%nat /\
    off this2 bus4 signalName handler1 = (this2, bus5, None) /\
    off this2 bus5 signalName handler2 = (this2, bus6, Some removed) /\
    run this2 bus6 removed = (this7, bus6, None) /\
    EventEmitter.listeners (Bus.signals bus6) event = [] /\
    Bus.brokerCalls bus6 = Bus.brokerCalls bus ++ [AddMatch rule] /\
    Bus.matchRules bus6 !! rule = Some 1%nat.
Proof.
  intros event rule Hl Hr Ha.
  pose proof (on_first this bus signalName handler1 Hl) as H1.
  fold event rule in H1. rewrite (addMatch_first _ _ Hr), Ha in H1. cbn [fst snd] in H1.
  set (this1 := fst (wrapHandler this handler1)) in *.
  set (w1 := snd (wrapHandler this handler1)) in *.
  set (bus1 := Bus.withRules bus _ _) in H1.
  destruct (wrapHandler_same this handler1) as [Hn1 Hp1]. fold this1 in Hn1, Hp1.
  assert (He1 : Bus.mangle bus1 (objectName (parent this1)) (name this1) signalName = event).
  { rewrite Hn1, Hp1. reflexivity. }
  assert (Hrule1 : getMatchRule (objectName (parent this1)) (name this1) signalName = rule).
  { rewrite Hn1, Hp1. reflexivity. }
  pose proof (on_first this1 bus1 signalName handler2) as H2.
  cbv zeta in H2. rewrite He1, Hrule1 in H2. specialize (H2 Hl).
  rewrite (addMatch_again bus1 rule O) in H2 by apply lookup_insert_eq.
  cbn [fst snd] in H2.
  set (this2 := fst (wrapHandler this1 handler2)) in *.
  set (w2 := snd (wrapHandler this1 handler2)) in *.
  set (bus2 := Bus.withRules bus1 _ _) in H2.
  destruct (wrapHandler_same this1 handler2) as [Hn2 Hp2]. fold this2 in Hn2, Hp2.
  assert (Hw1 : handlerMap this2 !! handler1 = Some w1).
  { apply wrapHandler_other. apply wrapHandler_lookup. }
  assert (Hw2 : handlerMap this2 !! handler2 = Some w2) by apply wrapHandler_lookup.
  set (bus3 := Bus.withSignals bus2 (EventEmitter.on (Bus.signals bus2) event w1)).
  set (bus4 := Bus.withSignals bus3 (EventEmitter.on (Bus.signals bus3) event w2)).
  assert (Hl4 : EventEmitter.listeners (Bus.signals bus4) event = [w1; w2]).
  { unfold bus4, bus3. cbn [Bus.signals Bus.withSignals]. rewrite !listeners_on.
    cbn [Bus.signals Bus.withSignals Bus.withRules bus2 bus1]. unfold bus2, bus1.
    cbn [Bus.signals Bus.withRules]. now rewrite Hl. }
  assert (He2 : forall b, Bus.mangle b = Bus.mangle bus ->
                  Bus.mangle b (objectName (parent this2)) (name this2) signalName = event).
  { intros b ->. rewrite Hn2, Hp2, Hn1, Hp1. reflexivity. }
  assert (Hrule2 : getMatchRule (objectName (parent this2)) (name this2) signalName = rule).
  { rewrite Hn2, Hp2, Hn1, Hp1. reflexivity. }
  destruct (removeFirst_two w1 w2) as [w [Hw Hor]].
  pose proof (off_keeps this2 bus4 signalName handler1 w1 Hw1) as H5.
  cbv zeta in H5. rewrite (He2 bus4 eq_refl), Hl4, Hw in H5.
  specialize (H5 ltac:(discriminate)).
  set (bus5 := Bus.withSignals bus4 _) in H5.
  assert (Hl5 : EventEmitter.listeners (Bus.signals bus5) event = [w]).
  { unfold bus5. cbn [Bus.signals Bus.withSignals].
    now rewrite listeners_removeListener, Hl4. }
  pose proof (off_last this2 bus5 signalName handler2 w2 Hw2) as H6.
  cbv zeta in H6. rewrite (He2 bus5 eq_refl), Hrule2, Hl5 in H6.
  specialize (H6 (removeFirst_one _ _ _ Hw Hor)).
  set (bus5' := Bus.withSignals bus5 _) in H6.
  assert (Hc5 : Bus.matchRules bus5' !! rule = Some 2%nat).
  { unfold bus5', bus5, bus4, bus3, bus2. cbn [Bus.matchRules Bus.withSignals Bus.withRules].
    apply lookup_insert_eq. }
  rewrite (removeMatch_counted bus5' rule O Hc5) in H6. cbn [fst snd] in H6.
  set (bus6 := Bus.withRules bus5' _ _) in H6.
  eexists this1, bus1, _, this2, bus2, _, bus3, bus4, bus5, bus6, _, _.
  split; [exact H1|]. split; [exact H2|].
  split; [unfold bus2; cbn [Bus.matchRules Bus.withRules]; apply lookup_insert_eq|].
  split; [reflexivity|]. split; [reflexivity|]. split; [reflexivity|].
  split; [now rewrite Hl4|]. split; [exact H5|]. split; [exact H6|].
  split; [reflexivity|]. split.
  - unfold bus6, bus5'. cbn [Bus.signals Bus.withSignals Bus.withRules].
    rewrite listeners_removeListener, Hl5. exact (removeFirst_one _ _ _ Hw Hor).
  - split; [reflexivity|]. unfold bus6. cbn [Bus.matchRules Bus.withRules].
    apply lookup_insert_eq.
Qed.

Lemma concurrent_listeners_keep_match_witness :
  let this := mkInterface "com.x.Svc" ∅ ∅ ∅ (mkObject "/svc" "com.x") ∅ 0 in
  let bus := Bus.mk (fun p i m => p +:+ ":" +:+ i +:+ ":" +:+ m) (fun _ => None) ∅ ∅ [] in
  let event := "/svc:com.x.Svc:StateChanged"%string in
  let rule := "type='signal',path='/svc',interface='com.x.Svc',member='StateChanged'"%string in
  exists this1 bus1 added1 this2 bus2 added2 bus3 bus4 bus5 bus6 removed this7,
    on this bus "StateChanged" 1 = (this1, bus1, Some added1) /\
    on this1 bus1 "StateChanged" 2 = (this2, bus2, Some added2) /\
    Bus.matchRules bus2 !! rule = Some 2%nat /\
    Bus.brokerCalls bus2 = [AddMatch rule] /\
    run this2 bus2 added1 = (this2, bus3, None) /\
    run this2 bus3 added2 = (this2, bus4, None) /\
    List.length (EventEmitter.listeners (Bus.signals bus4) event) = 2%nat /\
    off this2 bus4 "StateChanged" 1 = (this2, bus5, None) /\
    off this2 bus5 "StateChanged" 2 = (this2, bus6, Some removed) /\
    run this2 bus6 removed = (this7, bus6, None) /\
    EventEmitter.listeners (Bus.signals bus6) event = [] /\
    Bus.brokerCalls bus6 = [AddMatch rule] /\
    Bus.matchRules bus6 !! rule = Some 1%nat.
Proof.
  intros this bus event rule.
  exact (concurrent_listeners_keep_match this bus "StateChanged" 1 2
           eq_refl eq_refl eq_refl).
Defined.

End IntrospectFacts.

(** ** More on the signature parser *)

Module SignatureLaws.
Import Signature Shape SignatureFacts.

Lemma shaped_eq t children :
  shaped (Node t children)
  = KNOWN_TYPES t
    && (if Ascii.eqb t "a" then (List.length children =? 1)%nat
        else match BRACKET_PAIRS t with
             | Some closing => forallb (fun c => negb (Ascii.eqb (type c) closing)) children
             | None => (List.length children =? 0)%nat
             end)
    && forallb shaped children.
Proof. reflexivity. Qed.

Lemma parse_shaped fuel :
  (forall c input n rest, parseOne fuel c input = Done (n, rest) -> shaped n = true) /\
  (forall closing input ns rest,
      parseChildren fuel closing input = Done (ns, rest) ->
      forallb shaped ns = true /\
      forallb (fun c => negb (Ascii.eqb (type c) closing)) ns = true).
Proof.
  induction fuel as [|fuel [IH1 IH2]]; [split; intros; discriminate|].
  split.
  - intros c input n rest H. simpl in H.
    destruct (KNOWN_TYPES c) eqn:Ek; [|discriminate]. simpl in H.
    destruct (Ascii.eqb c "a") eqn:Ea.
    + destruct input as [|element input]; [discriminate|].
      inv_bind H. destruct r as [n1 input1]. injection H as <- <-.
      apply IH1 in Hm. rewrite shaped_eq, Ek, Ea. simpl. now rewrite Hm.
    + destruct (BRACKET_PAIRS c) as [closing|] eqn:Eb.
      * inv_bind H. destruct r as [children input1]. injection H as <- <-.
        apply IH2 in Hm as [H1 H2]. rewrite shaped_eq, Ek, Ea, Eb. simpl.
        now rewrite H1, H2.
      * injection H as <- <-. rewrite shaped_eq, Ek, Ea, Eb. reflexivity.
  - intros closing input ns rest H. simpl in H.
    destruct input as [|element input]; [discriminate|].
    destruct (Ascii.eqb element closing) eqn:Ec.
    + injection H as <- <-. split; reflexivity.
    + inv_bind H. destruct r as [n1 input1].
      inv_bind H. destruct r as [children input2]. injection H as <- <-.
      pose proof (parseOne_type _ _ _ _ _ Hm) as Ht.
      apply IH1 in Hm. apply IH2 in Hm0 as [H1 H2]. simpl.
      rewrite Hm, H1, H2, Ht, Ec. split; reflexivity.
Qed.

Lemma parseTop_shaped fuel : forall input ns,
  parseTop fuel input = Done ns -> forallb shaped ns = true.
Proof.
  induction fuel as [|fuel IH]; intros input ns H; [discriminate|].
  simpl in H. destruct input as [|c input]; [now injection H as <-|].
  inv_bind H. destruct r as [n1 input1]. inv_bind H. injection H as <-.
  apply (proj1 (parse_shaped fuel)) in Hm. apply IH in Hm0.
  simpl. now rewrite Hm, Hm0.
Qed.

(** X1: every tree that [parseSignature] returns is shaped, at every depth:
    its type codes are known, an array node has exactly one child, a basic
    type has none, and no child of a struct or dict entry carries the
    closing bracket of its parent. *)
Theorem parsed_tree_shaped (s : string) (tree : list SignatureNode) :
  parseSignature s = Done tree ->
  Forall (fun n => shaped n = true) tree /\
  forall t children, In (Node t children) tree ->
    KNOWN_TYPES t = true /\
    (t = "a"%char -> exists element, children = [element]) /\
    (BRACKET_PAIRS t = None -> t <> "a"%char -> children = []).
Proof.
  intros H. apply parseTop_shaped in H.
  assert (HF : Forall (fun n => shaped n = true) tree).
  { apply List.Forall_forall. intros n Hn.
    rewrite forallb_forall in H. now apply H. }
  split; [exact HF|].
  intros t children Hin.
  rewrite List.Forall_forall in HF. specialize (HF _ Hin).
  rewrite shaped_eq in HF.
  apply andb_prop in HF as [HF _]. apply andb_prop in HF as [Hk Hs].
  split; [exact Hk|]. split.
  - intros ->. simpl in Hs. destruct children as [|e [|]]; try discriminate. eauto.
  - intros Hb Hna. rewrite Hb in Hs.
    destruct (Ascii.eqb_spec t "a"); [contradiction|].
    destruct children; [reflexivity|discriminate].
Qed.

Lemma parsed_tree_shaped_witness :
  Forall (fun n => shaped n = true) [Node "a" [Node "(" [Node "i" []; Node "s" []]]] /\
  forall t children, In (Node t children) [Node "a" [Node "(" [Node "i" []; Node "s" []]]] ->
    KNOWN_TYPES t = true /\
    (t = "a"%char -> exists element, children = [element]) /\
    (BRACKET_PAIRS t = None -> t <> "a"%char -> children = []).
Proof. apply (parsed_tree_shaped "a(is)"). reflexivity. Defined.

Lemma node_induction (P : SignatureNode -> Prop) :
  (forall t children, Forall P children -> P (Node t children)) -> forall n, P n.
Proof.
  intros H. fix IH 1. intros [t children]. apply H.
  induction children as [|c cs IHcs]; constructor; [apply IH|exact IHcs].
Qed.

Lemma render_head n : render n = type n :: tl (render n).
Proof.
  destruct n as [t children]. simpl.
  destruct (Ascii.eqb t "a"); [reflexivity|].
  destruct (BRACKET_PAIRS t); reflexivity.
Qed.

Lemma parseChildren_reads_back closing : forall children,
  Forall reads_back children ->
  forallb (fun c => negb (Ascii.eqb (type c) closing)) children = true ->
  exists fuel, forall extra,
    parseChildren fuel closing (flat_map render children ++ closing :: extra)
    = Done (children, extra).
Proof.
  induction children as [|h children IH]; intros HF Hc.
  - exists 1%nat. intros extra. simpl. now rewrite Ascii.eqb_refl.
  - inversion HF as [|? ? [f1 H1] HF']; subst.
    simpl in Hc. apply andb_prop in Hc as [Hh Hc].
    destruct (IH HF' Hc) as [f2 H2].
    exists (S (Nat.max f1 f2)). intros extra.
    simpl flat_map. rewrite render_head. simpl.
    apply negb_true_iff in Hh. rewrite Hh.
    rewrite <- app_assoc.
    rewrite (proj1 (parse_mono f1) _ _ (Nat.max f1 f2)); [|lia|rewrite H1; discriminate].
    rewrite H1. simpl.
    rewrite (proj2 (parse_mono f2) _ _ (Nat.max f1 f2)); [|lia|rewrite H2; discriminate].
    now rewrite H2.
Qed.

Lemma shaped_reads_back : forall n, shaped n = true -> reads_back n.
Proof.
  induction n as [t children IH] using node_induction. intros Hs.
  rewrite shaped_eq in Hs.
  apply andb_prop in Hs as [Hs Hchildren]. apply andb_prop in Hs as [Hk Hs].
  assert (HF : Forall reads_back children).
  { rewrite forallb_forall in Hchildren. rewrite List.Forall_forall in IH |- *.
    intros n Hn. apply IH; auto. }
  destruct (Ascii.eqb t "a") eqn:Ea.
  - destruct children as [|element [|]]; try discriminate.
    inversion HF as [|? ? [f1 H1] _]; subst.
    exists (S f1). intros extra. simpl. rewrite Hk, Ea. simpl.
    rewrite app_nil_r. rewrite render_head. simpl. now rewrite H1.
  - destruct (BRACKET_PAIRS t) as [closing|] eqn:Eb.
    + destruct (parseChildren_reads_back closing children HF Hs) as [f2 H2].
      exists (S f2). intros extra. simpl. rewrite Hk, Ea, Eb. simpl.
      rewrite <- app_assoc. simpl. now rewrite H2.
    + destruct children; [|discriminate].
      exists 1%nat. intros extra. simpl. now rewrite Hk, Ea, Eb.
Qed.

Lemma parseTop_reads_back : forall tree,
  forallb shaped tree = true ->
  exists fuel, parseTop fuel (flat_map render tree) = Done tree.
Proof.
  induction tree as [|h tree IH]; intros Hs.
  - now exists 1%nat.
  - simpl in Hs. apply andb_prop in Hs as [Hh Hs].
    destruct (shaped_reads_back h Hh) as [f1 H1]. destruct (IH Hs) as [f2 H2].
    exists (S (Nat.max f1 f2)). simpl flat_map. rewrite render_head. simpl.
    rewrite (proj1 (parse_mono f1) _ _ (Nat.max f1 f2)); [|lia|rewrite H1; discriminate].
    rewrite H1. simpl.
    rewrite (parseTop_mono f2 _ (Nat.max f1 f2)); [|lia|rewrite H2; discriminate].
    now rewrite H2.
Qed.

(** X2: rendering is a right inverse of parsing on shaped trees: the parser
    returns every shaped forest when given its rendering. *)
Theorem parse_rendering (tree : list SignatureNode) :
  forallb shaped tree = true -> parseSignature (rendering tree) = Done tree.
Proof.
  intros Hs. destruct (parseTop_reads_back tree Hs) as [fuel H].
  apply (parseSignature_fuel _ fuel). unfold rendering.
  now rewrite list_ascii_of_string_of_list_ascii.
Qed.

Lemma parse_rendering_witness :
  parseSignature (rendering [Node "a" [Node "{" [Node "s" []; Node "v" []]]; Node "(" []])
  = Done [Node "a" [Node "{" [Node "s" []; Node "v" []]]; Node "(" []].
Proof. apply parse_rendering. reflexivity. Defined.


(** X3: parsing distributes over concatenation: after a text that parses
    on its own, the parser continues with the rest as if it stood alone,
    and the trees (or the error of the rest) follow those of the prefix. *)
Theorem parseSignature_append (s1 s2 : string) (tree1 : list SignatureNode) :
  parseSignature s1 = Done tree1 ->
  parseSignature (String.append s1 s2)
  = let* tree2 := parseSignature s2 in Done (tree1 ++ tree2).
Proof.
  intros H. unfold parseSignature in H.
  assert (E : parseTop (enough (list_ascii_of_string s1) + enough (list_ascii_of_string s2))
                (list_ascii_of_string (String.append s1 s2))
              = let* tree2 := parseSignature s2 in Done (tree1 ++ tree2)).
  { rewrite list_ascii_of_string_app. apply parseTop_app_any; [exact H|].
    apply parseTop_fuel. unfold enough. lia. }
  rewrite (parseSignature_any _ (enough (list_ascii_of_string s1)
                                   + enough (list_ascii_of_string s2))); [exact E|].
  rewrite E. unfold parseSignature.
  apply bind_not_Fuel; [apply parseTop_fuel; unfold enough; lia|discriminate].
Qed.

Lemma parseSignature_append_witness :
  parseSignature (String.append "a{sv}" "(ii)")
  = let* tree2 := parseSignature "(ii)" in
    Done ([Node "a" [Node "{" [Node "s" []; Node "v" []]]] ++ tree2).
Proof. apply parseSignature_append. reflexivity. Defined.

(** After a text that parses, the error of the rest is the error of the
    whole. *)
Lemma parse_then_throw (before rest : string) tree0 e :
  parseSignature before = Done tree0 -> parseSignature rest = Throw e ->
  parseSignature (String.append before rest) = Throw e.
Proof.
  intros H0 H. unfold parseSignature in H0, H.
  assert (E : parseTop (enough (list_ascii_of_string before)
                        + enough (list_ascii_of_string rest))
                (list_ascii_of_string (String.append before rest)) = Throw e).
  { rewrite list_ascii_of_string_app.
    rewrite (parseTop_app_any _ _ _ _ _ H0) by (rewrite H; discriminate).
    now rewrite H. }
  rewrite (parseSignature_any _ (enough (list_ascii_of_string before)
                                 + enough (list_ascii_of_string rest)));
    rewrite E; [reflexivity|discriminate].
Qed.

Lemma parseOne_input fuel c input n rest x :
  parseOne fuel c input = Done (n, rest) -> In x rest -> In x input.
Proof.
  intros H Hx. apply (proj1 (parse_render fuel)) in H.
  rewrite render_head in H. simpl in H. injection H as _ ->.
  apply in_or_app. now right.
Qed.

Lemma parseChildren_unclosed closing fuel : forall input tree,
  parseTop fuel input = Done tree -> ~ In closing input ->
  parseChildren fuel closing input = Throw UnexpectedEnd.
Proof.
  induction fuel as [|fuel IH]; intros input tree H Hc; [discriminate|].
  simpl in H |- *. destruct input as [|c input]; [reflexivity|].
  destruct (Ascii.eqb_spec c closing) as [->|Hne]; [exfalso; apply Hc; now left|].
  inv_bind H. destruct r as [n1 input1]. inv_bind H.
  rewrite Hm. simpl.
  rewrite (IH _ _ Hm0); [reflexivity|].
  intros Hin. apply Hc. right. eapply parseOne_input; eauto.
Qed.

(** X4: a container that is not terminated is an unexpected end: after a
    text that parses, a final ['a'] without element, and an opening bracket
    followed by a text that parses but does not contain the closing
    bracket, are both rejected with [UnexpectedEnd]. *)
Theorem unterminated_container (before s : string) (tree0 tree : list SignatureNode) :
  parseSignature before = Done tree0 ->
  parseSignature s = Done tree ->
  parseSignature (String.append before "a") = Throw UnexpectedEnd /\
  forall opening closing,
    BRACKET_PAIRS opening = Some closing ->
    ~ In closing (list_ascii_of_string s) ->
    parseSignature (String.append before (String opening s)) = Throw UnexpectedEnd.
Proof.
  intros H0 H. split.
  - now apply (parse_then_throw _ _ _ _ H0).
  - intros opening closing Hb Hc.
    apply (parse_then_throw _ _ _ _ H0).
    unfold parseSignature in H.
    set (fuel := enough (list_ascii_of_string s)) in *.
    assert (E : parseTop (S (S fuel)) (list_ascii_of_string (String opening s))
                = Throw UnexpectedEnd).
    { cbn [list_ascii_of_string parseTop].
      assert (Hone : parseOne (S fuel) opening (list_ascii_of_string s)
                     = Throw UnexpectedEnd).
      { cbn [parseOne]. pose proof (BRACKET_PAIRS_not_a _ _ Hb) as Ea.
        assert (Hk : KNOWN_TYPES opening = true).
        { unfold BRACKET_PAIRS in Hb.
          destruct (Ascii.eqb_spec opening "{"); [subst; reflexivity|].
          destruct (Ascii.eqb_spec opening "("); [subst; reflexivity|discriminate]. }
        rewrite Hk, Ea, Hb. simpl.
        now rewrite (parseChildren_unclosed closing fuel _ _ H Hc). }
      now rewrite Hone. }
    rewrite (parseSignature_any _ (S (S fuel))); rewrite E; [reflexivity|discriminate].
Qed.

Lemma unterminated_container_witness :
  parseSignature (String.append "i" "a") = Throw UnexpectedEnd /\
  parseSignature (String.append "i" (String "(" "su")) = Throw UnexpectedEnd.
Proof.
  destruct (unterminated_container "i" "su" [Node "i" []] [Node "s" []; Node "u" []]
              eq_refl eq_refl) as [H1 H2].
  split; [exact H1|].
  apply (H2 "("%char ")"%char eq_refl).
  simpl. intros [H|[H|[]]]; discriminate.
Defined.

Lemma shaped_known : forall n, shaped n = true ->
  forall c, In c (render n) -> KNOWN_TYPES c = true.
Proof.
  induction n as [t children IH] using node_induction. intros Hs c Hc.
  rewrite shaped_eq in Hs.
  apply andb_prop in Hs as [Hs Hchildren]. apply andb_prop in Hs as [Hk _].
  assert (Hinner : In c (flat_map render children) -> KNOWN_TYPES c = true).
  { intros Hin. apply in_flat_map in Hin as [n [Hn Hin]].
    rewrite forallb_forall in Hchildren. rewrite List.Forall_forall in IH.
    exact (IH n Hn (Hchildren n Hn) c Hin). }
  simpl in Hc. destruct (Ascii.eqb t "a").
  - destruct Hc as [<-|Hc]; auto.
  - destruct (BRACKET_PAIRS t) as [closing|] eqn:Eb.
    + destruct Hc as [<-|Hc]; [exact Hk|].
      apply in_app_or in Hc as [Hc|[<-|[]]]; [auto|].
      unfold BRACKET_PAIRS in Eb.
      destruct (Ascii.eqb t "{"); [now injection Eb as <-|].
      destruct (Ascii.eqb t "("); [now injection Eb as <-|discriminate].
    + destruct Hc as [<-|[]]. exact Hk.
Qed.

(** X5: a signature that contains a character outside the nineteen type
    codes is never accepted, wherever the character stands. *)
Theorem unknown_code_rejected (s : string) (c : ascii) :
  In c (list_ascii_of_string s) -> KNOWN_TYPES c = false ->
  exists e, parseSignature s = Throw e /\ signature_error e.
Proof.
  intros Hc Hk. unfold parseSignature.
  destruct (parseTop _ _) as [tree|e|] eqn:H.
  - exfalso. pose proof (parseTop_shaped _ _ _ H) as Hs.
    apply parseTop_render in H. rewrite H in Hc.
    apply in_flat_map in Hc as [n [Hn Hc]].
    rewrite forallb_forall in Hs.
    rewrite (shaped_known n (Hs n Hn) c Hc) in Hk. discriminate.
  - exists e. split; [reflexivity|]. exact (parseTop_errors _ _ _ H).
  - exfalso. revert H. apply parseTop_fuel. unfold enough. lia.
Qed.

Lemma unknown_code_rejected_witness :
  exists e, parseSignature "a{s1}" = Throw e /\ signature_error e.
Proof.
  apply (unknown_code_rejected "a{s1}" "1"%char); [|reflexivity].
  simpl. tauto.
Defined.

End SignatureLaws.

(** ** More on the put-stream and on alignment *)

Module PutLaws.
Import PutStream AlignBench PutFacts MarshallerFacts MarshallFacts.

Lemma bytesLE_lowBytes count value : Buffer.bytesLE count value = lowBytes count value.
Proof.
  unfold Buffer.bytesLE, lowBytes. apply map_ext. intros i.
  change 255 with (Z.ones 8). rewrite Z.land_ones by lia.
  rewrite Z.shiftr_div_pow2 by lia.
  rewrite Z.pow_mul_r by lia. reflexivity.
Qed.

Lemma call_wf ps c : Put_wf ps -> Put_wf (call ps c).
Proof.
  destruct c; simpl; auto using put_wf, word8_wf, word16le_wf, word32le_wf.
Qed.

Lemma contents_call ps c : contents (call ps c) = contents ps ++ written c.
Proof.
  destruct c; simpl; unfold put, word8, word16le, word32le;
    rewrite contents_push; f_equal;
    rewrite <- ?bytesLE_lowBytes; try reflexivity;
    apply wordBytes_LE; lia.
Qed.

Lemma chain_wf calls : forall ps, Put_wf ps -> Put_wf (chain ps calls).
Proof.
  induction calls as [|c calls IH]; intros ps H; [exact H|].
  apply IH. now apply call_wf.
Qed.

Lemma contents_chain calls : forall ps,
  contents (chain ps calls) = contents ps ++ flat_map written calls.
Proof.
  unfold chain.
  induction calls as [|c calls IH]; intros ps; simpl.
  - now rewrite app_nil_r.
  - rewrite IH, contents_call. now rewrite <- app_assoc.
Qed.

Lemma offset_chain calls : forall ps, _offset (chain ps calls) = _offset ps.
Proof.
  unfold chain.
  induction calls as [|c calls IH]; intros ps; simpl; [reflexivity|].
  rewrite IH. now destruct c.
Qed.

(** X6: the buffer of a put-stream is what was written, in the order of the
    calls: a buffer as it is, a word as its 1, 2 or 4 low bytes, least
    significant first, whatever the sign or the size of its value; the
    field [_offset] has no part in it. *)
Theorem buffer_of_chain (calls : list Call) (offset : Z) :
  let ps := chain (setOffset newPut offset) calls in
  buffer ps = flat_map written calls /\
  _length ps = Z.of_nat (List.length (flat_map written calls)) /\
  _offset ps = offset.
Proof.
  assert (Hwf : Put_wf (chain (setOffset newPut offset) calls)).
  { apply chain_wf. apply setOffset_wf. apply newPut_wf. }
  cbv zeta. split; [|split].
  - rewrite (buffer_contents _ Hwf). now rewrite contents_chain.
  - rewrite Hwf. now rewrite contents_chain.
  - now rewrite offset_chain.
Qed.

Lemma pad_reaches_multiple k n :
  0 <= k -> 0 < n -> (k + (n - k mod n) mod n) mod n = 0.
Proof.
  intros Hk Hn. pose proof (Z.mod_pos_bound k n Hn) as Hr.
  destruct (Z.eq_dec (k mod n) 0) as [E|E].
  - rewrite E, Z.sub_0_r, Z_mod_same_full, Z.add_0_r. exact E.
  - rewrite (Z.mod_small (n - k mod n)) by lia.
    replace (k + (n - k mod n)) with ((k / n + 1) * n)
      by (pose proof (Z.div_mod k n); lia).
    apply Z_mod_mult.
Qed.

(** X7: aligning is idempotent, for every positive alignment and not only
    for the powers of two: after [align] the offset is a multiple of the
    alignment, less than one alignment further, and a second [align] leaves
    the stream as it is. *)
Theorem align_idempotent (ps : Put) (n : Z) :
  0 <= _offset ps -> 0 < n ->
  align (align ps n) n = align ps n /\
  _offset (align ps n) mod n = 0 /\
  _offset ps <= _offset (align ps n) < _offset ps + n.
Proof.
  intros Hk Hn.
  destruct (align_step ps n Hk Hn) as [_ [Hoff _]]. cbv zeta in Hoff.
  pose proof (Z.mod_pos_bound (n - _offset ps mod n) n Hn) as Hpad.
  assert (Hmul : _offset (align ps n) mod n = 0).
  { rewrite Hoff. now apply pad_reaches_multiple. }
  split; [|split; [exact Hmul|lia]].
  assert (Hk' : 0 <= _offset (align ps n)) by lia.
  destruct (align_step (align ps n) n Hk' Hn) as [_ [_ Hsame]].
  now apply Hsame.
Qed.

Lemma align_idempotent_witness :
  let ps := advance (put newPut [1; 2; 3; 4]) 4 in
  align (align ps 3) 3 = align ps 3 /\
  _offset (align ps 3) mod 3 = 0 /\
  _offset ps <= _offset (align ps 3) < _offset ps + 3.
Proof. apply align_idempotent; simpl; lia. Defined.

Lemma contents_iter_word8 count : forall ps,
  state (Nat.iter count (fun ps => word8 ps 0) ps)
  = (contents ps ++ repeat 0 count, _length ps + Z.of_nat count, _offset ps).
Proof.
  unfold state.
  induction count as [|count IH]; intros ps.
  - simpl. now rewrite app_nil_r, Z.add_0_r.
  - rewrite Nat.iter_succ_r, IH. unfold word8 at 1 2 3. rewrite contents_push.
    cbn [_length _offset push]. rewrite <- app_assoc.
    change (wordBytes (WValue 1 0)) with [0]. simpl app.
    do 2 f_equal. lia.
Qed.

Lemma firstn_zeros (n : nat) : forall m, (n <= m)%nat ->
  firstn n (repeat 0 m) = repeat 0 n.
Proof.
  induction n as [|n IH]; intros m H; [reflexivity|].
  destruct m as [|m]; [lia|]. simpl. f_equal. apply IH. lia.
Qed.

Lemma subarray_prealloc pad :
  0 <= pad <= 7 -> subarray PREALLOC_BUFFER pad = Buffer.alloc pad.
Proof.
  intros H. unfold subarray, PREALLOC_BUFFER, MAX_PAD_SIZE, Buffer.alloc.
  rewrite repeat_length. destruct (Z.ltb_spec pad 0) as [?|_]; [lia|].
  rewrite Z.min_l by lia.
  apply firstn_zeros. lia.
Qed.

(** X8: the four implementations of [align] that the benchmark compares
    leave the same bytes, the same length and the same offset as [align] of
    the library: [alignCurrent] and [alignLoop] for every positive
    alignment, the two that cut the padding from a buffer of seven bytes for
    the alignments up to 8. *)
Theorem bench_aligns_agree (ps : Put) (alignment : Z) :
  0 <= _offset ps -> 0 < alignment ->
  alignCurrent ps alignment = align ps alignment /\
  state (alignLoop ps alignment) = state (align ps alignment) /\
  (alignment <= 8 ->
   alignPrealloc ps alignment = align ps alignment /\
   alignPreallocCopy ps alignment = align ps alignment).
Proof.
  intros Hk Hn. split; [reflexivity|].
  unfold alignLoop, alignPrealloc, alignPreallocCopy, align.
  rewrite Z.rem_mod_nonneg by lia.
  pose proof (Z.mod_pos_bound (_offset ps) alignment Hn) as Hr.
  set (pad := alignment - _offset ps mod alignment) in *.
  destruct ((pad =? 0) || (pad =? alignment)) eqn:E; [repeat split|].
  apply orb_false_iff in E as [E0 En].
  apply Z.eqb_neq in E0. apply Z.eqb_neq in En.
  split.
  - unfold state at 1. cbn [contents _length _offset advance].
    change (flat_map wordBytes (words ?p)) with (contents p).
    pose proof (contents_iter_word8 (Z.to_nat pad) ps) as Hloop.
    unfold state in Hloop. injection Hloop as Hc Hl Ho.
    change (flat_map wordBytes (words ?p)) with (contents p) in Hc.
    unfold state. cbn [contents _length _offset advance put push].
    rewrite !contents_advance, contents_put, Hc, Hl, Ho.
    unfold Buffer.alloc. now rewrite repeat_length.
  - intros H8. rewrite subarray_prealloc by (unfold pad; lia). split; reflexivity.
Qed.

Lemma bench_aligns_agree_witness :
  let ps := advance (put newPut [1; 2; 3]) 3 in
  alignCurrent ps 8 = align ps 8 /\
  state (alignLoop ps 8) = state (align ps 8) /\
  (8 <= 8 -> alignPrealloc ps 8 = align ps 8 /\ alignPreallocCopy ps 8 = align ps 8).
Proof. apply bench_aligns_agree; simpl; lia. Defined.

End PutLaws.

(** ** The basic-type marshallers *)

Module MarshallerLaws.
Import Marshallers Layout PutStream PutFacts SignatureFacts MarshallerFacts MarshallFacts PutLaws.

Lemma extends_wf ps ps' added : Put_wf ps -> extends ps ps' added -> Put_wf ps'.
Proof.
  unfold Put_wf. intros Hwf (Hc & Hl & _). rewrite Hl, Hc, Hwf, length_app. lia.
Qed.

Lemma extends_buffer ps ps' added :
  Put_wf ps -> extends ps ps' added -> buffer ps' = buffer ps ++ added.
Proof.
  intros Hwf He. rewrite (buffer_contents _ Hwf).
  rewrite (buffer_contents _ (extends_wf _ _ _ Hwf He)). apply He.
Qed.

Lemma extends_trans ps1 ps2 ps3 a b :
  extends ps1 ps2 a -> extends ps2 ps3 b -> extends ps1 ps3 (a ++ b).
Proof.
  intros (Hc1 & Hl1 & Ho1) (Hc2 & Hl2 & Ho2). unfold extends.
  rewrite Hc2, Hc1, Hl2, Hl1, Ho2, Ho1, length_app, <- app_assoc. repeat split; lia.
Qed.

(** [align] extends a stream by zeroes, wherever the offset stands. *)
Lemma align_extends ps n :
  0 < n -> exists count, extends ps (align ps n) (repeat 0 count).
Proof.
  intros Hn. unfold align.
  set (pad := n - Z.rem (_offset ps) n).
  destruct ((pad =? 0) || (pad =? n)) eqn:E.
  - exists O. unfold extends. simpl. rewrite app_nil_r. repeat split; lia.
  - exists (Z.to_nat pad).
    assert (Hpad : 0 < pad).
    { unfold pad. destruct (Z.le_gt_cases 0 (_offset ps)) as [H|H].
      - pose proof (Z.rem_bound_pos (_offset ps) n H Hn). lia.
      - pose proof (Z.rem_bound_pos_neg (_offset ps) n Hn). lia. }
    unfold extends. rewrite contents_advance, contents_put.
    cbn [_length _offset advance put push]. unfold Buffer.alloc.
    rewrite repeat_length. repeat split; lia.
Qed.

(** The words that follow an alignment. *)
Lemma words_extend ps (calls : list Call) :
  extends ps
    (advance (chain ps calls) (Z.of_nat (List.length (flat_map written calls))))
    (flat_map written calls).
Proof.
  unfold extends. rewrite contents_advance, contents_chain.
  cbn [_length _offset advance]. rewrite offset_chain.
  repeat split.
  revert ps. unfold chain.
  induction calls as [|c calls IH]; intros ps; simpl; [lia|].
  rewrite IH, length_app.
  assert (_length (call ps c) = _length ps + Z.of_nat (List.length (written c))).
  { destruct c; simpl; try reflexivity. }
  lia.
Qed.

Lemma words_extend_by ps (calls : list Call) n :
  n = Z.of_nat (List.length (flat_map written calls)) ->
  extends ps (advance (chain ps calls) n) (flat_map written calls).
Proof. intros ->. apply words_extend. Qed.

Lemma aligned_words_extend ps k (calls : list Call) n :
  0 < k -> n = Z.of_nat (List.length (flat_map written calls)) ->
  exists added, extends ps (advance (chain (align ps k) calls) n) added.
Proof.
  intros Hk Hn. destruct (align_extends ps k Hk) as [count Hal].
  eexists. eapply extends_trans; [exact Hal|]. now apply words_extend_by.
Qed.

Lemma bytesLE_length count value : List.length (Buffer.bytesLE count value) = count.
Proof. unfold Buffer.bytesLE. now rewrite length_map, length_seq. Qed.

Lemma writeString_extends ps data checked :
  exists added, extends ps (writeString ps data checked) added.
Proof.
  unfold writeString.
  apply (aligned_words_extend ps 4
           [CallWord32le (Z.of_nat (List.length (Buffer.utf8 (asString data))));
            CallPut (Buffer.utf8 (asString data)); CallWord8 0]); [lia|].
  simpl. rewrite length_app. simpl. lia.
Qed.

Lemma writeSignature_extends ps data checked :
  exists added, extends ps (writeSignature ps data checked) added.
Proof.
  unfold writeSignature. eexists.
  apply (words_extend_by ps
           [CallWord8 (Z.of_nat (String.length (asString data)));
            CallPut (Buffer.ascii (asString data)); CallWord8 0]).
  simpl. rewrite length_app. simpl. lia.
Qed.

Lemma writeLong_extends ps data checked :
  exists added, extends ps (writeLong ps data checked) added.
Proof.
  unfold writeLong.
  now apply (aligned_words_extend ps 8
               [CallWord32le (Long.low match checked with Some l => l | None => Long.ZERO end);
                CallWord32le (Long.high match checked with Some l => l | None => Long.ZERO end)]).
Qed.

(** Splits [MakeSimpleMarshaller signature = Done m] into its twelve cases. *)
Ltac marshaller_cases H :=
  unfold MakeSimpleMarshaller in H;
  repeat lazymatch type of H with
         | context [String.eqb ?a ?b] =>
           let E := fresh "E" in
           destruct (String.eqb a b) eqn:E; cbn [orb] in H
         end;
  [injection H as <- ..|discriminate H].

(** X9: every basic-type marshaller keeps the count: whatever the type and
    the value, the bytes of the stream before are still there, followed by
    what the marshaller added, and the offset has advanced by exactly the
    number of bytes added, padding included. *)
Theorem marshaller_keeps_count (signature : string) (m : Marshaller)
    (ps ps' : Put) (data : Value) :
  MakeSimpleMarshaller signature = Done m ->
  Put_wf ps ->
  marshall m ps data = Done ps' ->
  Put_wf ps' /\
  exists added,
    buffer ps' = buffer ps ++ added /\
    _offset ps' = _offset ps + Z.of_nat (List.length added).
Proof.
  intros Hm Hwf H.
  assert (He : exists added, extends ps ps' added).
  { marshaller_cases Hm; cbn [marshall withCheck] in H; inv_bind H;
      injection H as <-.
    - apply writeString_extends.
    - apply writeString_extends.
    - apply writeSignature_extends.
    - eexists. now apply (words_extend_by ps [CallWord8 (asInteger data)]).
    - now apply (aligned_words_extend ps 4 [CallWord32le (if truthy data then 1 else 0)]).
    - now apply (aligned_words_extend ps 2 [CallPut (Buffer.bytesLE 2 (asInteger data))]).
    - now apply (aligned_words_extend ps 2 [CallWord16le (asInteger data)]).
    - now apply (aligned_words_extend ps 4 [CallPut (Buffer.bytesLE 4 (asInteger data))]).
    - now apply (aligned_words_extend ps 4 [CallWord32le (asInteger data)]).
    - apply writeLong_extends.
    - apply writeLong_extends.
    - now apply (aligned_words_extend ps 8 [CallPut (Buffer.doubleLE (asNumber data))]). }
  destruct He as [added He]. split; [exact (extends_wf _ _ _ Hwf He)|].
  exists added. split; [exact (extends_buffer _ _ _ Hwf He)|apply He].
Qed.

Lemma marshaller_keeps_count_witness :
  let ps' := writeString newPut (VString "hi") None in
  Put_wf ps' /\
  exists added,
    buffer ps' = buffer newPut ++ added /\
    _offset ps' = _offset newPut + Z.of_nat (List.length added).
Proof.
  eapply (marshaller_keeps_count "s" _ newPut _ (VString "hi")); reflexivity.
Defined.

Lemma align_pads ps n :
  0 <= _offset ps -> 0 < n ->
  extends ps (align ps n) (repeat 0 (padding n (_offset ps))).
Proof.
  intros Hk Hn. destruct (align_extends ps n Hn) as [count He].
  destruct (align_step ps n Hk Hn) as [Hc _]. cbv zeta in Hc.
  destruct He as [Hc' He]. rewrite Hc in Hc'. apply app_inv_head in Hc'.
  unfold extends, padding. rewrite Hc'. split; [now rewrite <- Hc', Hc|exact He].
Qed.

Lemma padding_bound n k : 0 < n -> Z.of_nat (padding n k) = (n - k mod n) mod n.
Proof.
  intros Hn. unfold padding. pose proof (Z.mod_pos_bound (n - k mod n) n Hn). lia.
Qed.

Lemma aligned_words_layout ps w (calls : list Call) :
  0 <= _offset ps -> 0 < w ->
  w = Z.of_nat (List.length (flat_map written calls)) ->
  extends ps (advance (chain (align ps w) calls) w)
    (repeat 0 (padding w (_offset ps)) ++ flat_map written calls).
Proof.
  intros Hk Hw Hn.
  eapply extends_trans; [now apply align_pads|now apply words_extend_by].
Qed.

(** Splits [MakeSimpleMarshaller signature = Done m] into its twelve cases,
    with the signature of each. *)
Ltac marshaller_of H :=
  marshaller_cases H;
  match goal with
  | E : String.eqb _ _ = true |- _ => apply String.eqb_eq in E; subst
  end.

(** X10: a value of a type of fixed size ([y], [n], [q], [b], [i], [u],
    [x], [t], [d]) is written at the next multiple of its size: the
    marshaller pads with fewer zero bytes than the size, as many as bring
    the offset to a multiple of it, then writes exactly that many bytes. *)
Theorem fixed_width_layout (signature : string) (w : Z) (m : Marshaller)
    (ps ps' : Put) (data : Value) :
  width signature = Some w ->
  MakeSimpleMarshaller signature = Done m ->
  Put_wf ps -> 0 <= _offset ps ->
  marshall m ps data = Done ps' ->
  let pad := padding w (_offset ps) in
  exists payload,
    Z.of_nat (List.length payload) = w /\
    buffer ps' = buffer ps ++ repeat 0 pad ++ payload /\
    (_offset ps + Z.of_nat pad) mod w = 0 /\
    Z.of_nat pad < w /\
    _offset ps' = _offset ps + Z.of_nat pad + w.
Proof.
  intros Hw Hm Hwf Hk H. cbv zeta.
  assert (He : exists payload,
             Z.of_nat (List.length payload) = w /\ 0 < w /\
             extends ps ps' (repeat 0 (padding w (_offset ps)) ++ payload)).
  { marshaller_of Hm; try discriminate Hw; injection Hw as <-;
      cbn [marshall withCheck] in H; inv_bind H; injection H as <-.
    - exists (written (CallWord8 (asInteger data))). split; [reflexivity|]. split; [lia|].
      unfold padding. rewrite Z.mod_1_r. simpl repeat. simpl app at 1.
      now apply (words_extend_by ps [CallWord8 (asInteger data)]).
    - eexists. split; [|split; [|
        now apply (aligned_words_layout ps 4 [CallWord32le (if truthy data then 1 else 0)])]];
        [reflexivity|lia].
    - eexists. split; [|split; [|
        now apply (aligned_words_layout ps 2 [CallPut (Buffer.bytesLE 2 (asInteger data))])]];
        [reflexivity|lia].
    - eexists. split; [|split; [|
        now apply (aligned_words_layout ps 2 [CallWord16le (asInteger data)])]];
        [reflexivity|lia].
    - eexists. split; [|split; [|
        now apply (aligned_words_layout ps 4 [CallPut (Buffer.bytesLE 4 (asInteger data))])]];
        [reflexivity|lia].
    - eexists. split; [|split; [|
        now apply (aligned_words_layout ps 4 [CallWord32le (asInteger data)])]];
        [reflexivity|lia].
    - eexists. split; [|split; [|
        unfold writeLong;
        now apply (aligned_words_layout ps 8
                     [CallWord32le (Long.low match r with Some l => l | None => Long.ZERO end);
                      CallWord32le (Long.high match r with Some l => l | None => Long.ZERO end)])]];
        [reflexivity|lia].
    - eexists. split; [|split; [|
        unfold writeLong;
        now apply (aligned_words_layout ps 8
                     [CallWord32le (Long.low match r with Some l => l | None => Long.ZERO end);
                      CallWord32le (Long.high match r with Some l => l | None => Long.ZERO end)])]];
        [reflexivity|lia].
    - eexists. split; [|split; [|
        now apply (aligned_words_layout ps 8 [CallPut (Buffer.doubleLE (asNumber data))])]];
        [reflexivity|lia]. }
  destruct He as (payload & Hlen & Hpos & He). exists payload.
  pose proof (padding_bound w (_offset ps) Hpos) as Hpad.
  pose proof (Z.mod_pos_bound (w - _offset ps mod w) w Hpos).
  split; [exact Hlen|]. split; [exact (extends_buffer _ _ _ Hwf He)|].
  split; [rewrite Hpad; now apply pad_reaches_multiple|].
  split; [lia|].
  destruct He as (_ & _ & Ho). rewrite Ho, length_app, repeat_length. lia.
Qed.

Lemma fixed_width_layout_witness :
  let ps := advance (put newPut [7]) 1 in
  let ps' := advance (put (align ps 4) (Buffer.bytesLE 4 5)) 4 in
  let pad := padding 4 (_offset ps) in
  exists payload,
    Z.of_nat (List.length payload) = 4 /\
    buffer ps' = buffer ps ++ repeat 0 pad ++ payload /\
    (_offset ps + Z.of_nat pad) mod 4 = 0 /\
    Z.of_nat pad < 4 /\
    _offset ps' = _offset ps + Z.of_nat pad + 4.
Proof.
  eapply (fixed_width_layout "i" 4 _ _ _ (VNumber (Int 5)));
    [reflexivity|reflexivity|reflexivity|simpl; lia|reflexivity].
Defined.

Lemma checkRange_Int lo hi z :
  checkRange lo hi (Int z) = if (hi <? z) || (z <? lo) then Throw OutsideRange else Done tt.
Proof. reflexivity. Qed.

Lemma integer_written (t : IntegerType) ps z :
  Put_wf ps -> 0 <= _offset ps ->
  forall ps',
    ps' = match t with
          | BYTE => advance (word8 ps z) 1
          | INT16 => advance (put (align ps 2) (Buffer.bytesLE 2 z)) 2
          | UINT16 => advance (word16le (align ps 2) z) 2
          | INT32 => advance (put (align ps 4) (Buffer.bytesLE 4 z)) 4
          | UINT32 => advance (word32le (align ps 4) z) 4
          end ->
    buffer ps'
    = buffer ps ++ repeat 0 (padding (Z.of_nat (bytes t)) (_offset ps)) ++ lowBytes (bytes t) z.
Proof.
  intros Hwf Hk ps' ->. apply extends_buffer; [exact Hwf|].
  destruct t; cbn [bytes].
  - unfold padding. change (Z.of_nat 1) with 1. rewrite Z.mod_1_r. simpl repeat. simpl app at 1.
    now apply (words_extend_by ps [CallWord8 z]).
  - rewrite <- bytesLE_lowBytes.
    now apply (aligned_words_layout ps 2 [CallPut (Buffer.bytesLE 2 z)]).
  - now apply (aligned_words_layout ps 2 [CallWord16le z]).
  - rewrite <- bytesLE_lowBytes.
    now apply (aligned_words_layout ps 4 [CallPut (Buffer.bytesLE 4 z)]).
  - now apply (aligned_words_layout ps 4 [CallWord32le z]).
Qed.

Lemma integer_marshall (t : IntegerType) (m : Marshaller) :
  MakeSimpleMarshaller (code t) = Done m ->
  forall ps data,
    marshall m ps data
    = let* _ := checkInteger data in
      let* _ := checkRange (minValue t) (maxValue t) (asNumber data) in
      Done match t with
           | BYTE => advance (word8 ps (asInteger data)) 1
           | INT16 => advance (put (align ps 2) (Buffer.bytesLE 2 (asInteger data))) 2
           | UINT16 => advance (word16le (align ps 2) (asInteger data)) 2
           | INT32 => advance (put (align ps 4) (Buffer.bytesLE 4 (asInteger data))) 4
           | UINT32 => advance (word32le (align ps 4) (asInteger data)) 4
           end.
Proof.
  intros Hm ps data.
  destruct t; injection Hm as <-; unfold withCheck, checkOnly;
    cbn [marshall minValue maxValue];
    destruct (checkInteger data); try reflexivity; cbn [bind];
    match goal with |- context [checkRange ?a ?b ?c] => destruct (checkRange a b c) end;
    reflexivity.
Qed.

(** X11: the marshallers of the integer types [y], [n], [q], [i], [u]
    accept exactly the integers between their bounds, and write them in
    two's complement, least significant byte first, after the padding; an
    integer outside the bounds and an infinity are [OutsideRange], a
    fraction and [NaN] are [NotInteger], anything but a number is
    [NotNumber]. *)
Theorem integer_marshaller (t : IntegerType) (m : Marshaller) :
  MakeSimpleMarshaller (code t) = Done m ->
  (forall ps z, minValue t <= z <= maxValue t ->
     exists ps',
       marshall m ps (VNumber (Int z)) = Done ps' /\
       (Put_wf ps -> 0 <= _offset ps ->
        buffer ps'
        = buffer ps ++ repeat 0 (padding (Z.of_nat (bytes t)) (_offset ps))
            ++ lowBytes (bytes t) z)) /\
  (forall ps z, z < minValue t \/ maxValue t < z ->
     marshall m ps (VNumber (Int z)) = Throw OutsideRange) /\
  (forall ps negative, marshall m ps (VNumber (Infinity negative)) = Throw OutsideRange) /\
  (forall ps floor ieee754,
     marshall m ps (VNumber (NonInteger floor ieee754)) = Throw NotInteger) /\
  (forall ps, marshall m ps (VNumber NaN) = Throw NotInteger) /\
  (forall ps data, (forall n, data <> VNumber n) -> marshall m ps data = Throw NotNumber).
Proof.
  intros Hm. pose proof (integer_marshall t m Hm) as E.
  split; [|split; [|split; [|split; [|split]]]].
  - intros ps z Hz. eexists. split.
    + rewrite E. cbn [checkInteger bind asNumber asInteger]. rewrite checkRange_Int.
      destruct (Z.ltb_spec (maxValue t) z); [lia|].
      destruct (Z.ltb_spec z (minValue t)); [lia|]. reflexivity.
    + intros Hwf Hk. now apply (integer_written t ps z Hwf Hk).
  - intros ps z Hz. rewrite E. cbn [checkInteger bind asNumber]. rewrite checkRange_Int.
    destruct (Z.ltb_spec (maxValue t) z); [reflexivity|].
    destruct (Z.ltb_spec z (minValue t)); [reflexivity|lia].
  - intros ps negative. rewrite E. now destruct negative.
  - intros ps floor ieee754. now rewrite E.
  - intros ps. now rewrite E.
  - intros ps data Hd. rewrite E.
    destruct data; try reflexivity. now destruct (Hd n).
Qed.

Lemma integer_marshaller_witness :
  exists ps',
    marshall (withCheck
                (checkOnly (fun data =>
                   let* _ := checkInteger data in checkRange 0 65535 (asNumber data)))
                (fun ps data _ => advance (word16le (align ps 2) (asInteger data)) 2))
      (advance (put newPut [1]) 1) (VNumber (Int 513)) = Done ps' /\
    (Put_wf (advance (put newPut [1]) 1) -> 0 <= _offset (advance (put newPut [1]) 1) ->
     buffer ps'
     = buffer (advance (put newPut [1]) 1)
         ++ repeat 0 (padding (Z.of_nat (bytes UINT16)) (_offset (advance (put newPut [1]) 1)))
         ++ lowBytes (bytes UINT16) 513).
Proof.
  apply (proj1 (integer_marshaller UINT16 _ eq_refl)). simpl. lia.
Defined.

(** X12: the marshaller of [b] accepts [true], [false], [0] and [1] and
    nothing else, and writes them as the 32-bit integers 1 and 0 at a
    multiple of 4; any other value, a number other than 0 and 1 as well, is
    [NotBoolean]. *)
Theorem boolean_marshaller (m : Marshaller) (ps : Put) (data : Value) :
  MakeSimpleMarshaller "b" = Done m ->
  match booleanValue data with
  | Some v =>
    exists ps',
      marshall m ps data = Done ps' /\
      (Put_wf ps -> 0 <= _offset ps ->
       buffer ps' = buffer ps ++ repeat 0 (padding 4 (_offset ps)) ++ [v; 0; 0; 0])
  | None => marshall m ps data = Throw NotBoolean
  end.
Proof.
  intros Hm.
  change (Done (withCheck (checkOnly checkBoolean)
                  (fun ps data _ =>
                     let val := if truthy data then 1 else 0 in
                     advance (word32le (align ps 4) val) 4)) = Done m) in Hm.
  injection Hm as <-.
  assert (Hw : forall v, Put_wf ps -> 0 <= _offset ps -> v = 0 \/ v = 1 ->
             buffer (advance (word32le (align ps 4) v) 4)
             = buffer ps ++ repeat 0 (padding 4 (_offset ps)) ++ [v; 0; 0; 0]).
  { intros v Hwf Hk Hv. apply extends_buffer; [exact Hwf|].
    replace [v; 0; 0; 0] with (flat_map written [CallWord32le v])
      by (destruct Hv as [-> | ->]; reflexivity).
    now apply (aligned_words_layout ps 4 [CallWord32le v]). }
  assert (E : marshall (withCheck (checkOnly checkBoolean)
                          (fun ps data _ =>
                             let val := if truthy data then 1 else 0 in
                             advance (word32le (align ps 4) val) 4)) ps data
              = match booleanValue data with
                | Some v => Done (advance (word32le (align ps 4) v) 4)
                | None => Throw NotBoolean
                end).
  { destruct data as [|n|s|b|n|s|l|lo hi u|items|node]; try reflexivity.
    - destruct n as [z| | |]; try reflexivity.
      destruct z as [|p|p]; try reflexivity; destruct p; reflexivity.
    - destruct b; reflexivity. }
  assert (Hv : forall v, booleanValue data = Some v -> v = 0 \/ v = 1).
  { intros v. destruct data as [|n|s|b|n|s|l|lo hi u|items|node]; try discriminate.
    - destruct n as [z| | |]; try discriminate.
      destruct z as [|p|p]; try discriminate; [intros [= <-]; auto|].
      destruct p; try discriminate. intros [= <-]; auto.
    - destruct b; intros [= <-]; auto. }
  destruct (booleanValue data) as [v|]; [|exact E].
  eexists. split; [exact E|]. intros Hwf Hk. apply Hw; auto.
Qed.

Lemma boolean_marshaller_witness :
  exists ps',
    marshall (withCheck (checkOnly checkBoolean)
                (fun ps data _ =>
                   let val := if truthy data then 1 else 0 in
                   advance (word32le (align ps 4) val) 4))
      (advance (put newPut [9; 9]) 2) (VBoolean true) = Done ps' /\
    (Put_wf (advance (put newPut [9; 9]) 2) -> 0 <= _offset (advance (put newPut [9; 9]) 2) ->
     buffer ps'
     = buffer (advance (put newPut [9; 9]) 2)
         ++ repeat 0 (padding 4 (_offset (advance (put newPut [9; 9]) 2))) ++ [1; 0; 0; 0]).
Proof.
  exact (boolean_marshaller _ (advance (put newPut [9; 9]) 2) (VBoolean true) eq_refl).
Defined.

(** X13: the marshallers of [s] and [o] are the same: every string without
    a NUL character is accepted (an object path is not checked further) and
    written at a multiple of 4 as its length in bytes, its UTF-8 bytes and a
    final zero, the offset advancing by all of them; a string with a NUL is
    [NullByte], anything but a string is [NotString]. *)
Theorem string_marshaller (signature : string) (m : Marshaller) :
  signature = "s"%string \/ signature = "o"%string ->
  MakeSimpleMarshaller signature = Done m ->
  (forall ps s, Message.noNul s = true ->
     exists ps',
       marshall m ps (VString s) = Done ps' /\
       (Put_wf ps -> 0 <= _offset ps ->
        let size := Z.of_nat (List.length (Buffer.utf8 s)) in
        buffer ps'
        = buffer ps ++ repeat 0 (padding 4 (_offset ps))
            ++ lowBytes 4 size ++ Buffer.utf8 s ++ [0] /\
        _offset ps' = _offset ps + Z.of_nat (padding 4 (_offset ps)) + 4 + size + 1)) /\
  (forall ps s, Message.noNul s = false -> marshall m ps (VString s) = Throw NullByte) /\
  (forall ps data, (forall s, data <> VString s) -> marshall m ps data = Throw NotString).
Proof.
  intros Hs Hm.
  assert (Em : m = withCheck (checkOnly checkValidString) writeString).
  { destruct Hs as [-> | ->];
      change (Done (withCheck (checkOnly checkValidString) writeString) = Done m) in Hm;
      now injection Hm as <-. }
  subst m. split; [|split].
  - intros ps s Hn. exists (writeString ps (VString s) None). split.
    + unfold withCheck, checkOnly, Message.noNul in *. cbn [marshall checkValidString].
      apply negb_true_iff in Hn. now rewrite Hn.
    + intros Hwf Hk. cbv zeta.
      assert (He : extends ps (writeString ps (VString s) None)
                     (repeat 0 (padding 4 (_offset ps))
                      ++ lowBytes 4 (Z.of_nat (List.length (Buffer.utf8 s)))
                      ++ Buffer.utf8 s ++ [0])).
      { unfold writeString. cbn [asString].
        eapply extends_trans; [now apply align_pads|].
        apply (words_extend_by (align ps 4)
                 [CallWord32le (Z.of_nat (List.length (Buffer.utf8 s)));
                  CallPut (Buffer.utf8 s); CallWord8 0]).
        simpl. rewrite length_app. simpl. lia. }
      split; [exact (extends_buffer _ _ _ Hwf He)|].
      destruct He as (_ & _ & Ho). rewrite Ho.
      rewrite !length_app, repeat_length. simpl. lia.
  - intros ps s Hn. unfold withCheck, checkOnly, Message.noNul in *. cbn [marshall checkValidString].
    apply negb_false_iff in Hn. now rewrite Hn.
  - intros ps data Hd. unfold withCheck, checkOnly. cbn [marshall].
    destruct data; try reflexivity. now destruct (Hd s).
Qed.

Lemma string_marshaller_witness :
  exists ps',
    marshall (withCheck (checkOnly checkValidString) writeString) newPut (VString "") = Done ps' /\
    (Put_wf newPut -> 0 <= _offset newPut ->
     let size := Z.of_nat (List.length (Buffer.utf8 "")) in
     buffer ps'
     = buffer newPut ++ repeat 0 (padding 4 (_offset newPut))
         ++ lowBytes 4 size ++ Buffer.utf8 "" ++ [0] /\
     _offset ps' = _offset newPut + Z.of_nat (padding 4 (_offset newPut)) + 4 + size + 1).
Proof.
  apply (proj1 (string_marshaller "o" _ (or_intror eq_refl) eq_refl)). reflexivity.
Defined.

Lemma parenLoop_spec : forall data count,
  (parenLoop data count = Done tt \/ parenLoop data count = Throw MaxNesting) /\
  (parenLoop data count = Throw MaxNesting <->
   exists k, (k < List.length data)%nat /\ 32 < count + depth (firstn k data)).
Proof.
  induction data as [|c data IH]; intros count.
  - split; [now left|]. split; [discriminate|]. intros [k [Hk _]]. simpl in Hk. lia.
  - cbn [parenLoop]. destruct (Z.ltb_spec 32 count) as [Hd|Hd].
    { split; [now right|]. split; [|reflexivity]. intros _. exists O. simpl. split; lia. }
    set (step := if Ascii.eqb c "(" then 1 else if Ascii.eqb c ")" then -1 else 0).
    assert (E : (if Ascii.eqb c "(" then parenLoop data (count + 1)
                 else if Ascii.eqb c ")" then parenLoop data (count - 1)
                 else parenLoop data count)
                = parenLoop data (count + step)).
    { unfold step. destruct (Ascii.eqb c "("); [reflexivity|].
      destruct (Ascii.eqb c ")"); [reflexivity|]. now rewrite Z.add_0_r. }
    rewrite E. destruct (IH (count + step)) as [IH1 IH2]. split; [exact IH1|].
    rewrite IH2. split.
    + intros [k [Hk Hdeep]]. exists (S k). simpl. fold step. split; lia.
    + intros [k [Hk Hdeep]]. destruct k as [|k]; [simpl in Hdeep; lia|].
      exists k. simpl in Hk, Hdeep. fold step in Hdeep. split; lia.
Qed.

Lemma length_list_ascii s : List.length (list_ascii_of_string s) = String.length s.
Proof. induction s as [|c s IH]; simpl; congruence. Qed.

(** X14: the check of a signature value: more than 255 characters are
    [SignatureTooLong]; otherwise a text that is, before one of its
    characters, nested in more than 32 parentheses is [MaxNesting], and it is
    the only one; otherwise the answer is that of the parser.  Only
    parentheses count, not braces nor arrays. *)
Theorem signature_check (data : string) :
  let text := list_ascii_of_string data in
  let deep := exists k, (k < String.length data)%nat /\ 32 < depth (firstn k text) in
  ((255 < String.length data)%nat -> checkValidSignature data = Throw SignatureTooLong) /\
  ((String.length data <= 255)%nat -> deep ->
   checkValidSignature data = Throw MaxNesting) /\
  ((String.length data <= 255)%nat -> ~ deep ->
   checkValidSignature data = let* _ := Signature.parseSignature data in Done tt) /\
  (checkValidSignature data = Throw MaxNesting ->
   (String.length data <= 255)%nat /\ deep).
Proof.
  cbv zeta. unfold checkValidSignature.
  destruct (parenLoop_spec (list_ascii_of_string data) 0) as [Hcases Hdeep].
  rewrite length_list_ascii in Hdeep.
  destruct (Z.ltb_spec 255 (Z.of_nat (String.length data))) as [Hl|Hl].
  - split; [reflexivity|]. split; [lia|]. split; [lia|discriminate].
  - split; [lia|]. split; [|split].
    + intros _ Hd. apply Hdeep in Hd. now rewrite Hd.
    + intros _ Hd. destruct Hcases as [E|E]; [now rewrite E|].
      destruct Hd. now apply Hdeep.
    + intros H. split; [lia|]. apply Hdeep.
      destruct Hcases as [E|E]; [|exact E]. rewrite E in H. cbn [bind] in H.
      unfold Signature.parseSignature in H.
      destruct (Signature.parseTop _ _) as [tree|e|] eqn:Ep; try discriminate.
      injection H as ->. apply parseTop_errors in Ep.
      destruct Ep as [Ep|[c [Ep _]]]; discriminate.
Qed.

Lemma signature_check_witness :
  checkValidSignature "(i)" = let* _ := Signature.parseSignature "(i)" in Done tt.
Proof.
  apply (proj1 (proj2 (proj2 (signature_check "(i)")))); [simpl; lia|].
  intros [k [Hk Hd]]. simpl in Hk.
  destruct k as [|[|[|k]]]; simpl in Hd; lia.
Defined.

(** X15: the marshaller of [g] writes an accepted signature without any
    padding: one byte with its length, its characters and a final zero; an
    accepted signature has no NUL character and at most 255 characters, and
    it parses. *)
Theorem signature_marshaller (m : Marshaller) (ps ps' : Put) (s : string) :
  MakeSimpleMarshaller "g" = Done m ->
  marshall m ps (VString s) = Done ps' ->
  let size := Z.of_nat (String.length s) in
  size <= 255 /\
  Message.noNul s = true /\
  (exists tree, Signature.parseSignature s = Done tree) /\
  _offset ps' = _offset ps + size + 2 /\
  (Put_wf ps -> buffer ps' = buffer ps ++ [size] ++ Buffer.ascii s ++ [0]).
Proof.
  intros Hm H. cbv zeta.
  change (Done (withCheck
                  (checkOnly (fun data =>
                     let* _ := checkValidString data in checkValidSignature (asString data)))
                  writeSignature) = Done m) in Hm.
  injection Hm as <-. unfold withCheck, checkOnly in H. cbn [marshall] in H.
  inv_bind H. injection H as <-. inv_bind Hm. injection Hm as <-.
  inv_bind Hm0. cbn [asString] in Hm0.
  assert (Hnul : Message.noNul s = true).
  { unfold Message.noNul. cbn [checkValidString] in Hm.
    destruct (existsb _ _); [discriminate|reflexivity]. }
  assert (Hsize : Z.of_nat (String.length s) <= 255).
  { unfold checkValidSignature in Hm0.
    destruct (Z.ltb_spec 255 (Z.of_nat (String.length s))); [discriminate|lia]. }
  assert (Hparse : exists tree, Signature.parseSignature s = Done tree).
  { unfold checkValidSignature in Hm0.
    destruct (255 <? _); [discriminate|]. inv_bind Hm0. inv_bind Hm0. eauto. }
  assert (He : extends ps (writeSignature ps (VString s) None)
                 ([Z.of_nat (String.length s)] ++ Buffer.ascii s ++ [0])).
  { unfold writeSignature. cbn [asString].
    replace [Z.of_nat (String.length s)]
      with (written (CallWord8 (Z.of_nat (String.length s)))).
    - apply (words_extend_by ps
               [CallWord8 (Z.of_nat (String.length s)); CallPut (Buffer.ascii s); CallWord8 0]).
      simpl. rewrite length_app. simpl. lia.
    - cbn. rewrite Z.div_1_r. rewrite Z.mod_small by lia. reflexivity. }
  split; [exact Hsize|]. split; [exact Hnul|]. split; [exact Hparse|]. split.
  - destruct He as (_ & _ & Ho). rewrite Ho. rewrite !length_app.
    unfold Buffer.ascii. rewrite length_map, length_list_ascii. simpl. lia.
  - intros Hwf. exact (extends_buffer _ _ _ Hwf He).
Qed.

Lemma signature_marshaller_witness :
  let ps' := writeSignature newPut (VString "a{sv}") None in
  let size := Z.of_nat (String.length "a{sv}") in
  size <= 255 /\
  Message.noNul "a{sv}" = true /\
  (exists tree, Signature.parseSignature "a{sv}" = Done tree) /\
  _offset ps' = _offset newPut + size + 2 /\
  (Put_wf newPut -> buffer ps' = buffer newPut ++ [size] ++ Buffer.ascii "a{sv}" ++ [0]).
Proof.
  eapply (signature_marshaller _ newPut _ "a{sv}"); reflexivity.
Defined.

End MarshallerLaws.

(** ** The layout of a message *)

Module MessageLaws.
Import Marshallers Constants Message PutFacts MessageFacts.

(** X16: the layout of a marshalled message, whatever the marshaller of
    bodies ([lib/marshall]) returns for its three parts: the fixed header,
    the header fields, zero bytes up to the next multiple of 8 (fewer than
    8), then the body; the body is there only when the message has both a
    signature and a body. *)
Theorem message_layout (message : gmap string Value) (bytes : list Z) :
  Message.marshall message = Done bytes ->
  exists header headerBuff fieldsBuff bodyBuff,
    Marshall.marshall "yyyyuu" header 0 = Done headerBuff /\
    Marshall.marshall "a(yv)" (VArray [VArray (headerFields message)]) 12 = Done fieldsBuff /\
    (bodyBuff = [] \/
     exists signature,
       field message "signature" = VString signature /\
       Marshall.marshall signature (field message "body") 0 = Done bodyBuff) /\
    (Z.of_nat (List.length headerBuff + List.length fieldsBuff) < 2 ^ 30 ->
     exists pad,
       bytes = headerBuff ++ fieldsBuff ++ repeat 0 pad ++ bodyBuff /\
       (pad < 8)%nat /\
       Z.of_nat (List.length headerBuff + List.length fieldsBuff + pad) mod 8 = 0).
Proof.
  intros H. unfold Message.marshall in H.
  destruct (negb (truthy (field message "serial"))); [discriminate|].
  inv_bind H. rename r into bodyBuff. rename Hm into Hbody.
  inv_bind H. rename r into headerBuff. rename Hm into Hheader.
  inv_bind H. rename r into fieldsBuff. rename Hm into Hfields.
  eexists _, headerBuff, fieldsBuff, bodyBuff.
  split; [exact Hheader|]. split; [exact Hfields|]. split.
  - destruct (truthy (field message "signature") && truthy (field message "body")).
    + destruct (field message "signature") as [| |signature| | | | | | |] eqn:Es;
        try discriminate. right. exists signature. split; [reflexivity|exact Hbody].
    + left. now injection Hbody as <-.
  - intros Hsmall.
    set (h := Z.of_nat (List.length headerBuff)) in *.
    set (f := Z.of_nat (List.length fieldsBuff)) in *.
    set (b := Z.of_nat (List.length bodyBuff)) in *.
    rewrite (sar_shl_round (h + f)) in H by lia.
    set (total := 8 * ((h + f + 7) / 8)) in *.
    assert (Htot : h + f <= total < h + f + 8 /\ total mod 8 = 0).
    { unfold total. pose proof (Z.div_mod (h + f + 7) 8 ltac:(lia)).
      pose proof (Z.mod_pos_bound (h + f + 7) 8 ltac:(lia)).
      split; [lia|]. rewrite Z.mul_comm. apply Z.mod_mul. lia. }
    destruct (Z.ltb_spec (total + b) 0); [lia|].
    injection H as <-.
    exists (Z.to_nat (total - h - f)).
    split; [|split; [lia|]].
    + unfold Buffer.alloc.
      replace (Z.to_nat (total + b))
        with (List.length headerBuff
              + (List.length fieldsBuff
                 + (Z.to_nat (total - h - f) + List.length bodyBuff)))%nat by lia.
      rewrite !repeat_app.
      rewrite (copy_prefix headerBuff).
      rewrite (copy_middle fieldsBuff headerBuff (repeat 0 (List.length fieldsBuff)))
        by apply repeat_length.
      destruct (Z.ltb_spec 0 b) as [Hb|Hb].
      * replace (Z.to_nat total)
          with (List.length (headerBuff ++ fieldsBuff ++ repeat 0 (Z.to_nat (total - h - f)))).
        -- pose proof (copy_middle bodyBuff
                         (headerBuff ++ fieldsBuff ++ repeat 0 (Z.to_nat (total - h - f)))
                         (repeat 0 (List.length bodyBuff)) []) as Hc.
           rewrite !app_nil_r in Hc. rewrite <- !app_assoc in Hc.
           rewrite Hc by apply repeat_length. reflexivity.
        -- rewrite !length_app, repeat_length. lia.
      * assert (Eb : bodyBuff = []) by (destruct bodyBuff; [reflexivity|simpl in b; lia]).
        rewrite Eb. reflexivity.
    + replace (Z.of_nat (List.length headerBuff + List.length fieldsBuff
                         + Z.to_nat (total - h - f))) with total by lia.
      apply Htot.
Qed.

Lemma message_layout_witness :
  let hello : gmap string Value :=
    list_to_map
      [("type", VNumber (Int 1)); ("serial", VNumber (Int 1));
       ("destination", VString "org.freedesktop.DBus");
       ("path", VString "/org/freedesktop/DBus");
       ("interface", VString "org.freedesktop.DBus");
       ("member", VString "Hello")]%string in
  exists header headerBuff fieldsBuff bodyBuff,
    Marshall.marshall "yyyyuu" header 0 = Done headerBuff /\
    Marshall.marshall "a(yv)" (VArray [VArray (headerFields hello)]) 12 = Done fieldsBuff /\
    (bodyBuff = [] \/
     exists signature,
       field hello "signature" = VString signature /\
       Marshall.marshall signature (field hello "body") 0 = Done bodyBuff) /\
    (Z.of_nat (List.length headerBuff + List.length fieldsBuff) < 2 ^ 30 ->
     exists pad,
       Message.marshall hello = Done (headerBuff ++ fieldsBuff ++ repeat 0 pad ++ bodyBuff) /\
       (pad < 8)%nat /\
       Z.of_nat (List.length headerBuff + List.length fieldsBuff + pad) mod 8 = 0).
Proof.
  cbv zeta.
  destruct (message_layout _ _ hello_bytes) as (header & hb & fb & bb & H1 & H2 & H3 & H4).
  exists header, hb, fb, bb. repeat split; try assumption.
  intros Hs. destruct (H4 Hs) as (pad & E & Hp). exists pad. split; [|exact Hp].
  rewrite hello_bytes. now f_equal.
Defined.

End MessageLaws.

(** ** Framing of the incoming bytes *)

Module FramingLaws.
Import Readable Framing.

Lemma read_not_Fuel stream size : read stream size <> Fuel.
Proof. unfold read. destruct (_ <? _); [discriminate|]. destruct (_ && _); discriminate. Qed.

(** Sixteen bytes are never refused. *)
Lemma read_header stream e : read stream 16 <> Throw e.
Proof.
  unfold read. change (MAX_HWM <? 16) with false. cbv iota.
  destruct (_ && _); discriminate.
Qed.

Lemma read_Some stream size chunk rest :
  read stream size = Done (Some (chunk, rest)) ->
  stream = chunk ++ rest /\ 0 < size /\ Z.of_nat (List.length chunk) = size.
Proof.
  unfold read. intros H.
  destruct (MAX_HWM <? size); [discriminate|].
  destruct (Z.ltb_spec 0 size); [|discriminate].
  destruct (Z.leb_spec size (Z.of_nat (List.length stream))); [|discriminate].
  injection H as <- <-. split; [now rewrite firstn_skipn|]. split; [lia|].
  rewrite length_firstn. lia.
Qed.

Lemma read_app stream size chunk rest more :
  read stream size = Done (Some (chunk, rest)) ->
  read (stream ++ more) size = Done (Some (chunk, rest ++ more)).
Proof.
  unfold read. intros H.
  destruct (MAX_HWM <? size); [discriminate|].
  destruct (Z.ltb_spec 0 size); [|discriminate].
  destruct (Z.leb_spec size (Z.of_nat (List.length stream))); [|discriminate].
  injection H as <- <-. cbn [andb].
  destruct (Z.leb_spec size (Z.of_nat (List.length (stream ++ more)))) as [_|Hn].
  - rewrite firstn_app, skipn_app.
    replace (Z.to_nat size - List.length stream)%nat with O by lia.
    simpl. now rewrite app_nil_r.
  - rewrite length_app in Hn. lia.
Qed.

Lemma readUInt8_not_Fuel buffer offset : readUInt8 buffer offset <> Fuel.
Proof. unfold readUInt8. destruct (nth_error buffer offset); discriminate. Qed.

Lemma readUInt32LE_not_Fuel buffer offset : readUInt32LE buffer offset <> Fuel.
Proof.
  unfold readUInt32LE.
  repeat (apply bind_not_Fuel; [apply readUInt8_not_Fuel|intros ? _]). discriminate.
Qed.

Lemma announce_not_Fuel v header : announce v header <> Fuel.
Proof.
  unfold announce.
  repeat (apply bind_not_Fuel; [apply readUInt32LE_not_Fuel|intros ? _]). discriminate.
Qed.

Lemma item_not_Fuel x i : Introspect.item x i <> Fuel.
Proof. destruct x; discriminate. Qed.

Lemma assignHeaders_not_Fuel entries : forall message,
  assignHeaders message entries <> Fuel.
Proof.
  induction entries as [|[id variant] entries IH]; intros message; [discriminate|].
  cbn [assignHeaders]. destruct (nth (Z.to_nat id) Constants.headerTypeName None); [|apply IH].
  repeat (apply bind_not_Fuel; [apply item_not_Fuel|intros ? _]). apply IH.
Qed.

Lemma returned_not_Fuel {A} (r : Error + A) : returned r <> Fuel.
Proof. destruct r; discriminate. Qed.

Section WithBuffer.

Context {DBusBuffer : Type}.
Variable newDBusBuffer : list Z -> DBusBuffer.
Variable readArray : DBusBuffer -> Z -> Error + (list (Z * Value) * DBusBuffer).
Variable alignTo : DBusBuffer -> Z -> DBusBuffer.
Variable readBody : DBusBuffer -> Value -> Error + (Value * DBusBuffer).

Local Abbreviation decode := (decode newDBusBuffer readArray alignTo readBody).
Local Abbreviation loop := (loop newDBusBuffer readArray alignTo readBody).
Local Abbreviation onReadable := (onReadable newDBusBuffer readArray alignTo readBody).

Lemma decode_not_Fuel v fieldsAndBody : decode v fieldsAndBody <> Fuel.
Proof.
  unfold Framing.decode.
  apply bind_not_Fuel; [apply returned_not_Fuel|intros [entries buffer] _].
  apply bind_not_Fuel; [destruct (header v); discriminate|intros header _].
  apply bind_not_Fuel; [apply readUInt32LE_not_Fuel|intros serial _].
  apply bind_not_Fuel; [apply assignHeaders_not_Fuel|intros message _].
  apply bind_not_Fuel; [apply readUInt8_not_Fuel|intros type _].
  apply bind_not_Fuel; [apply readUInt8_not_Fuel|intros flags _].
  destruct (_ && _); [|discriminate].
  apply bind_not_Fuel; [apply returned_not_Fuel|intros [body buffer'] _]. discriminate.
Qed.

(** The loop ends: a turn that does not end it takes bytes from the stream. *)
Lemma loop_enough fuel : forall v stream messages,
  (List.length stream < fuel)%nat -> loop fuel v stream messages <> Fuel.
Proof.
  induction fuel as [|fuel IH]; intros v stream messages Hf; [lia|].
  cbn [Framing.loop]. destruct (state v =? 0).
  - pose proof (read_not_Fuel stream 16).
    destruct (read stream 16) as [[[header rest]|]|e|] eqn:Er;
      [|discriminate..|contradiction].
    apply read_Some in Er as (-> & _ & Hl). rewrite length_app in Hf.
    pose proof (announce_not_Fuel v header).
    destruct (announce v header); [|discriminate|contradiction].
    apply IH. lia.
  - pose proof (read_not_Fuel stream (fieldsAndBodyLength v)).
    destruct (read stream (fieldsAndBodyLength v)) as [[[chunk rest]|]|e|] eqn:Er;
      [|discriminate..|contradiction].
    apply read_Some in Er as (-> & Hpos & Hl). rewrite length_app in Hf.
    pose proof (decode_not_Fuel v chunk).
    destruct (decode v chunk); [|discriminate|contradiction].
    apply IH. lia.
Qed.

Lemma loop_mono fuel : forall v stream messages r fuel',
  loop fuel v stream messages = Done r -> (fuel <= fuel')%nat ->
  loop fuel' v stream messages = Done r.
Proof.
  induction fuel as [|fuel IH]; intros v stream messages r fuel' H Hf; [discriminate|].
  destruct fuel' as [|fuel']; [lia|].
  cbn [Framing.loop] in H |- *. destruct (state v =? 0).
  - destruct (read stream 16) as [[[header rest]|]|e|]; [|exact H..].
    destruct (announce v header); try exact H. apply (IH _ _ _ _ _ H). lia.
  - destruct (read stream (fieldsAndBodyLength v)) as [[[chunk rest]|]|e|]; [|exact H..].
    destruct (decode v chunk); try exact H. apply (IH _ _ _ _ _ H). lia.
Qed.

(** The messages given so far are kept, and have no part in what follows. *)
Lemma loop_messages fuel : forall v stream messages r,
  loop fuel v stream messages = Done r ->
  exists more,
    delivered r = messages ++ more /\
    forall messages',
      loop fuel v stream messages'
      = Done (mkResult (messages' ++ more) (variables r) (unread r) (thrown r)).
Proof.
  induction fuel as [|fuel IH]; intros v stream messages r H; [discriminate|].
  cbn [Framing.loop] in H |- *. destruct (state v =? 0).
  - destruct (read stream 16) as [[[header rest]|]|e|]; [| | |discriminate].
    + destruct (announce v header) as [v'|e|]; [| |discriminate].
      * apply IH in H as [more [H1 H2]]. exists more. split; [exact H1|exact H2].
      * injection H as <-. exists []. cbn. rewrite app_nil_r. split; [reflexivity|].
        intros messages'. now rewrite app_nil_r.
    + injection H as <-. exists []. cbn. rewrite app_nil_r. split; [reflexivity|].
      intros messages'. now rewrite app_nil_r.
    + injection H as <-. exists []. cbn. rewrite app_nil_r. split; [reflexivity|].
      intros messages'. now rewrite app_nil_r.
  - destruct (read stream (fieldsAndBodyLength v)) as [[[chunk rest]|]|e|];
      [| | |discriminate].
    + destruct (decode v chunk) as [message|e|]; [| |discriminate].
      * apply IH in H as [more [H1 H2]]. exists (message :: more). split.
        -- rewrite H1. now rewrite <- app_assoc.
        -- intros messages'. rewrite H2. now rewrite <- app_assoc.
      * injection H as <-. exists []. cbn. rewrite app_nil_r. split; [reflexivity|].
        intros messages'. now rewrite app_nil_r.
    + injection H as <-. exists []. cbn. rewrite app_nil_r. split; [reflexivity|].
      intros messages'. now rewrite app_nil_r.
    + injection H as <-. exists []. cbn. rewrite app_nil_r. split; [reflexivity|].
      intros messages'. now rewrite app_nil_r.
Qed.

(** Before a header is read, the one read before has no part. *)
Lemma loop_header fuel v stream messages :
  state v = 0 ->
  loop fuel
    (mkVariables (state v) None (fieldsLength v) (fieldsLengthPadded v)
       (fieldsAndBodyLength v) (bodyLength v)) stream messages
  = loop fuel v stream messages.
Proof.
  intros Hs. destruct fuel as [|fuel]; [reflexivity|].
  cbn [Framing.loop state fieldsLength fieldsLengthPadded fieldsAndBodyLength bodyLength].
  rewrite Hs. cbn [Z.eqb].
  destruct (read stream 16) as [[[header rest]|]|e|] eqn:Er; try reflexivity.
  now apply read_header in Er.
Qed.

Lemma loop_chunk fuel : forall v stream messages r1,
  loop fuel v stream messages = Done r1 -> thrown r1 = None ->
  forall more fuel2 r2,
    loop fuel2 (variables r1) (unread r1 ++ more) (delivered r1) = Done r2 ->
    loop (fuel + fuel2) v (stream ++ more) messages = Done r2.
Proof.
  induction fuel as [|fuel IH]; intros v stream messages r1 H Ht more fuel2 r2 H2;
    [discriminate|].
  cbn [Framing.loop] in H. cbn [Nat.add Framing.loop].
  destruct (state v =? 0) eqn:Es.
  - destruct (read stream 16) as [[[header rest]|]|e|] eqn:Er; [| | |discriminate].
    + rewrite (read_app _ _ _ _ more Er).
      destruct (announce v header) as [v'|e|]; [| |discriminate].
      * exact (IH _ _ _ _ H Ht _ _ _ H2).
      * injection H as <-. discriminate.
    + injection H as <-. cbn [variables unread delivered] in H2.
      rewrite loop_header in H2 by now apply Z.eqb_eq.
      apply (loop_mono _ _ _ _ _ (S (fuel + fuel2))) in H2; [|lia].
      cbn [Framing.loop] in H2. now rewrite Es in H2.
    + injection H as <-. discriminate.
  - destruct (read stream (fieldsAndBodyLength v)) as [[[chunk rest]|]|e|] eqn:Er;
      [| | |discriminate].
    + rewrite (read_app _ _ _ _ more Er).
      destruct (decode v chunk) as [message|e|]; [| |discriminate].
      * exact (IH _ _ _ _ H Ht _ _ _ H2).
      * injection H as <-. discriminate.
    + injection H as <-. cbn [variables unread delivered] in H2.
      apply (loop_mono _ _ _ _ _ (S (fuel + fuel2))) in H2; [|lia].
      cbn [Framing.loop] in H2. now rewrite Es in H2.
    + injection H as <-. discriminate.
Qed.

Lemma onReadable_total v stream : exists r, onReadable v stream = Done r.
Proof.
  unfold Framing.onReadable.
  pose proof (loop_enough (S (List.length stream)) v stream [] ltac:(lia)) as Hf.
  destruct (loop _ _ _ _) as [r|e|] eqn:E; [eauto| |contradiction].
  exfalso. clear Hf. revert E. generalize (S (List.length stream)).
  intros fuel. revert v stream. generalize (@nil (gmap string Value)).
  induction fuel as [|fuel IH]; intros messages v stream H; [discriminate|].
  cbn [Framing.loop] in H. destruct (state v =? 0).
  - destruct (read stream 16) as [[[header rest]|]|e'|]; [|discriminate..].
    destruct (announce v header); try discriminate. eauto.
  - destruct (read stream (fieldsAndBodyLength v)) as [[[chunk rest]|]|e'|];
      [|discriminate..].
    destruct (decode v chunk); try discriminate. eauto.
Qed.

(** X17: the messages do not depend on how the bytes arrive: the handler
    always ends (a turn of its loop that does not end it takes bytes from
    the stream), and when it has ended without exception on the bytes that
    were there, then the same handler on these bytes followed by more gives
    the messages it gave, followed by those that a second event gives on
    what was left and the new bytes; variables and unread bytes agree. *)
Theorem framing_chunks (v : Variables) (stream : list Z) :
  exists r1,
    onReadable v stream = Done r1 /\
    (thrown r1 = None ->
     forall more, exists r2,
       onReadable (variables r1) (unread r1 ++ more) = Done r2 /\
       onReadable v (stream ++ more)
       = Done (mkResult (delivered r1 ++ delivered r2) (variables r2) (unread r2)
                 (thrown r2))).
Proof.
  destruct (onReadable_total v stream) as [r1 H1]. exists r1. split; [exact H1|].
  intros Ht more.
  destruct (onReadable_total (variables r1) (unread r1 ++ more)) as [r2 H2].
  exists r2. split; [exact H2|].
  unfold Framing.onReadable in *.
  destruct (loop_messages _ _ _ _ _ H2) as [ms [Hd Hm]]. simpl in Hd.
  specialize (Hm (delivered r1)).
  pose proof (loop_chunk _ _ _ _ _ H1 Ht _ _ _ Hm) as Hc.
  destruct (onReadable_total v (stream ++ more)) as [r Hr].
  unfold Framing.onReadable in Hr. rewrite Hr.
  apply (loop_mono _ _ _ _ _
           (S (List.length stream) + S (List.length (unread r1 ++ more)))) in Hr.
  - rewrite Hr in Hc. rewrite Hc. now rewrite Hd.
  - rewrite !length_app. lia.
Qed.

Lemma read_exact chunk rest :
  chunk <> [] -> Z.of_nat (List.length chunk) <= MAX_HWM ->
  read (chunk ++ rest) (Z.of_nat (List.length chunk)) = Done (Some (chunk, rest)).
Proof.
  intros Hc Hm. unfold read.
  destruct (Z.ltb_spec MAX_HWM (Z.of_nat (List.length chunk))); [lia|].
  assert (0 < List.length chunk)%nat by (destruct chunk; [contradiction|simpl; lia]).
  destruct (Z.ltb_spec 0 (Z.of_nat (List.length chunk))); [|lia].
  destruct (Z.leb_spec (Z.of_nat (List.length chunk))
              (Z.of_nat (List.length (chunk ++ rest)))) as [_|Hn].
  - cbn [andb]. rewrite Nat2Z.id.
    rewrite firstn_app, skipn_app, Nat.sub_diag, firstn_all, skipn_all.
    simpl. now rewrite app_nil_r.
  - rewrite length_app in Hn. lia.
Qed.

Lemma announce_state v header v' : announce v header = Done v' -> state v' = 1.
Proof.
  unfold announce. intros H. inv_bind H. inv_bind H. now injection H as <-.
Qed.

Lemma loop_frames : forall frames messages,
  Forall2 (carries newDBusBuffer readArray alignTo readBody) frames messages ->
  forall fuel v given,
    state v = 0 -> (2 * List.length frames < fuel)%nat ->
    exists v',
      loop fuel v (flat_map (fun frame => fst frame ++ snd frame) frames) given
      = Done (mkResult (given ++ messages) v' [] None) /\
      state v' = 0.
Proof.
  induction 1 as [|[header fieldsAndBody] message frames messages Hc _ IH];
    intros fuel v given Hs Hf.
  - destruct fuel as [|fuel]; [simpl in Hf; lia|].
    cbn [flat_map Framing.loop]. rewrite Hs. cbn [Z.eqb].
    change (read [] 16) with (@Done (option (list Z * list Z)) None).
    eexists. rewrite app_nil_r. split; reflexivity.
  - destruct Hc as ((H16 & Hne & Hmax & v2 & Ha2 & Hsize) & v1 & Ha & Hd).
    cbn [fst snd] in *. rewrite Ha in Ha2. injection Ha2 as <-.
    destruct fuel as [|[|fuel]]; [simpl in Hf; lia..|].
    cbn [flat_map fst snd]. rewrite <- app_assoc.
    cbn [Framing.loop]. rewrite Hs. cbn [Z.eqb].
    change 16 with (Z.of_nat 16). rewrite <- H16.
    rewrite read_exact by (try (intros ->; discriminate); rewrite H16; cbv; discriminate).
    change (announce v header) with (announce initial header). rewrite Ha.
    rewrite (announce_state _ _ _ Ha). cbn [Z.eqb].
    rewrite Hsize, read_exact by assumption. rewrite Hd.
    destruct (IH fuel
                (mkVariables 0 (Framing.header v1) (fieldsLength v1) (fieldsLengthPadded v1)
                   (fieldsAndBodyLength v1) (bodyLength v1))
                (given ++ [message]) eq_refl ltac:(simpl in Hf; lia)) as [v' [Hl Hv']].
    exists v'. rewrite Hsize in Hl. rewrite Hl. rewrite <- app_assoc.
    split; [reflexivity|exact Hv'].
Qed.

(** X18: a stream that holds whole frames, each a header of sixteen bytes
    followed by as many bytes as the header announces (the length of the
    fields rounded up to a multiple of 8, plus the length of the body; not
    more than the 1 GiB that [read] accepts), is read to its end in one
    event: the message of every frame is given to [onMessage], in the order
    of the frames, and the handler waits for a header again. *)
Theorem frames_delivered (frames : list (list Z * list Z))
    (messages : list (gmap string Value)) :
  Forall2 (carries newDBusBuffer readArray alignTo readBody) frames messages ->
  exists v',
    onReadable initial (flat_map (fun frame => fst frame ++ snd frame) frames)
    = Done (mkResult messages v' [] None) /\
    state v' = 0.
Proof.
  intros H. unfold Framing.onReadable.
  apply (loop_frames _ _ H _ initial []); [reflexivity|].
  assert (Hl : forall fs ms,
             Forall2 (carries newDBusBuffer readArray alignTo readBody) fs ms ->
             (17 * List.length fs
              <= List.length (flat_map (fun frame => fst frame ++ snd frame) fs))%nat).
  { induction 1 as [|[h fb] m fs ms ((H16 & Hne & _) & _) _ IH]; [simpl; lia|].
    cbn [flat_map fst snd List.length] in *. rewrite !length_app, H16.
    destruct fb; [contradiction|]. simpl. lia. }
  specialize (Hl _ _ H). lia.
Qed.

(** X19: a header that announces no byte at all (no field and no body, or
    a length that the 32-bit shifts have wrapped to a negative number) ends
    the delivery: [read] of a length that is not positive is [null], so
    that the handler stays after this header, gives no message and reads
    nothing, whatever arrives later. *)
Theorem empty_frame_stalls (header : list Z) (v : Variables) :
  List.length header = 16%nat ->
  announce initial header = Done v ->
  fieldsAndBodyLength v <= 0 ->
  forall more,
    onReadable initial (header ++ more) = Done (mkResult [] v more None) /\
    forall later,
      onReadable v (more ++ later) = Done (mkResult [] v (more ++ later) None).
Proof.
  intros H16 Ha Hsize more.
  assert (Hread : forall stream, read stream (fieldsAndBodyLength v) = Done None).
  { intros stream. unfold read.
    destruct (Z.ltb_spec MAX_HWM (fieldsAndBodyLength v)) as [Hm|_];
      [unfold MAX_HWM in Hm; lia|].
    destruct (Z.ltb_spec 0 (fieldsAndBodyLength v)); [lia|]. reflexivity. }
  pose proof (announce_state _ _ _ Ha) as Hs.
  assert (Hstall : forall stream,
             onReadable v stream = Done (mkResult [] v stream None)).
  { intros stream. unfold Framing.onReadable. cbn [Framing.loop].
    rewrite Hs. cbn [Z.eqb]. now rewrite Hread. }
  split; [|intros later; apply Hstall].
  unfold Framing.onReadable.
  apply (loop_mono 2); [|rewrite length_app, H16; lia].
  cbn [Framing.loop state initial Z.eqb].
  change 16 with (Z.of_nat 16). rewrite <- H16.
  rewrite read_exact by (try (intros ->; discriminate); rewrite H16; cbv; discriminate).
  rewrite Ha, Hs. cbn [Z.eqb]. now rewrite Hread.
Qed.

End WithBuffer.

Lemma frames_delivered_witness :
  let readArray (b : list Z) (n : Z) : Error + (list (Z * Value) * list Z) := inr ([], b) in
  let readBody (b : list Z) (s : Value) : Error + (Value * list Z) := inr (VArray [], b) in
  let frame := ([108; 1; 0; 1; 0; 0; 0; 0; 7; 0; 0; 0; 5; 0; 0; 0],
                [1; 1; 111; 0; 0; 0; 0; 0]) in
  let message : gmap string Value :=
    <["flags"%string := VNumber (Int 0)]>
      (<["type"%string := VNumber (Int 1)]> (<["serial"%string := VNumber (Int 7)]> ∅)) in
  exists v',
    onReadable (fun b => b) readArray (fun b _ => b) readBody initial
      (flat_map (fun frame => fst frame ++ snd frame) [frame; frame])
    = Done (mkResult [message; message] v' [] None) /\
    state v' = 0.
Proof.
  cbv zeta. apply frames_delivered.
  assert (Hc : carries (fun b => b) (fun b _ => inr ([], b)) (fun b _ => b)
                 (fun b _ => inr (VArray [], b))
                 ([108; 1; 0; 1; 0; 0; 0; 0; 7; 0; 0; 0; 5; 0; 0; 0],
                  [1; 1; 111; 0; 0; 0; 0; 0])
                 (<["flags"%string := VNumber (Int 0)]>
                    (<["type"%string := VNumber (Int 1)]>
                       (<["serial"%string := VNumber (Int 7)]> ∅)))).
  { split.
    - split; [reflexivity|]. split; [discriminate|]. split; [cbv; discriminate|].
      eexists. split; reflexivity.
    - eexists. split; reflexivity. }
  constructor; [exact Hc|]. constructor; [exact Hc|]. constructor.
Defined.

Lemma empty_frame_stalls_witness :
  let readArray (b : list Z) (n : Z) : Error + (list (Z * Value) * list Z) := inr ([], b) in
  let readBody (b : list Z) (s : Value) : Error + (Value * list Z) := inr (VArray [], b) in
  let header := repeat 0 16 in
  let v := mkVariables 1 (Some header) 0 0 0 0 in
  onReadable (fun b => b) readArray (fun b _ => b) readBody initial (header ++ [108; 1])
  = Done (mkResult [] v [108; 1] None) /\
  onReadable (fun b => b) readArray (fun b _ => b) readBody v ([108; 1] ++ [0; 1])
  = Done (mkResult [] v ([108; 1] ++ [0; 1]) None).
Proof.
  cbv zeta.
  destruct (empty_frame_stalls (fun b => b) (fun b _ => inr ([], b)) (fun b _ => b)
              (fun b _ => inr (VArray [], b)) (repeat 0 16)
              (mkVariables 1 (Some (repeat 0 16)) 0 0 0 0)
              eq_refl eq_refl ltac:(simpl; lia) [108; 1]) as [H1 H2].
  split; [exact H1|exact (H2 [0; 1])].
Defined.

End FramingLaws.

(** ** Reading a line *)

Module ReadlineLaws.
Import Readline.

Section WithCallback.

Variable callback : list Z -> option Error.

Lemma onReadable_no_newline stream : forall collected lines errors,
  ~ In NEWLINE_BYTE stream ->
  onReadable callback collected stream lines errors
  = mkTrace (mkReader (collected ++ stream) true) [] lines errors.
Proof.
  induction stream as [|byte stream IH]; intros collected lines errors Hn.
  - simpl. now rewrite app_nil_r.
  - cbn [onReadable]. destruct (Z.eqb_spec byte NEWLINE_BYTE) as [->|Hb].
    + exfalso. apply Hn. now left.
    + rewrite IH by (intros H; apply Hn; now right). now rewrite <- app_assoc.
Qed.

Lemma onReadable_newline line : forall collected rest lines errors,
  ~ In NEWLINE_BYTE line ->
  onReadable callback collected (line ++ NEWLINE_BYTE :: rest) lines errors
  = mkTrace (mkReader (collected ++ line) false) rest (lines ++ [collected ++ line])
      (match callback (collected ++ line) with
       | Some error => errors ++ [error]
       | None => errors
       end).
Proof.
  induction line as [|byte line IH]; intros collected rest lines errors Hn.
  - cbn [app onReadable]. rewrite Z.eqb_refl. now rewrite app_nil_r.
  - cbn [app onReadable]. destruct (Z.eqb_spec byte NEWLINE_BYTE) as [->|Hb].
    + exfalso. apply Hn. now left.
    + rewrite IH by (intros H; apply Hn; now right). now rewrite <- !app_assoc.
Qed.

Lemma onReadable_app stream : forall collected more lines errors,
  ~ In NEWLINE_BYTE stream ->
  onReadable callback collected (stream ++ more) lines errors
  = onReadable callback (collected ++ stream) more lines errors.
Proof.
  induction stream as [|byte stream IH]; intros collected more lines errors Hn.
  - cbn. now rewrite app_nil_r.
  - cbn [app onReadable]. destruct (Z.eqb_spec byte NEWLINE_BYTE) as [->|Hb].
    + exfalso. apply Hn. now left.
    + rewrite IH by (intros H; apply Hn; now right). now rewrite <- app_assoc.
Qed.

Lemma first_newline stream :
  In NEWLINE_BYTE stream ->
  exists line rest, stream = line ++ NEWLINE_BYTE :: rest /\ ~ In NEWLINE_BYTE line.
Proof.
  induction stream as [|byte stream IH]; intros Hin; [destruct Hin|].
  destruct (Z.eq_dec byte NEWLINE_BYTE) as [->|Hb].
  - exists [], stream. split; [reflexivity|]. intros [].
  - destruct Hin as [Hin|Hin]; [congruence|].
    destruct (IH Hin) as (line & rest & -> & Hn).
    exists (byte :: line), rest. split; [reflexivity|].
    intros [H|H]; [congruence|contradiction].
Qed.

(** Once the line is given, what arrives stays in the stream. *)
Lemma arrivals_done chunks : forall t,
  listening (reader t) = false ->
  fold_left (arrive callback) chunks t
  = mkTrace (reader t) (unread t ++ concat chunks) (lines t) (errors t).
Proof.
  induction chunks as [|chunk chunks IH]; intros t Hl.
  - cbn. rewrite app_nil_r. now destruct t.
  - cbn [fold_left concat].
    assert (E : arrive callback t chunk
                = mkTrace (reader t) (unread t ++ chunk) (lines t) (errors t))
      by (unfold arrive; now rewrite Hl).
    rewrite E, IH by exact Hl. cbn. now rewrite <- app_assoc.
Qed.

(** The events of several chunks do what one event does when all the bytes
    are there at once. *)
Lemma arrivals_as_one chunks : forall t,
  listening (reader t) = true -> unread t = [] -> chunks <> [] ->
  fold_left (arrive callback) chunks t
  = onReadable callback (collectedBytes (reader t)) (concat chunks) (lines t) (errors t).
Proof.
  induction chunks as [|chunk chunks IH]; intros t Hl Hu Hne; [contradiction|].
  cbn [fold_left concat].
  assert (E : arrive callback t chunk
              = onReadable callback (collectedBytes (reader t)) chunk (lines t) (errors t))
    by (unfold arrive; now rewrite Hl, Hu).
  rewrite E. clear E.
  destruct (in_dec Z.eq_dec NEWLINE_BYTE chunk) as [Hin|Hout].
  - destruct (first_newline chunk Hin) as (line & rest & -> & Hn).
    rewrite onReadable_newline by exact Hn.
    rewrite arrivals_done by reflexivity. cbn [reader unread lines errors].
    rewrite <- app_assoc. cbn [app].
    now rewrite onReadable_newline by exact Hn.
  - rewrite onReadable_no_newline by exact Hout.
    rewrite onReadable_app by exact Hout.
    destruct chunks as [|chunk' chunks]; [reflexivity|].
    now rewrite IH by (reflexivity || discriminate).
Qed.

(** X20: [readOneLine] gives the first line, once, however the bytes
    arrive: when the chunks together hold a newline, [callback] is called
    exactly once, with the bytes before the first newline; the listener is
    then removed and the bytes after the newline stay in the stream,
    unread; an exception of [callback] is emitted as an [error], to the
    listener that the stream has for it.  As long as
    no newline has arrived, every byte is collected and [callback] is not
    called. *)
Theorem readOneLine_delivers (chunks : list (list Z)) :
  (forall line rest,
      concat chunks = line ++ NEWLINE_BYTE :: rest -> ~ In NEWLINE_BYTE line ->
      arrivals callback chunks
      = mkTrace (mkReader line false) rest [line]
          (match callback line with Some error => [error] | None => [] end)) /\
  (~ In NEWLINE_BYTE (concat chunks) ->
   arrivals callback chunks = mkTrace (mkReader (concat chunks) true) [] [] []).
Proof.
  unfold arrivals. split.
  - intros line rest Hc Hn.
    rewrite arrivals_as_one; [| reflexivity | reflexivity |].
    + cbn [readOneLine reader collectedBytes lines errors]. rewrite Hc.
      rewrite onReadable_newline by exact Hn. cbn [app].
      now destruct (callback line).
    + intros ->. destruct line; discriminate.
  - intros Hn. destruct chunks as [|chunk chunks]; [reflexivity|].
    rewrite arrivals_as_one; [| reflexivity | reflexivity | discriminate].
    cbn [readOneLine reader collectedBytes lines errors].
    now rewrite onReadable_no_newline by exact Hn.
Qed.

End WithCallback.

Lemma readOneLine_delivers_witness :
  arrivals (fun _ => None) [[79]; [75; 32]; [49; 10; 108]; [1]]
  = mkTrace (mkReader [79; 75; 32; 49] false) [108; 1] [[79; 75; 32; 49]] [].
Proof.
  apply (proj1 (readOneLine_delivers (fun _ => None) [[79]; [75; 32]; [49; 10; 108]; [1]])
           [79; 75; 32; 49] [108; 1]); [reflexivity|].
  unfold NEWLINE_BYTE. simpl. intros [H|[H|[H|[H|[]]]]]; discriminate.
Defined.

End ReadlineLaws.

(** ** Introspection data and the proxy made from it *)

Module ProcessXMLLaws.
Import Signature Introspect ProcessXML SignatureFacts.

Lemma find_append {A : Type} (f : A -> bool) (l1 l2 : list A) :
  find f (l1 ++ l2) = match find f l1 with Some x => Some x | None => find f l2 end.
Proof.
  induction l1 as [|x l1 IH]; [reflexivity|]. cbn. now destruct (f x).
Qed.

(** A map filled by a loop of [set]: the last entry of a key is the one
    that is found. *)
Lemma fold_insert_lookup {A B : Type} (key : A -> string) (val : A -> B) (xs : list A) :
  forall (m : gmap string B) (k : string),
    fold_left (fun m x => <[key x := val x]> m) xs m !! k
    = match find (fun x => String.eqb (key x) k) (rev xs) with
      | Some x => Some (val x)
      | None => m !! k
      end.
Proof.
  induction xs as [|x xs IH]; intros m k; [reflexivity|].
  cbn [fold_left rev]. rewrite IH, find_append.
  destruct (find _ (rev xs)); [reflexivity|].
  cbn [find]. destruct (String.eqb_spec (key x) k) as [->|Hne].
  - now rewrite lookup_insert_eq.
  - now rewrite lookup_insert_ne.
Qed.

Lemma find_rev_nodup {A : Type} (key : A -> string) (xs : list A) (x : A) :
  In x xs -> List.NoDup (map key xs) ->
  find (fun y => String.eqb (key y) (key x)) (rev xs) = Some x.
Proof.
  induction xs as [|y xs IH]; intros Hin Hnd; [destruct Hin|].
  cbn [rev map] in *. rewrite find_append. inversion Hnd as [|? ? Hy Hnd']; subst.
  destruct Hin as [->|Hin].
  - destruct (find _ (rev xs)) as [z|] eqn:Ef.
    + apply find_some in Ef as [Hz Hk]. apply String.eqb_eq in Hk.
      exfalso. apply Hy. rewrite <- Hk. apply in_map. now apply in_rev.
    + cbn. now rewrite String.eqb_refl.
  - now rewrite IH.
Qed.

Lemma processXML_result obj xmlInterfaces xmlNodes :
  processXML (inr (mkXmlRoot (Some (mkXmlRootNode (Some xmlInterfaces) xmlNodes)))) obj
  = Callback None
      (Some (mkIntrospectResult
               (fold_left
                  (fun interfaces xmlInterface =>
                     <[xmlInterfaceName xmlInterface := processInterface obj xmlInterface]>
                       interfaces)
                  xmlInterfaces ∅)
               (childNodes (match xmlNodes with Some xmlNodes => xmlNodes | None => [] end)))).
Proof. reflexivity. Qed.

(** X21: the result of [processXML] on a document with interfaces: every
    interface of the result stands under its own name, has [obj] as parent
    and is made from an interface of the document with that name; a name is
    absent exactly when no interface of the document has it; when the names
    of the document are distinct every one of its interfaces is found; and
    the list of child nodes is that of the names, in the order of the
    document, of the nodes after the first one that have a name which is
    not empty: the first node is left out, whatever its name. *)
Theorem processXML_interfaces (obj : DBusObject) (xmlInterfaces : list XmlInterface)
    (xmlNodes : option (list XmlNode)) :
  exists result,
    processXML (inr (mkXmlRoot (Some (mkXmlRootNode (Some xmlInterfaces) xmlNodes)))) obj
    = Callback None (Some result) /\
    (forall key iface,
        interfaces result !! key = Some iface ->
        name iface = key /\ parent iface = obj /\
        exists xmlInterface,
          In xmlInterface xmlInterfaces /\ xmlInterfaceName xmlInterface = key /\
          iface = processInterface obj xmlInterface) /\
    (forall key,
        interfaces result !! key = None <->
        forall xmlInterface, In xmlInterface xmlInterfaces ->
                             xmlInterfaceName xmlInterface <> key) /\
    (List.NoDup (map xmlInterfaceName xmlInterfaces) ->
     forall xmlInterface, In xmlInterface xmlInterfaces ->
       interfaces result !! xmlInterfaceName xmlInterface
       = Some (processInterface obj xmlInterface)) /\
    (xmlNodes = None -> nodes result = []) /\
    (forall xmlNodes', xmlNodes = Some xmlNodes' ->
       map Some (nodes result)
       = map nodeAttributes
           (List.filter
              (fun xmlNode =>
                 match nodeAttributes xmlNode with
                 | Some nodeName => negb (String.eqb nodeName "")
                 | None => false
                 end)
              (skipn 1 xmlNodes'))).
Proof.
  eexists. split; [apply processXML_result|]. cbn [interfaces nodes].
  split; [|split; [|split; [|split]]].
  - intros key iface H. rewrite fold_insert_lookup in H.
    destruct (find _ (rev xmlInterfaces)) as [xi|] eqn:Ef; [|discriminate].
    injection H as <-. apply find_some in Ef as [Hin Hk].
    apply String.eqb_eq in Hk. apply in_rev in Hin.
    split; [exact Hk|]. split; [reflexivity|]. exists xi. auto.
  - intros key. rewrite fold_insert_lookup. split.
    + intros H xi Hin Hk.
      destruct (find _ (rev xmlInterfaces)) as [xi'|] eqn:Ef; [discriminate|].
      apply in_rev in Hin. apply (find_none _ _ Ef xi) in Hin.
      apply String.eqb_neq in Hin. contradiction.
    + intros H. destruct (find _ (rev xmlInterfaces)) as [xi|] eqn:Ef; [|reflexivity].
      apply find_some in Ef as [Hin Hk]. apply String.eqb_eq in Hk.
      apply in_rev in Hin. now destruct (H xi Hin).
  - intros Hnd xi Hin. rewrite fold_insert_lookup.
    now rewrite (find_rev_nodup xmlInterfaceName xmlInterfaces xi Hin Hnd).
  - intros ->. reflexivity.
  - intros xmlNodes' ->. unfold childNodes.
    destruct xmlNodes' as [|first rest]; [reflexivity|].
    change (skipn 1 (first :: rest)) with rest. cbn [tl].
    induction rest as [|n rest IH]; [reflexivity|].
    cbn [flat_map List.filter]. rewrite map_app, IH.
    destruct (nodeAttributes n) as [nodeName|] eqn:En; [|reflexivity].
    destruct (String.eqb nodeName ""); cbn [negb map app]; [reflexivity|].
    now rewrite En.
Qed.

Lemma append_empty (s : string) : s +:+ "" = s.
Proof.
  induction s as [|c s IH]; [reflexivity|].
  change (String c s +:+ "") with (String c (s +:+ "")). now rewrite IH.
Qed.

Lemma append_associative (a b c : string) : (a +:+ b) +:+ c = a +:+ (b +:+ c).
Proof.
  induction a as [|x a IH]; [reflexivity|].
  change (String x ((a +:+ b) +:+ c) = String x (a +:+ (b +:+ c))). now rewrite IH.
Qed.

Lemma concat_cons (s : string) (l : list string) :
  String.concat "" (s :: l) = s +:+ String.concat "" l.
Proof. destruct l; [symmetry; apply append_empty|reflexivity]. Qed.

(** The signatures after the loop, from any start. *)
Lemma methodSignatures_fold args : forall inSignature outSignature,
  fold_left
    (fun '(inSignature, outSignature) arg =>
       if isIn arg then (inSignature +:+ argType arg, outSignature)
       else if isOut arg then (inSignature, outSignature +:+ argType arg)
       else (inSignature, outSignature))
    args (inSignature, outSignature)
  = (inSignature +:+ String.concat "" (map argType (List.filter isIn args)),
     outSignature
     +:+ String.concat "" (map argType (List.filter (fun arg => negb (isIn arg) && isOut arg) args))).
Proof.
  induction args as [|arg args IH]; intros inSignature outSignature.
  - cbn. now rewrite !append_empty.
  - cbn [fold_left List.filter]. destruct (isIn arg).
    + rewrite IH. cbn [negb andb map]. now rewrite concat_cons, append_associative.
    + destruct (isOut arg); rewrite IH; cbn [negb andb map]; [|reflexivity].
      now rewrite concat_cons, append_associative.
Qed.

(** The trees of a text that parses. *)
Lemma parse_two s1 s2 tree1 tree2 :
  parseSignature s1 = Done tree1 -> parseSignature s2 = Done tree2 ->
  parseSignature (s1 +:+ s2) = Done (tree1 ++ tree2).
Proof.
  intros H1 H2. unfold parseSignature in H1, H2.
  rewrite (parseSignature_any _ (enough (list_ascii_of_string s1)
                                 + enough (list_ascii_of_string s2))).
  - rewrite list_ascii_of_string_app.
    rewrite (parseTop_app_any _ _ _ _ _ H1) by (rewrite H2; discriminate).
    now rewrite H2.
  - rewrite list_ascii_of_string_app.
    rewrite (parseTop_app_any _ _ _ _ _ H1) by (rewrite H2; discriminate).
    rewrite H2. discriminate.
Qed.

Lemma parse_concat (texts : list string) (trees : list (list SignatureNode)) :
  Forall2 (fun text tree => parseSignature text = Done tree) texts trees ->
  parseSignature (String.concat "" texts) = Done (concat trees).
Proof.
  induction 1 as [|text tree texts trees H _ IH]; [reflexivity|].
  rewrite concat_cons. cbn [concat]. now apply parse_two.
Qed.

(** X22: the [inSignature] of a method is the text of the types of its
    arguments whose direction is [in] or missing, in their order; when each
    of these types parses, the signature parses to their trees, one after
    the other. *)
Theorem method_signature_parses (xmlMethod : XmlMethod) (args : list XmlArg)
    (trees : list (list SignatureNode)) (methods : gmap string DBusMethodInfo) :
  methodArg xmlMethod = Some args ->
  Forall2 (fun arg tree => parseSignature (argType arg) = Done tree) (List.filter isIn args) trees ->
  exists info,
    processMethod methods xmlMethod !! xmlMethodName xmlMethod = Some info /\
    methodName info = xmlMethodName xmlMethod /\
    inSignature info = String.concat "" (map argType (List.filter isIn args)) /\
    parseSignature (inSignature info) = Done (concat trees) /\
    List.length trees = List.length (List.filter isIn args).
Proof.
  intros Harg Htrees. unfold processMethod. rewrite Harg.
  unfold methodSignatures. rewrite methodSignatures_fold. cbn [String.append].
  eexists. split; [apply lookup_insert_eq|]. cbn [methodName inSignature].
  split; [reflexivity|]. split; [reflexivity|]. split.
  - apply parse_concat. clear Harg.
    induction Htrees; constructor; assumption.
  - symmetry. eapply Forall2_length. exact Htrees.
Qed.

Lemma method_signature_parses_witness :
  let args := [mkXmlArg (Some "name") (Some "in") "s"; mkXmlArg None (Some "out") "u";
               mkXmlArg (Some "tags") None "as"]%string in
  let trees := [[Node "s" []]; [Node "a" [Node "s" []]]] in
  exists info,
    processMethod ∅ (mkXmlMethod "AddContact" (Some args)) !! "AddContact"%string = Some info /\
    methodName info = "AddContact"%string /\
    inSignature info = String.concat "" (map argType (List.filter isIn args)) /\
    parseSignature (inSignature info) = Done (concat trees) /\
    List.length trees = List.length (List.filter isIn args).
Proof.
  cbv zeta. apply (method_signature_parses (mkXmlMethod "AddContact" _)); [reflexivity|].
  repeat constructor.
Defined.

Lemma fold_left_same {A B : Type} (f g : A -> B -> A) (l : list B) :
  (forall a x, f a x = g a x) -> forall a, fold_left f l a = fold_left g l a.
Proof.
  intros H. induction l as [|x l IH]; intros a; [reflexivity|].
  cbn. now rewrite H, IH.
Qed.

Lemma processMethod_insert methods xm :
  processMethod methods xm
  = <[xmlMethodName xm :=
        mkMethod (xmlMethodName xm)
          (match methodArg xm with
           | Some args => String.concat "" (map argType (List.filter isIn args))
           | None => EmptyString
           end)
          (match methodArg xm with
           | Some args =>
             String.concat ""
               (map argType (List.filter (fun arg => negb (isIn arg) && isOut arg) args))
           | None => EmptyString
           end)]> methods.
Proof.
  unfold processMethod. destruct (methodArg xm) as [args|]; [|reflexivity].
  unfold methodSignatures. now rewrite methodSignatures_fold.
Qed.

(** X23: a call through an introspected proxy: for a method of the document
    (the names of the methods being distinct), [call] hands to [bus.invoke]
    the method call with the types of the [in] arguments as signature and
    the arguments as body; a method without [in] argument is called without
    signature and body, whatever arguments are given. *)
Theorem introspected_call (obj : DBusObject) (xmlInterface : XmlInterface)
    (xmlMethods : list XmlMethod) (xm : XmlMethod) (args : list Value) :
  xmlMethod xmlInterface = Some xmlMethods ->
  In xm xmlMethods ->
  List.NoDup (map xmlMethodName xmlMethods) ->
  let inSignature :=
    match methodArg xm with
    | Some xmlArgs => String.concat "" (map argType (List.filter isIn xmlArgs))
    | None => EmptyString
    end in
  call (processInterface obj xmlInterface) (xmlMethodName xm) args
  = Invoke
      {| destination := serviceName obj;
         path := objectName obj;
         interface := xmlInterfaceName xmlInterface;
         member := xmlMethodName xm;
         signature := if String.eqb inSignature "" then None else Some inSignature;
         body := if String.eqb inSignature "" then None else Some args |}
      passOn.
Proof.
  intros Hms Hin Hnd. cbv zeta. unfold call, processInterface. rewrite Hms.
  cbn [methods parent name serviceName objectName].
  rewrite (fold_left_same _ _ _ processMethod_insert).
  rewrite (fold_insert_lookup xmlMethodName
             (fun xm => mkMethod (xmlMethodName xm)
                (match methodArg xm with
                 | Some args => String.concat "" (map argType (List.filter isIn args))
                 | None => EmptyString
                 end)
                (match methodArg xm with
                 | Some args =>
                   String.concat ""
                     (map argType
                        (List.filter (fun arg => negb (isIn arg) && isOut arg) args))
                 | None => EmptyString
                 end))).
  rewrite (find_rev_nodup xmlMethodName xmlMethods xm Hin Hnd).
  cbn [Introspect.inSignature].
  now destruct (String.eqb _ "").
Qed.

Lemma introspected_call_witness :
  let ping := mkXmlMethod "Ping" (Some [mkXmlArg None (Some "out") "s"%string]) in
  let add := mkXmlMethod "Add" (Some [mkXmlArg None None "i"; mkXmlArg None (Some "in") "i";
                                      mkXmlArg None (Some "out") "x"]%string) in
  let xmlInterface := mkXmlInterface "com.example.Calc" (Some [ping; add]) None None in
  let obj := mkObject "/calc" "com.example" in
  call (processInterface obj xmlInterface) "Ping" [VNumber (Int 1)]
  = Invoke (mkMessage "com.example" "/calc" "com.example.Calc" "Ping" None None) passOn.
Proof.
  cbv zeta.
  apply (introspected_call (mkObject "/calc" "com.example")
           (mkXmlInterface "com.example.Calc" _ None None) _
           (mkXmlMethod "Ping" (Some [mkXmlArg None (Some "out") "s"%string]))
           [VNumber (Int 1)] eq_refl).
  - now left.
  - repeat constructor; simpl; intuition discriminate.
Defined.

(** X24: [setProperty] on an introspected proxy sends
    [org.freedesktop.DBus.Properties.Set] with the value in a variant of the
    type that the document declares for the property; the declared access
    has no part in it: a property that is read-only is sent as well. *)
Theorem introspected_setProperty (obj : DBusObject) (xmlInterface : XmlInterface)
    (xmlProperties : list XmlProperty) (xp : XmlProperty) (value : Value) (callback : bool) :
  xmlProperty xmlInterface = Some xmlProperties ->
  In xp xmlProperties ->
  List.NoDup (map xmlPropertyName xmlProperties) ->
  setProperty (processInterface obj xmlInterface) (xmlPropertyName xp) value callback
  = Invoke
      {| destination := serviceName obj;
         path := objectName obj;
         interface := "org.freedesktop.DBus.Properties";
         member := "Set";
         signature := Some "ssv"%string;
         body := Some [VString (xmlInterfaceName xmlInterface);
                       VString (xmlPropertyName xp);
                       VArray [VString (xmlPropertyType xp); value]] |}
      (if callback then passOn else fun _ _ => Done None).
Proof.
  intros Hps Hin Hnd. unfold setProperty, processInterface. rewrite Hps.
  cbn [properties parent name serviceName objectName].
  unfold processProperty.
  rewrite (fold_insert_lookup xmlPropertyName
             (fun xp => mkProperty (xmlPropertyName xp) (xmlPropertyType xp)
                          (parsePropertyAccess (xmlPropertyAccess xp)))).
  now rewrite (find_rev_nodup xmlPropertyName xmlProperties xp Hin Hnd).
Qed.

Lemma introspected_setProperty_witness :
  let version := mkXmlProperty "Version" "u" "read" in
  let xmlInterface := mkXmlInterface "com.example.Calc" None (Some [version]) None in
  let obj := mkObject "/calc" "com.example" in
  setProperty (processInterface obj xmlInterface) "Version" (VNumber (Int 2)) false
  = Invoke
      (mkMessage "com.example" "/calc" "org.freedesktop.DBus.Properties" "Set"
         (Some "ssv"%string)
         (Some [VString "com.example.Calc"; VString "Version";
                VArray [VString "u"; VNumber (Int 2)]]))
      (fun _ _ => Done None).
Proof.
  cbv zeta.
  apply (introspected_setProperty (mkObject "/calc" "com.example")
           (mkXmlInterface "com.example.Calc" None _ None) _
           (mkXmlProperty "Version" "u" "read") (VNumber (Int 2)) false eq_refl).
  - now left.
  - repeat constructor. simpl. tauto.
Defined.

End ProcessXMLLaws.

(** ** Numbers in the 64-bit fields *)

Module Int64Laws.
Import Marshallers Layout PutStream PutFacts MarshallerFacts MarshallFacts PutLaws MarshallerLaws.

Lemma low_byte_toInt32 x (i : nat) :
  (i <= 3)%nat -> (toInt32 x / 256 ^ Z.of_nat i) mod 256 = (x / 256 ^ Z.of_nat i) mod 256.
Proof.
  intros Hi. destruct (toInt32_eqm x) as [q ->].
  assert (E : 2 ^ 32 = 256 ^ Z.of_nat i * (256 * 256 ^ (3 - Z.of_nat i))).
  { rewrite <- Z.pow_succ_r, <- Z.pow_add_r by lia.
    replace (Z.of_nat i + Z.succ (3 - Z.of_nat i)) with 4 by lia. reflexivity. }
  rewrite E.
  replace (x + 256 ^ Z.of_nat i * (256 * 256 ^ (3 - Z.of_nat i)) * q)
    with (x + (256 ^ (3 - Z.of_nat i) * q * 256) * 256 ^ Z.of_nat i) by ring.
  rewrite Z.div_add by (apply Z.pow_nonzero; lia).
  replace (x / 256 ^ Z.of_nat i + 256 ^ (3 - Z.of_nat i) * q * 256)
    with (x / 256 ^ Z.of_nat i + (256 ^ (3 - Z.of_nat i) * q) * 256) by ring.
  apply Z_mod_plus_full.
Qed.

Lemma high_byte z (i : nat) :
  (z / 2 ^ 32 / 256 ^ Z.of_nat i) mod 256 = (z / 256 ^ Z.of_nat (4 + i)) mod 256.
Proof.
  rewrite Nat2Z.inj_add, Z.pow_add_r by lia. change (256 ^ Z.of_nat 4) with (2 ^ 32).
  rewrite Z.div_div by (try apply Z.pow_pos_nonneg; lia). reflexivity.
Qed.

Lemma lowBytes_split z :
  lowBytes 4 (toInt32 z) ++ lowBytes 4 (toInt32 (z / 2 ^ 32)) = lowBytes 8 z.
Proof.
  unfold lowBytes. cbn [seq map app].
  rewrite !low_byte_toInt32 by lia.
  rewrite (high_byte z 0), (high_byte z 1), (high_byte z 2), (high_byte z 3).
  reflexivity.
Qed.

(** X25: a number given to a 64-bit field: every integer from
    [-(2^53 - 1)] to [2^53 - 1] under [x], and from 0 to [2^53 - 1] under
    [t], is accepted and written, after the padding to a multiple of 8, as
    the eight bytes of its 64-bit two's complement, least significant
    first. *)
Theorem int64_number (signed : bool) (m : Marshaller) (ps : Put) (z : Z) :
  MakeSimpleMarshaller (int64 signed) = Done m ->
  (if signed then - (2 ^ 53 - 1) else 0) <= z <= 2 ^ 53 - 1 ->
  exists ps',
    marshall m ps (VNumber (Int z)) = Done ps' /\
    (Put_wf ps -> 0 <= _offset ps ->
     buffer ps' = buffer ps ++ repeat 0 (padding 8 (_offset ps)) ++ lowBytes 8 z).
Proof.
  rewrite MakeSimpleMarshaller_int64. intros [= <-] Hz.
  rewrite marshall_int64, (checkLong_number signed z Hz). cbn [bind].
  eexists. split; [reflexivity|]. intros Hwf Hk.
  apply extends_buffer; [exact Hwf|].
  rewrite <- lowBytes_split. unfold writeLong.
  rewrite <- low_ofZ with (u := negb signed).
  rewrite <- high_ofZ with (u := negb signed).
  now apply (aligned_words_layout ps 8
               [CallWord32le (Long.low (Long.ofZ z (negb signed)));
                CallWord32le (Long.high (Long.ofZ z (negb signed)))]).
Qed.

Lemma int64_number_witness :
  exists ps',
    marshall (withCheck (fun data => let* l := checkLong data true in Done (Some l)) writeLong)
      newPut (VNumber (Int (-2))) = Done ps' /\
    (Put_wf newPut -> 0 <= _offset newPut ->
     buffer ps' = buffer newPut ++ repeat 0 (padding 8 (_offset newPut)) ++ lowBytes 8 (-2)).
Proof.
  apply (int64_number true _ newPut (-2) eq_refl). simpl. lia.
Defined.

End Int64Laws.

(** ** The message of a frame *)

Module DecodeLaws.
Import Readable Framing FramingLaws.

(** The names of the header fields: what [headerTypeName] holds. *)
Lemma headerTypeName_keys id headerName :
  nth (Z.to_nat id) Constants.headerTypeName None = Some headerName ->
  In headerName messageKeys /\ headerName <> "serial"%string /\
  headerName <> "type"%string /\ headerName <> "flags"%string /\
  headerName <> "body"%string.
Proof.
  unfold Constants.headerTypeName.
  destruct (Z.to_nat id) as [|[|[|[|[|[|[|[|[|[|n]]]]]]]]]]; cbn [nth];
    try discriminate; try (destruct n; discriminate);
    intros [= <-]; (split; [cbn; tauto|repeat split; discriminate]).
Qed.

(** The loop over the header fields sets header fields only. *)
Lemma assignHeaders_keys entries : forall message message',
  assignHeaders message entries = Done message' ->
  (forall key, message' !! key <> None ->
               message !! key <> None \/
               (In key messageKeys /\ key <> "serial"%string /\ key <> "type"%string /\
                key <> "flags"%string /\ key <> "body"%string)) /\
  (forall key, (key = "serial" \/ key = "type" \/ key = "flags" \/ key = "body")%string ->
               message' !! key = message !! key).
Proof.
  induction entries as [|[id variant] entries IH]; intros message message' H.
  - injection H as <-. split; [auto|reflexivity].
  - cbn [assignHeaders] in H.
    destruct (nth (Z.to_nat id) Constants.headerTypeName None) as [headerName|] eqn:En;
      [|exact (IH _ _ H)].
    inv_bind H. inv_bind H. apply IH in H as [H1 H2].
    pose proof (headerTypeName_keys _ _ En) as (Hk & Hs & Ht & Hf & Hb).
    split.
    + intros key Hkey. destruct (H1 key Hkey) as [Hin|Hin]; [|now right].
      destruct (String.eqb_spec headerName key) as [<-|Hne]; [right; auto|].
      left. now rewrite lookup_insert_ne in Hin.
    + intros key Hkey. rewrite (H2 key Hkey).
      apply lookup_insert_ne. destruct Hkey as [->|[->|[->| ->]]]; assumption.
Qed.

Section WithBuffer.

Context {DBusBuffer : Type}.
Variable newDBusBuffer : list Z -> DBusBuffer.
Variable readArray : DBusBuffer -> Z -> Error + (list (Z * Value) * DBusBuffer).
Variable alignTo : DBusBuffer -> Z -> DBusBuffer.
Variable readBody : DBusBuffer -> Value -> Error + (Value * DBusBuffer).

Local Abbreviation decode := (decode newDBusBuffer readArray alignTo readBody).

(** X26: the message that [unmarshalMessages] gives to [onMessage] always
    has its [serial], [type] and [flags], read from the bytes 8 to 11, 1 and
    2 of the fixed header: no header field can stand in their place, since
    the loop over the fields sets the eight names of [headerTypeName] only
    and skips every other id; the message has no other key, and it has a
    [body] only when the header announces one and the signature field is
    set. *)
Theorem decoded_message (v : Variables) (fieldsAndBody : list Z)
    (message : gmap string Value) :
  decode v fieldsAndBody = Done message ->
  exists header serial type flags,
    Framing.header v = Some header /\
    readUInt32LE header 8 = Done serial /\
    readUInt8 header 1 = Done type /\
    readUInt8 header 2 = Done flags /\
    message !! "serial"%string = Some (VNumber (Int serial)) /\
    message !! "type"%string = Some (VNumber (Int type)) /\
    message !! "flags"%string = Some (VNumber (Int flags)) /\
    (forall key, message !! key <> None -> In key messageKeys) /\
    (message !! "body"%string <> None ->
     0 < bodyLength v /\
     Marshallers.truthy (Message.field message "signature") = true).
Proof.
  unfold Framing.decode. intros H.
  inv_bind H. destruct r as [entries buffer].
  inv_bind H. rename r into header.
  inv_bind H. rename r into serial.
  inv_bind H. rename r into fields.
  inv_bind H. rename r into type.
  inv_bind H. rename r into flags.
  destruct (Framing.header v) as [header'|]; [|discriminate].
  injection Hm0 as <-.
  apply assignHeaders_keys in Hm2 as [Hkeys Hfixed].
  set (m2 := <["flags"%string := VNumber (Int flags)]>
               (<["type"%string := VNumber (Int type)]> fields)) in *.
  assert (Hserial : m2 !! "serial"%string = Some (VNumber (Int serial))).
  { unfold m2. rewrite !lookup_insert_ne by discriminate.
    rewrite (Hfixed "serial"%string) by auto. apply lookup_insert_eq. }
  assert (Htype : m2 !! "type"%string = Some (VNumber (Int type))).
  { unfold m2. rewrite lookup_insert_ne by discriminate. apply lookup_insert_eq. }
  assert (Hflags : m2 !! "flags"%string = Some (VNumber (Int flags))).
  { unfold m2. apply lookup_insert_eq. }
  assert (Hbody : m2 !! "body"%string = None).
  { unfold m2. rewrite !lookup_insert_ne by discriminate.
    rewrite (Hfixed "body"%string) by auto.
    rewrite lookup_insert_ne by discriminate. apply lookup_empty. }
  assert (Hin : forall key, m2 !! key <> None -> In key messageKeys).
  { intros key Hkey. unfold m2 in Hkey.
    destruct (String.eqb_spec "flags" key) as [<-|Hf]; [cbn; tauto|].
    rewrite lookup_insert_ne in Hkey by assumption.
    destruct (String.eqb_spec "type" key) as [<-|Ht]; [cbn; tauto|].
    rewrite lookup_insert_ne in Hkey by assumption.
    destruct (Hkeys key Hkey) as [Hold|[Hk _]]; [|exact Hk].
    destruct (String.eqb_spec "serial" key) as [<-|Hs]; [cbn; tauto|].
    rewrite lookup_insert_ne in Hold by assumption.
    now rewrite lookup_empty in Hold. }
  exists header', serial, type, flags.
  destruct ((0 <? bodyLength v) && Marshallers.truthy (Message.field m2 "signature"))
    eqn:Ec.
  - inv_bind H. destruct r as [body buffer']. injection H as <-.
    apply andb_prop in Ec as [Hlen Hsig]. apply Z.ltb_lt in Hlen.
    rewrite !lookup_insert_ne by discriminate.
    refine (conj eq_refl (conj Hm1 (conj Hm3 (conj Hm4
              (conj Hserial (conj Htype (conj Hflags (conj _ _)))))))).
    + intros key Hkey.
      destruct (String.eqb_spec "body" key) as [<-|Hb]; [cbn; tauto|].
      rewrite lookup_insert_ne in Hkey by assumption. now apply Hin.
    + intros _. split; [exact Hlen|].
      unfold Message.field in *. now rewrite lookup_insert_ne by discriminate.
  - injection H as <-.
    refine (conj eq_refl (conj Hm1 (conj Hm3 (conj Hm4
              (conj Hserial (conj Htype (conj Hflags (conj Hin _)))))))).
    intros Hb. now rewrite Hbody in Hb.
Qed.

End WithBuffer.

Lemma decoded_message_witness :
  let readArray (b : list Z) (n : Z) : Error + (list (Z * Value) * list Z) :=
    inr ([(1, VArray [VString "o"; VArray [VString "/a"]]); (9, VUndefined)], b) in
  let readBody (b : list Z) (s : Value) : Error + (Value * list Z) := inr (VArray [], b) in
  let header := [108; 1; 2; 1; 0; 0; 0; 0; 7; 0; 0; 0; 5; 0; 0; 0] in
  let message : gmap string Value :=
    <["flags"%string := VNumber (Int 2)]>
      (<["type"%string := VNumber (Int 1)]>
         (<["path"%string := VString "/a"]> (<["serial"%string := VNumber (Int 7)]> ∅))) in
  exists header' serial type flags,
    Some header = Some header' /\
    readUInt32LE header' 8 = Done serial /\
    readUInt8 header' 1 = Done type /\
    readUInt8 header' 2 = Done flags /\
    message !! "serial"%string = Some (VNumber (Int serial)) /\
    message !! "type"%string = Some (VNumber (Int type)) /\
    message !! "flags"%string = Some (VNumber (Int flags)) /\
    (forall key, message !! key <> None -> In key messageKeys) /\
    (message !! "body"%string <> None ->
     0 < 0 /\ Marshallers.truthy (Message.field message "signature") = true).
Proof.
  cbv zeta.
  exact (decoded_message (fun b => b)
           (fun b _ => inr ([(1, VArray [VString "o"; VArray [VString "/a"]]);
                             (9, VUndefined)], b))
           (fun b _ => b) (fun b _ => inr (VArray [], b))
           (mkVariables 1 (Some [108; 1; 2; 1; 0; 0; 0; 0; 7; 0; 0; 0; 5; 0; 0; 0]) 5 8 8 0)
           [1; 1; 111; 0; 0; 0; 0; 0] _ eq_refl).
Defined.

End DecodeLaws.

(** ** Writing and reading a 32-bit integer *)

Module RoundTripLaws.
Import Marshallers Layout PutStream Readable PutFacts MarshallerFacts MarshallFacts PutLaws MarshallerLaws.

Lemma nth_error_after (before : list Z) (after : list Z) (i : nat) :
  nth_error (before ++ after) (List.length before + i) = nth_error after i.
Proof.
  rewrite nth_error_app2 by lia. f_equal. lia.
Qed.

Lemma readUInt32LE_lowBytes (before after : list Z) z :
  0 <= z < 2 ^ 32 ->
  readUInt32LE (before ++ lowBytes 4 z ++ after) (List.length before) = Done z.
Proof.
  intros Hz. unfold readUInt32LE, readUInt8.
  rewrite <- (Nat.add_0_r (List.length before)) at 1.
  rewrite !nth_error_after. cbn [lowBytes seq map app nth_error bind].
  f_equal. change (Z.of_nat 0) with 0. change (Z.of_nat 1) with 1.
  change (Z.of_nat 2) with 2. change (Z.of_nat 3) with 3.
  change (256 ^ 0) with 1. change (256 ^ 1) with 256.
  change (256 ^ 2) with (256 * 256). change (256 ^ 3) with (256 * 256 * 256).
  rewrite Z.div_1_r.
  rewrite <- !Z.div_div by lia.
  pose proof (Z.div_mod z 256 ltac:(lia)).
  pose proof (Z.div_mod (z / 256) 256 ltac:(lia)).
  pose proof (Z.div_mod (z / 256 / 256) 256 ltac:(lia)).
  assert (0 <= z / 256 / 256 / 256 < 256).
  { split; [repeat apply Z.div_pos; lia|].
    repeat apply Z.div_lt_upper_bound; lia. }
  rewrite (Z.mod_small (z / 256 / 256 / 256)) by lia.
  change (2 ^ 8) with 256. change (2 ^ 16) with (256 * 256).
  change (2 ^ 24) with (256 * 256 * 256). lia.
Qed.

(** X27: what the marshaller of [u] writes, [readUInt32LE] reads: for every
    integer from 0 to [0xffffffff], the four bytes stand after the padding
    to a multiple of 4, and [readUInt32LE] at that place of the buffer
    returns the integer, whatever follows. *)
Theorem uint32_round_trip (m : Marshaller) (ps : Put) (z : Z) :
  MakeSimpleMarshaller "u" = Done m ->
  Put_wf ps -> 0 <= _offset ps ->
  0 <= z <= 0xffffffff ->
  exists ps',
    marshall m ps (VNumber (Int z)) = Done ps' /\
    forall after,
      readUInt32LE (buffer ps' ++ after)
        (List.length (buffer ps) + padding 4 (_offset ps))
      = Done z.
Proof.
  intros Hm Hwf Hk Hz.
  exists (advance (word32le (align ps 4) z) 4). split.
  - rewrite (integer_marshall UINT32 m Hm).
    cbn [checkInteger bind asNumber asInteger minValue maxValue].
    rewrite checkRange_Int.
    destruct (Z.ltb_spec 0xffffffff z); [lia|].
    destruct (Z.ltb_spec z 0); [lia|]. reflexivity.
  - intros after.
    rewrite (integer_written UINT32 ps z Hwf Hk _ eq_refl). cbn [bytes].
    rewrite <- !app_assoc, app_assoc.
    replace (List.length (buffer ps) + padding 4 (_offset ps))%nat
      with (List.length (buffer ps ++ repeat 0 (padding (Z.of_nat 4) (_offset ps))))
      by (rewrite length_app, repeat_length; reflexivity).
    apply readUInt32LE_lowBytes. lia.
Qed.

Lemma uint32_round_trip_witness :
  let ps := advance (put newPut [1; 2; 3]) 3 in
  exists ps',
    marshall (withCheck
                (checkOnly (fun data =>
                   let* _ := checkInteger data in checkRange 0 4294967295 (asNumber data)))
                (fun ps data _ => advance (word32le (align ps 4) (asInteger data)) 4))
      ps (VNumber (Int 305419896)) = Done ps' /\
    forall after,
      readUInt32LE (buffer ps' ++ after)
        (List.length (buffer ps) + padding 4 (_offset ps))
      = Done 305419896.
Proof.
  cbv zeta. apply uint32_round_trip; [reflexivity|reflexivity|simpl; lia|lia].
Defined.

End RoundTripLaws.
